(** * Pete OS core: window manager, application lifecycle, input system

    A shallow embedding of the three core services of the Pete OS desktop
    (create-window-manager.ts, application-registry.ts /
    application-lifecycle.ts / window-application-bridge.ts, and the
    input system: interaction-registry.ts, keyboard-shortcut-registry.ts,
    gesture-recognizers.ts, create-input-system.ts), followed by the
    properties of the design document checked against it.

    Conventions of the embedding.
    - A factory's private variables become a record; each public function
      becomes a function from that record to the new record and the list
      of events it emitted (subscribers are assumed to observe only).
    - JavaScript [Map]s whose iteration order the code relies on are
      association lists in insertion order (module [JSMap]); maps that
      are only ever looked up are [gmap]s.
    - The numbers the code stores, counts or compares for equality
      (z-indices, counters, timestamps, pixel coordinates and sizes) are
      integers ([Z]).  Where the code computes on them with [Math.sqrt],
      [Math.pow] or a division, the arithmetic is that of IEEE 754
      binary64 on the doubles they denote (module [Double]); [Math.atan2]
      is left to the host: a value computed from its answer is kept as a
      function of that answer.
    - [Date.now()], [Math.random()] and the firing of timers are inputs
      of the functions that use them.
    - [async] functions are run to completion; the outcome of an
      application hook (returns or throws) is part of the component. *)

From Stdlib Require Import ZArith List String Ascii Bool Lia.
From Stdlib Require SpecFloat.
From Stdlib Require Import Decimal DecimalFacts DecimalPos DecimalN DecimalZ.
From stdpp Require Import base list strings gmap option.

Local Open Scope string_scope.
Local Open Scope list_scope.
Local Open Scope Z_scope.

(* ================================================================== *)
(** * Part I.  The embedding *)
(* ================================================================== *)

(** ** JavaScript helpers *)

Module JS.

(** Truthiness of an optional string property: [undefined] and the empty
    string are falsy. *)
Definition truthy (o : option string) : bool :=
  match o with
  | Some s => negb (String.eqb s "")
  | None => false
  end.

(** Truthiness of a number: [0] is falsy. *)
Definition truthyZ (o : option Z) : bool :=
  match o with
  | Some n => negb (n =? 0)
  | None => false
  end.

(** [o === true]-style truthiness of an optional boolean. *)
Definition truthyB (o : option bool) : bool :=
  match o with
  | Some b => b
  | None => false
  end.

(** [a !== b] on optional properties ([None] is [undefined]). *)
Definition strict_ne {A} `{EqDecision A} (a b : option A) : bool :=
  negb (bool_decide (a = b)).

(** The double-quote character, as a string. *)
Definition dq : string := String (ascii_of_nat 34) "".

(** [xs[xs.length - 1]]. *)
Fixpoint last_of {A} (xs : list A) : option A :=
  match xs with
  | [] => None
  | [x] => Some x
  | _ :: rest => last_of rest
  end.

End JS.

(** ** JavaScript numbers in arithmetic *)

(** IEEE 754 binary64 with rounding to nearest, ties to even, as the
    Standard Library specifies it ([SpecFloat], precision 53, maximal
    exponent 1024). *)
Module Double.

Definition t := SpecFloat.spec_float.

Definition prec : Z := 53.
Definition emax : Z := 1024.


(** The double an integer denotes: itself up to [2^53], the nearest
    double beyond. *)
Definition of_Z (z : Z) : t := SpecFloat.binary_normalize prec emax z 0 false.

Definition add : t -> t -> t := SpecFloat.SFadd prec emax.
Definition sub : t -> t -> t := SpecFloat.SFsub prec emax.
Definition mul : t -> t -> t := SpecFloat.SFmul prec emax.
Definition div : t -> t -> t := SpecFloat.SFdiv prec emax.

(** [Math.sqrt(x)] and [Math.pow(x, 2)], correctly rounded. *)
Definition sqrt : t -> t := SpecFloat.SFsqrt prec emax.
Definition square (x : t) : t := mul x x.

(** [a <= b], [a < b], [a >= b] and [a > b]: all false on [NaN]. *)
Definition le (a b : t) : bool := SpecFloat.SFleb a b.
Definition lt (a b : t) : bool := SpecFloat.SFltb a b.
Definition ge (a b : t) : bool := SpecFloat.SFleb b a.
Definition gt (a b : t) : bool := SpecFloat.SFltb b a.

(** [Math.PI], 3.141592653589793. *)
Definition PI : t := SpecFloat.S754_finite false 7074237752028440 (-51).

#[global] Arguments of_Z : simpl never.
#[global] Arguments add : simpl never.
#[global] Arguments sub : simpl never.
#[global] Arguments mul : simpl never.
#[global] Arguments div : simpl never.
#[global] Arguments sqrt : simpl never.
#[global] Arguments le : simpl never.
#[global] Arguments lt : simpl never.
#[global] Arguments ge : simpl never.
#[global] Arguments gt : simpl never.

End Double.

(** ** JavaScript [Map<string, V>] in insertion order *)

Module JSMap.
Section Defs.
Context {V : Type}.

Definition t := list (string * V).

Fixpoint get (k : string) (m : t) : option V :=
  match m with
  | [] => None
  | (k', v) :: rest => if String.eqb k k' then Some v else get k rest
  end.

Definition has (k : string) (m : t) : bool :=
  match get k m with Some _ => true | None => false end.

(** [m.set(k, v)]: an existing key keeps its place, a new key goes last. *)
Fixpoint set (k : string) (v : V) (m : t) : t :=
  match m with
  | [] => [(k, v)]
  | (k', v') :: rest =>
      if String.eqb k k' then (k', v) :: rest else (k', v') :: set k v rest
  end.

(** [m.delete(k)]: no entry of key [k] is left. *)
Fixpoint delete (k : string) (m : t) : t :=
  match m with
  | [] => []
  | (k', v') :: rest =>
      if String.eqb k k' then delete k rest else (k', v') :: delete k rest
  end.

(** In-place mutation of the object stored under [k]
    ([const o = m.get(k); if (o) o.field = ...]). *)
Fixpoint update (k : string) (f : V -> V) (m : t) : t :=
  match m with
  | [] => []
  | (k', v') :: rest =>
      if String.eqb k k' then (k', f v') :: rest else (k', v') :: update k f rest
  end.

Definition keys (m : t) : list string := map fst m.
Definition values (m : t) : list V := map snd m.

End Defs.
Arguments t : clear implicits.
End JSMap.

(* ------------------------------------------------------------------ *)
(** ** Input system *)
(* ------------------------------------------------------------------ *)

Module Input.

(** *** Types (input.types.ts) *)

Record InputPosition := { px : Z; py : Z }.

Inductive InputEventType :=
| mouse_down | mouse_up | mouse_move | mouse_click | mouse_doubleclick
| mouse_wheel | key_down | key_up | key_press
| touch_start | touch_move | touch_end
| gesture_start | gesture_update | gesture_end.

Record InputModifiers := { ctrl : bool; alt : bool; shift : bool; meta : bool }.

Inductive InteractionMode := mode_window | mode_app | mode_system.

Record InputContext := {
  windowId : option string;
  appId : option string;
  elementType : option string;
  interactionMode : option InteractionMode;
  priority : option Z
}.

Record InputEvent := {
  ev_id : string;
  ev_type : InputEventType;
  ev_timestamp : Z;
  ev_position : option InputPosition;
  ev_target : option string;
  ev_context : option InputContext;
  ev_modifiers : option InputModifiers;
  ev_key : option string            (* data.key *)
}.

#[global] Instance InteractionMode_eq_dec : EqDecision InteractionMode.
Proof. solve_decision. Defined.
#[global] Instance InputEventType_eq_dec : EqDecision InputEventType.
Proof. solve_decision. Defined.
#[global] Instance InputPosition_eq_dec : EqDecision InputPosition.
Proof. solve_decision. Defined.

(** The filter that sets no field, [{}]. *)
Definition unset_context : InputContext :=
  {| windowId := None; appId := None; elementType := None;
     interactionMode := None; priority := None |}.

(** *** interaction-registry.ts *)

Module InteractionRegistry.

Definition contextMatches (handlerContext : InputContext)
    (eventContext : option InputContext) : bool :=
  match eventContext with
  | None => false
  | Some eventContext =>
      if JS.truthy (windowId handlerContext)
         && JS.strict_ne (windowId handlerContext) (windowId eventContext)
      then false
      else if JS.truthy (appId handlerContext)
         && JS.strict_ne (appId handlerContext) (appId eventContext)
      then false
      else if JS.truthy (elementType handlerContext)
         && JS.strict_ne (elementType handlerContext) (elementType eventContext)
      then false
      else if bool_decide (is_Some (interactionMode handlerContext))
         && JS.strict_ne (interactionMode handlerContext)
                         (interactionMode eventContext)
      then false
      else true
  end.

End InteractionRegistry.

(** *** keyboard-shortcut-registry.ts *)

Module KeyboardShortcutRegistry.

Definition contextMatches (shortcutContext eventContext : option InputContext)
    : bool :=
  match shortcutContext with
  | None => true                                  (* global shortcut *)
  | Some shortcutContext =>
      match eventContext with
      | None => false
      | Some eventContext =>
          if JS.truthy (windowId shortcutContext)
             && JS.strict_ne (windowId shortcutContext) (windowId eventContext)
          then false
          else if JS.truthy (appId shortcutContext)
             && JS.strict_ne (appId shortcutContext) (appId eventContext)
          then false
          else if bool_decide (is_Some (interactionMode shortcutContext))
             && JS.strict_ne (interactionMode shortcutContext)
                             (interactionMode eventContext)
          then false
          else true
      end
  end.

End KeyboardShortcutRegistry.

(** *** gesture-recognizers.ts *)

(** [distance(p1, p2)]:
    [Math.sqrt(Math.pow(p2.x - p1.x, 2) + Math.pow(p2.y - p1.y, 2))]. *)
Definition distance (p1 p2 : InputPosition) : Double.t :=
  Double.sqrt
    (Double.add
       (Double.square (Double.sub (Double.of_Z (px p2)) (Double.of_Z (px p1))))
       (Double.square (Double.sub (Double.of_Z (py p2)) (Double.of_Z (py p1))))).

Inductive GestureType :=
| g_swipe | g_pinch | g_rotate | g_tap | g_long_press | g_drag | g_custom.

Inductive GestureState := gs_start | gs_update | gs_end | gs_cancel.

(** The values a recognizer stores in [data].  [DAtan2 dy dx k] is the
    value [k a] where [a] is what the host's [Math.atan2(dy, dx)]
    answers. *)
Inductive DataValue :=
| DNum (n : Z)                              (* a difference of timestamps *)
| DDouble (d : Double.t)                    (* a computed number *)
| DPos (p : option InputPosition)
| DStr (s : string)
| DAtan2 (dy dx : Double.t) (k : Double.t -> DataValue).

(** A gesture event; its [id] (clock and random source) is not modelled. *)
Record GestureEvent := {
  g_type : GestureType;
  g_state : GestureState;
  g_timestamp : Z;
  g_position : InputPosition;
  g_data : list (string * DataValue);
  g_context : option InputContext
}.

#[global] Instance GestureType_eq_dec : EqDecision GestureType.
Proof. solve_decision. Defined.
#[global] Instance GestureState_eq_dec : EqDecision GestureState.
Proof. solve_decision. Defined.

Definition is_down (t : InputEventType) : bool :=
  match t with mouse_down | touch_start => true | _ => false end.
Definition is_up (t : InputEventType) : bool :=
  match t with mouse_up | touch_end => true | _ => false end.
Definition is_move (t : InputEventType) : bool :=
  match t with mouse_move | touch_move => true | _ => false end.

(** [lastEvent.position || { x: 0, y: 0 }]. *)
Definition position_or_origin (e : InputEvent) : InputPosition :=
  match ev_position e with Some p => p | None => {| px := 0; py := 0 |} end.

(** [b.position && a.position ? distance(a.position, b.position) : 0]. *)
Definition dist_between (a b : InputEvent) : Double.t :=
  match ev_position b, ev_position a with
  | Some pb, Some pa => distance pa pb
  | _, _ => Double.of_Z 0
  end.

(** [b.position && a.position ? b.position.x - a.position.x : 0], and the
    same for [y]. *)
Definition delta (f : InputPosition -> Z) (a b : InputEvent) : Double.t :=
  match ev_position b, ev_position a with
  | Some pb, Some pa => Double.sub (Double.of_Z (f pb)) (Double.of_Z (f pa))
  | _, _ => Double.of_Z 0
  end.

Definition is_some {A} (o : option A) : bool :=
  match o with Some _ => true | None => false end.

(** **** Tap *)

Module Tap.

Definition state := option InputEvent.             (* startEvent *)
Definition init : state := None.

Definition recognize (maxDistance maxDuration : Z) (startEvent : state)
    (events : list InputEvent) : state * option GestureEvent :=
  match JS.last_of events with
  | None => (startEvent, None)
  | Some lastEvent =>
      if is_down (ev_type lastEvent) && negb (is_some startEvent) then
        (Some lastEvent,
         Some {| g_type := g_tap; g_state := gs_start;
                 g_timestamp := ev_timestamp lastEvent;
                 g_position := position_or_origin lastEvent;
                 g_data := [];
                 g_context := ev_context lastEvent |})
      else
        match startEvent with
        | Some start =>
            if is_up (ev_type lastEvent) then
              let duration := ev_timestamp lastEvent - ev_timestamp start in
              let dist := dist_between start lastEvent in
              let isValidTap :=
                (duration <=? maxDuration)
                && Double.le dist (Double.of_Z maxDistance) in
              let gesture :=
                {| g_type := g_tap;
                   g_state := if isValidTap then gs_end else gs_cancel;
                   g_timestamp := ev_timestamp lastEvent;
                   g_position := position_or_origin lastEvent;
                   g_data := [("duration", DNum duration);
                              ("distance", DDouble dist);
                              ("startPosition", DPos (ev_position start))];
                   g_context := ev_context lastEvent |} in
              (None, if isValidTap then Some gesture else None)
            else (startEvent, None)
        | None => (startEvent, None)
        end
  end.

Definition reset (_ : state) : state := None.

End Tap.

(** **** Drag *)

Module Drag.

Record state := { startEvent : option InputEvent; isDragging : bool }.
Definition init : state := {| startEvent := None; isDragging := false |}.

Definition recognize (minDistance : Z) (st : state) (events : list InputEvent)
    : state * option GestureEvent :=
  match JS.last_of events with
  | None => (st, None)
  | Some lastEvent =>
      if is_down (ev_type lastEvent) && negb (is_some (startEvent st)) then
        ({| startEvent := Some lastEvent; isDragging := false |}, None)
      else
        match startEvent st with
        | Some start =>
            let dist := dist_between start lastEvent in
            if is_move (ev_type lastEvent) && negb (isDragging st)
               && Double.ge dist (Double.of_Z minDistance) then
              ({| startEvent := Some start; isDragging := true |},
               Some {| g_type := g_drag; g_state := gs_start;
                       g_timestamp := ev_timestamp lastEvent;
                       g_position := position_or_origin lastEvent;
                       g_data := [("startPosition", DPos (ev_position start));
                                  ("distance", DDouble dist)];
                       g_context := ev_context lastEvent |})
            else if is_move (ev_type lastEvent) && isDragging st then
              (st,
               Some {| g_type := g_drag; g_state := gs_update;
                       g_timestamp := ev_timestamp lastEvent;
                       g_position := position_or_origin lastEvent;
                       g_data := [("startPosition", DPos (ev_position start));
                                  ("distance", DDouble dist);
                                  ("deltaX", DDouble (delta px start lastEvent));
                                  ("deltaY", DDouble (delta py start lastEvent))];
                       g_context := ev_context lastEvent |})
            else if is_up (ev_type lastEvent) && isDragging st then
              ({| startEvent := None; isDragging := false |},
               Some {| g_type := g_drag; g_state := gs_end;
                       g_timestamp := ev_timestamp lastEvent;
                       g_position := position_or_origin lastEvent;
                       g_data := [("startPosition", DPos (ev_position start));
                                  ("endPosition", DPos (ev_position lastEvent));
                                  ("totalDistance", DDouble dist);
                                  ("duration",
                                   DNum (ev_timestamp lastEvent - ev_timestamp start))];
                       g_context := ev_context lastEvent |})
            else (st, None)
        | None => (st, None)
        end
  end.

Definition reset (_ : state) : state := init.

End Drag.

(** **** Swipe *)

Module Swipe.

Definition state := option InputEvent.             (* startEvent *)
Definition init : state := None.

(** [duration > 0 ? dist / duration : 0]. *)
Definition velocity (dist : Double.t) (duration : Z) : Double.t :=
  if 0 <? duration then Double.div dist (Double.of_Z duration)
  else Double.of_Z 0.

(** [angle(p1, p2)] once [Math.atan2(p2.y - p1.y, p2.x - p1.x)] has
    answered [a]: [a * 180 / Math.PI]. *)
Definition angle_of (a : Double.t) : Double.t :=
  Double.div (Double.mul a (Double.of_Z 180)) Double.PI.

(** The direction of a swipe, by the tests of the source in their
    order. *)
Definition direction (swipeAngle : Double.t) : string :=
  if Double.ge swipeAngle (Double.of_Z (-45)) && Double.le swipeAngle (Double.of_Z 45)
  then "right"
  else if Double.ge swipeAngle (Double.of_Z 45)
          && Double.le swipeAngle (Double.of_Z 135)
  then "down"
  else if Double.ge swipeAngle (Double.of_Z 135)
          || Double.le swipeAngle (Double.of_Z (-135))
  then "left"
  else if Double.ge swipeAngle (Double.of_Z (-135))
          && Double.le swipeAngle (Double.of_Z (-45))
  then "up"
  else "unknown".

(** What is computed from [swipeAngle], which is
    [lastEvent.position && startEvent.position ? angle(...) : 0]. *)
Definition of_swipeAngle (k : Double.t -> DataValue) (start lastEvent : InputEvent)
    : DataValue :=
  match ev_position lastEvent, ev_position start with
  | Some pl, Some ps =>
      DAtan2 (Double.sub (Double.of_Z (py pl)) (Double.of_Z (py ps)))
             (Double.sub (Double.of_Z (px pl)) (Double.of_Z (px ps)))
             (fun a => k (angle_of a))
  | _, _ => k (Double.of_Z 0)
  end.

Definition recognize (minDistance maxDuration : Z) (minVelocity : Double.t)
    (startEvent : state) (events : list InputEvent)
    : state * option GestureEvent :=
  match JS.last_of events with
  | None => (startEvent, None)
  | Some lastEvent =>
      if is_down (ev_type lastEvent) && negb (is_some startEvent) then
        (Some lastEvent, None)
      else
        match startEvent with
        | Some start =>
            if is_up (ev_type lastEvent) then
              let duration := ev_timestamp lastEvent - ev_timestamp start in
              let dist := dist_between start lastEvent in
              let isValidSwipe :=
                (duration <=? maxDuration)
                && Double.ge dist (Double.of_Z minDistance)
                && Double.ge (velocity dist duration) minVelocity in
              if isValidSwipe then
                (None,
                 Some {| g_type := g_swipe; g_state := gs_end;
                         g_timestamp := ev_timestamp lastEvent;
                         g_position := position_or_origin lastEvent;
                         g_data :=
                           [("direction",
                             of_swipeAngle (fun a => DStr (direction a))
                               start lastEvent);
                            ("distance", DDouble dist);
                            ("duration", DNum duration);
                            ("velocity", DDouble (velocity dist duration));
                            ("angle", of_swipeAngle DDouble start lastEvent);
                            ("startPosition", DPos (ev_position start));
                            ("endPosition", DPos (ev_position lastEvent))];
                         g_context := ev_context lastEvent |})
              else (None, None)
            else (startEvent, None)
        | None => (startEvent, None)
        end
  end.

Definition reset (_ : state) : state := None.

End Swipe.

(** **** Long press *)

Module LongPress.

(** [timerPending]: the timeout set on press has neither fired nor been
    cleared. *)
Record state := {
  startEvent : option InputEvent;
  timerPending : bool;
  triggered : bool
}.
Definition init : state :=
  {| startEvent := None; timerPending := false; triggered := false |}.

Definition reset (_ : state) : state := init.

(** The timeout callback, [duration] after the press. *)
Definition timeout (st : state) : state :=
  if timerPending st then
    {| startEvent := startEvent st; timerPending := false;
       triggered := if is_some (startEvent st) && negb (triggered st)
                    then true else triggered st |}
  else st.

Definition recognize (maxDistance : Z) (st : state) (events : list InputEvent)
    : state * option GestureEvent :=
  match JS.last_of events with
  | None => (st, None)
  | Some lastEvent =>
      if is_down (ev_type lastEvent) && negb (is_some (startEvent st)) then
        ({| startEvent := Some lastEvent; timerPending := true;
            triggered := false |}, None)
      else
        match startEvent st with
        | Some start =>
            if is_move (ev_type lastEvent)
               && Double.gt (dist_between start lastEvent) (Double.of_Z maxDistance)
            then
              (reset st, None)
            else if is_up (ev_type lastEvent) then
              let gestureDuration := ev_timestamp lastEvent - ev_timestamp start in
              (reset st,
               if triggered st then
                 Some {| g_type := g_long_press; g_state := gs_end;
                         g_timestamp := ev_timestamp lastEvent;
                         g_position := position_or_origin lastEvent;
                         g_data := [("duration", DNum gestureDuration);
                                    ("startPosition", DPos (ev_position start))];
                         g_context := ev_context lastEvent |}
               else None)
            else (st, None)
        | None => (st, None)
        end
  end.

End LongPress.

(** *** create-input-system.ts *)

Module InputSystem.

(** A custom recognizer is an object with private mutable state; being
    deterministic, what it returns is a function of the arguments of all
    its calls so far (the latest first). *)
Record GestureDefinition := {
  gd_id : string;
  gd_type : GestureType;
  gd_recognizer : list (list InputEvent) -> option GestureEvent;
  gd_calls : list (list InputEvent);
  gd_context : option InputContext;
  gd_enabled : bool
}.

Inductive InputSystemEvent :=
| input_received (event : InputEvent)
| gesture_recognized (gesture : GestureEvent)
| context_changed (from to : InputContext).

(** What a call does besides changing the state, in order. *)
Inductive Effect :=
| Emit (e : InputSystemEvent)
| GestureHandler (id : string) (gesture : GestureEvent).

Record state := {
  enabled : bool;
  currentContext : InputContext;
  recentEvents : list InputEvent;
  eventHistory : list InputEvent;
  tap : Tap.state;
  drag : Drag.state;
  swipe : Swipe.state;
  longPress : LongPress.state;
  gestureDefinitions : JSMap.t GestureDefinition
}.

Definition createInputSystem : state :=
  {| enabled := true;
     currentContext :=
       {| windowId := None; appId := None; elementType := None;
          interactionMode := Some mode_system; priority := None |};
     recentEvents := [];
     eventHistory := [];
     tap := Tap.init;
     drag := Drag.init;
     swipe := Swipe.init;
     longPress := LongPress.init;
     gestureDefinitions := [] |}.

(** [xs.push(x); if (xs.length > cap) xs.shift()]. *)
Definition push_capped {A} (cap : nat) (xs : list A) (x : A) : list A :=
  let xs' := xs ++ [x] in
  if (cap <? length xs')%nat then tail xs' else xs'.

Definition addToHistory (event : InputEvent) (st : state) : state :=
  {| enabled := enabled st;
     currentContext := currentContext st;
     recentEvents := push_capped 10 (recentEvents st) event;
     eventHistory := push_capped 100 (eventHistory st) event;
     tap := tap st; drag := drag st; swipe := swipe st;
     longPress := longPress st;
     gestureDefinitions := gestureDefinitions st |}.

Definition opt_to_list {A} (o : option A) : list A :=
  match o with Some x => [x] | None => [] end.

(** The loop over the custom definitions: every enabled definition's
    recognizer is run and, when it returns a gesture, its handler is
    invoked. *)
Fixpoint run_custom (events : list InputEvent)
    (defs : JSMap.t GestureDefinition)
    : JSMap.t GestureDefinition * list GestureEvent * list Effect :=
  match defs with
  | [] => ([], [], [])
  | (k, d) :: rest =>
      let '(rest', gs, fx) := run_custom events rest in
      if gd_enabled d then
        let calls := events :: gd_calls d in
        let d' := {| gd_id := gd_id d; gd_type := gd_type d;
                     gd_recognizer := gd_recognizer d; gd_calls := calls;
                     gd_context := gd_context d; gd_enabled := gd_enabled d |} in
        match gd_recognizer d calls with
        | Some g => ((k, d') :: rest', g :: gs, GestureHandler k g :: fx)
        | None => ((k, d') :: rest', gs, fx)
        end
      else ((k, d) :: rest', gs, fx)
  end.

(** The default [minVelocity], [0.1]. *)
Definition default_minVelocity : Double.t :=
  Double.div (Double.of_Z 1) (Double.of_Z 10).

Definition recognizeGestures (events : list InputEvent) (st : state)
    : state * list GestureEvent * list Effect :=
  let '(tap', g1) := Tap.recognize 10 300 (tap st) events in
  let '(drag', g2) := Drag.recognize 10 (drag st) events in
  let '(swipe', g3) := Swipe.recognize 50 500 default_minVelocity (swipe st) events in
  let '(long', g4) := LongPress.recognize 10 (longPress st) events in
  let '(defs', gs, fx) := run_custom events (gestureDefinitions st) in
  ({| enabled := enabled st;
      currentContext := currentContext st;
      recentEvents := recentEvents st;
      eventHistory := eventHistory st;
      tap := tap'; drag := drag'; swipe := swipe'; longPress := long';
      gestureDefinitions := defs' |},
   opt_to_list g1 ++ opt_to_list g2 ++ opt_to_list g3 ++ opt_to_list g4 ++ gs,
   fx).

(** [event.type.startsWith('key.')]. *)
Definition is_key (t : InputEventType) : bool :=
  match t with key_down | key_up | key_press => true | _ => false end.

(** [processEvent].  The two registries are the caller's: [handleKeyEvent]
    and [handleEvent] stand for whatever shortcuts and interaction
    handlers are registered with them. *)
Definition processEvent (handleKeyEvent handleEvent : InputEvent -> bool)
    (event : InputEvent) (st : state) : state * list Effect * bool :=
  if negb (enabled st) then (st, [], false)
  else
    let st1 := addToHistory event st in
    let handled :=
      if is_key (ev_type event) then handleKeyEvent event else false in
    let '(st2, gestures, fx) := recognizeGestures (recentEvents st1) st1 in
    let handled' := if handled then true else handleEvent event in
    (st2,
     Emit (input_received event) :: fx
       ++ map (fun g => Emit (gesture_recognized g)) gestures,
     handled').

(** The long-press deadline passing (the timer set by the recognizer). *)
Definition longPressTimeout (st : state) : state :=
  {| enabled := enabled st;
     currentContext := currentContext st;
     recentEvents := recentEvents st;
     eventHistory := eventHistory st;
     tap := tap st; drag := drag st; swipe := swipe st;
     longPress := LongPress.timeout (longPress st);
     gestureDefinitions := gestureDefinitions st |}.

Definition registerGesture (id : string) (type : GestureType)
    (recognizer : list (list InputEvent) -> option GestureEvent)
    (context : option InputContext) (enabled_opt : option bool) (st : state)
    : state :=
  {| enabled := enabled st;
     currentContext := currentContext st;
     recentEvents := recentEvents st;
     eventHistory := eventHistory st;
     tap := tap st; drag := drag st; swipe := swipe st;
     longPress := longPress st;
     gestureDefinitions :=
       JSMap.set id
         {| gd_id := id; gd_type := type; gd_recognizer := recognizer;
            gd_calls := []; gd_context := context;
            gd_enabled := default true enabled_opt |}
         (gestureDefinitions st) |}.

(** The gestures of one type among the effects of a call. *)
Definition recognized (ty : GestureType) (fx : list Effect)
    : list GestureState :=
  omap (fun e => match e with
                 | Emit (gesture_recognized g) =>
                     if bool_decide (g_type g = ty) then Some (g_state g) else None
                 | _ => None
                 end) fx.

(** Feeding events one after the other; [deadline] tells, for each event,
    whether the long-press deadline passed before it. *)
Fixpoint feed (handleKeyEvent handleEvent : InputEvent -> bool)
    (events : list (bool * InputEvent)) (st : state) : state * list Effect :=
  match events with
  | [] => (st, [])
  | (deadline, e) :: rest =>
      let st0 := if deadline then longPressTimeout st else st in
      let '(st1, fx, _) := processEvent handleKeyEvent handleEvent e st0 in
      let '(st2, fx') := feed handleKeyEvent handleEvent rest st1 in
      (st2, fx ++ fx')
  end.

End InputSystem.

End Input.

(* ------------------------------------------------------------------ *)
(** ** Application registry, lifecycle manager and bridge *)
(* ------------------------------------------------------------------ *)

Module App.

(** *** Types (application.types.ts) *)

Record ApplicationMetadata := {
  id : string;
  name : string;
  version : string;
  description : option string;
  keywords : option (list string)
}.

Record ApplicationCapabilities := {
  supportsMultipleInstances : option bool;
  supportsSuspend : option bool;
  supportsBackgroundMode : option bool
}.

Record LaunchOptions := {
  singleton : option bool;
  autoStart : option bool;
  hidden : option bool
}.

(** [windowDefaults] is read by [createWindowForApp] only, which is not
    part of the embedding. *)
Record ApplicationManifest := {
  metadata : ApplicationMetadata;
  capabilities : ApplicationCapabilities;
  launchOptions : option LaunchOptions
}.

Record ApplicationContext := {
  args : option (list string);
  workingDirectory : option string
}.

(** What awaiting a lifecycle hook ends in. *)
Inductive HookResult := returns | throws (error : string).

Record ApplicationComponent := {
  onMount : option (ApplicationContext -> HookResult);
  onUnmount : option HookResult;
  onSuspend : option HookResult;
  onResume : option HookResult
}.

Inductive ApplicationState :=
| unloaded | loading | running | suspended | stopping | crashed.

#[global] Instance ApplicationState_eq_dec : EqDecision ApplicationState.
Proof. solve_decision. Defined.

Record ApplicationInstance := {
  i_id : string;
  i_appId : string;
  i_state : ApplicationState;
  windowIds : list string;
  startTime : Z;
  lastActiveTime : Z;
  context : ApplicationContext
}.

Inductive ApplicationEvent :=
| ev_register (appId : string) (manifest : ApplicationManifest)
| ev_unregister (appId : string)
| ev_launch (appId instanceId : string) (context : ApplicationContext)
| ev_terminate (instanceId : string) (reason : option string)
| ev_suspend (instanceId : string)
| ev_resume (instanceId : string)
| ev_stateChange (instanceId : string) (from to : ApplicationState)
| ev_error (instanceId : string) (error : string).

(** What a call does besides changing the state, in order.
    [ConsoleError message] is [console.error(message, error)]. *)
Inductive Effect :=
| Emit (e : ApplicationEvent)
| ConsoleError (message : string).

(** A call either returns or throws. *)
Inductive outcome (A : Type) :=
| Returned (a : A)
| Thrown (error : string).
Arguments Returned {A} a.
Arguments Thrown {A} error.

(** *** application-registry.ts *)

Module Registry.

Record RegisteredApplication := {
  manifest : ApplicationManifest;
  component : ApplicationComponent;
  registeredAt : Z
}.

Definition t := JSMap.t RegisteredApplication.

Definition createApplicationRegistry : t := [].

Definition register (m : ApplicationManifest) (c : ApplicationComponent)
    (now : Z) (applications : t) : outcome (t * list Effect) :=
  let id := id (metadata m) in
  if JSMap.has id applications then
    Thrown ("Application with id " ++ JS.dq ++ id ++ JS.dq ++ " is already registered")%string
  else
    Returned
      (JSMap.set id {| manifest := m; component := c; registeredAt := now |}
         applications,
       [Emit (ev_register id m)]).

Definition unregister (appId : string) (applications : t)
    : t * list Effect * bool :=
  match JSMap.get appId applications with
  | None => (applications, [], false)
  | Some _ => (JSMap.delete appId applications, [Emit (ev_unregister appId)], true)
  end.

Definition getApplication (appId : string) (applications : t)
    : option RegisteredApplication :=
  JSMap.get appId applications.

Definition hasApplication (appId : string) (applications : t) : bool :=
  JSMap.has appId applications.

End Registry.

(** *** application-lifecycle.ts *)

Module Lifecycle.

Record t := {
  instances : JSMap.t ApplicationInstance;
  messageHandlers : list string        (* the instances with a handler *)
}.

Definition createApplicationLifecycleManager : t :=
  {| instances := []; messageHandlers := [] |}.

Definition with_instances (f : JSMap.t ApplicationInstance -> JSMap.t ApplicationInstance)
    (L : t) : t :=
  {| instances := f (instances L); messageHandlers := messageHandlers L |}.

Definition set_state (s : ApplicationState) (i : ApplicationInstance) :=
  {| i_id := i_id i; i_appId := i_appId i; i_state := s;
     windowIds := windowIds i; startTime := startTime i;
     lastActiveTime := lastActiveTime i; context := context i |}.

Definition set_lastActiveTime (now : Z) (i : ApplicationInstance) :=
  {| i_id := i_id i; i_appId := i_appId i; i_state := i_state i;
     windowIds := windowIds i; startTime := startTime i;
     lastActiveTime := now; context := context i |}.

Definition set_windowIds (ws : list string) (i : ApplicationInstance) :=
  {| i_id := i_id i; i_appId := i_appId i; i_state := i_state i;
     windowIds := ws; startTime := startTime i;
     lastActiveTime := lastActiveTime i; context := context i |}.

Definition transitionState (instanceId : string) (from to : ApplicationState)
    (L : t) : t * list Effect :=
  match JSMap.get instanceId (instances L) with
  | Some instance =>
      if bool_decide (i_state instance = from) then
        (with_instances (JSMap.update instanceId (set_state to)) L,
         [Emit (ev_stateChange instanceId from to)])
      else (L, [])
  | None => (L, [])
  end.

Definition focusInstance (instanceId : string) (now : Z) (L : t) : t :=
  with_instances (JSMap.update instanceId (set_lastActiveTime now)) L.

Definition getInstance (instanceId : string) (L : t) : option ApplicationInstance :=
  JSMap.get instanceId (instances L).

Definition getAllInstances (L : t) : list ApplicationInstance :=
  JSMap.values (instances L).

Definition getInstancesByAppId (appId : string) (L : t) : list ApplicationInstance :=
  filter (fun i => i_appId i = appId) (JSMap.values (instances L)).

(** [Array.from(instances.values()).find(...)]: the first in insertion
    order. *)
Definition findInstanceByAppId (appId : string) (L : t)
    : option ApplicationInstance :=
  head (filter (fun i => i_appId i = appId) (JSMap.values (instances L))).

(** The object a variable refers to, as it is in the store now. *)
Definition deref (i : ApplicationInstance) (L : t) : ApplicationInstance :=
  match JSMap.get (i_id i) (instances L) with
  | Some i' => i'
  | None => i
  end.

(** [launch].  [now] is the clock, [suffix] the
    [`${Date.now()}-${Math.random()...}`] part of the new identity. *)
Definition launch (registry : Registry.t) (appId : string)
    (ctx : ApplicationContext) (now : Z) (suffix : string) (L : t)
    : outcome (t * list Effect * ApplicationInstance) :=
  match Registry.getApplication appId registry with
  | None => Thrown ("Application " ++ JS.dq ++ appId ++ JS.dq ++ " not found in registry")%string
  | Some app =>
      let existing :=
        if JS.truthyB (launchOptions (Registry.manifest app) ≫= singleton)
        then findInstanceByAppId appId L else None in
      match existing with
      | Some existingInstance =>
          let L' := focusInstance (i_id existingInstance) now L in
          Returned (L', [], deref existingInstance L')
      | None =>
          let instanceId := (appId ++ "-" ++ suffix)%string in
          let instance :=
            {| i_id := instanceId; i_appId := appId; i_state := loading;
               windowIds := []; startTime := now; lastActiveTime := now;
               context := ctx |} in
          let L1 := with_instances (JSMap.set instanceId instance) L in
          let fx1 := [Emit (ev_launch appId instanceId ctx)] in
          let '(L2, fx2) := transitionState instanceId loading running L1 in
          let '(L3, fx3) :=
            match onMount (Registry.component app) with
            | Some hook =>
                match hook ctx with
                | returns => (L2, [])
                | throws error =>
                    let '(L3, fx) := transitionState instanceId running crashed L2 in
                    (L3,
                     ConsoleError ("Error mounting application " ++ appId ++ ":")%string
                       :: fx ++ [Emit (ev_error instanceId error)])
                end
            | None => (L2, [])
            end in
          Returned (L3, fx1 ++ fx2 ++ fx3, deref instance L3)
      end
  end.

Definition terminate (registry : Registry.t) (instanceId : string)
    (reason : option string) (L : t) : t * list Effect :=
  match JSMap.get instanceId (instances L) with
  | None => (L, [])
  | Some instance =>
      let app := Registry.getApplication (i_appId instance) registry in
      let '(L1, fx1) := transitionState instanceId (i_state instance) stopping L in
      let fx2 :=
        match app ≫= (fun a => onUnmount (Registry.component a)) with
        | Some (throws _) =>
            [ConsoleError
               ("Error unmounting application " ++ i_appId instance ++ ":")%string]
        | _ => []
        end in
      ({| instances := JSMap.delete instanceId (instances L1);
          messageHandlers :=
            filter (fun h => h ≠ instanceId) (messageHandlers L1) |},
       fx1 ++ fx2 ++ [Emit (ev_terminate instanceId reason)])
  end.

Definition suspend (registry : Registry.t) (instanceId : string) (L : t)
    : t * list Effect :=
  match JSMap.get instanceId (instances L) with
  | None => (L, [])
  | Some instance =>
      if bool_decide (i_state instance = running) then
        let app := Registry.getApplication (i_appId instance) registry in
        let '(L1, fx1) := transitionState instanceId running suspended L in
        let fx2 :=
          match app ≫= (fun a => onSuspend (Registry.component a)) with
          | Some (throws _) =>
              [ConsoleError
                 ("Error suspending application " ++ i_appId instance ++ ":")%string]
          | _ => []
          end in
        (L1, fx1 ++ fx2 ++ [Emit (ev_suspend instanceId)])
      else (L, [])
  end.

Definition resume (registry : Registry.t) (instanceId : string) (now : Z)
    (L : t) : t * list Effect :=
  match JSMap.get instanceId (instances L) with
  | None => (L, [])
  | Some instance =>
      if bool_decide (i_state instance = suspended) then
        let app := Registry.getApplication (i_appId instance) registry in
        let '(L1, fx1) := transitionState instanceId suspended running L in
        let fx2 :=
          match app ≫= (fun a => onResume (Registry.component a)) with
          | Some (throws _) =>
              [ConsoleError
                 ("Error resuming application " ++ i_appId instance ++ ":")%string]
          | _ => []
          end in
        (with_instances (JSMap.update instanceId (set_lastActiveTime now)) L1,
         fx1 ++ fx2 ++ [Emit (ev_resume instanceId)])
      else (L, [])
  end.

Definition addWindowToInstance (instanceId windowId : string) (now : Z)
    (L : t) : t :=
  match JSMap.get instanceId (instances L) with
  | Some instance =>
      if bool_decide (windowId ∈ windowIds instance) then L
      else
        with_instances
          (JSMap.update instanceId
             (fun i => set_lastActiveTime now
                         (set_windowIds (windowIds i ++ [windowId]) i))) L
  | None => L
  end.

(** [removeWindowFromInstance].  The call of [terminate] is not awaited
    by the source; the embedding runs it to completion in place: what is
    returned is the manager once the continuations of [terminate] have
    run, no other call coming in between (until then the instance is
    still stored, in state [stopping]). *)
Definition removeWindowFromInstance (registry : Registry.t)
    (instanceId windowId : string) (L : t) : t * list Effect :=
  match JSMap.get instanceId (instances L) with
  | Some instance =>
      let remaining := filter (fun id => id ≠ windowId) (windowIds instance) in
      let L1 := with_instances (JSMap.update instanceId (set_windowIds remaining)) L in
      if (length remaining =? 0)%nat then
        let app := Registry.getApplication (i_appId instance) registry in
        if negb (JS.truthyB
                   (app ≫= (fun a =>
                      supportsBackgroundMode (capabilities (Registry.manifest a)))))
        then terminate registry instanceId (Some "No windows remaining") L1
        else (L1, [])
      else (L1, [])
  | None => (L, [])
  end.

Definition registerMessageHandler (instanceId : string) (L : t) : t :=
  {| instances := instances L;
     messageHandlers :=
       if bool_decide (instanceId ∈ messageHandlers L) then messageHandlers L
       else messageHandlers L ++ [instanceId] |}.

(** The terminations among the effects of a call: the [terminate] events
    of one instance, with their reasons. *)
Definition terminations (instanceId : string) (fx : list Effect)
    : list (option string) :=
  omap (fun e => match e with
                 | Emit (ev_terminate i reason) =>
                     if bool_decide (i = instanceId) then Some reason else None
                 | _ => None
                 end) fx.

Definition launches (fx : list Effect) : list string :=
  omap (fun e => match e with
                 | Emit (ev_launch _ i _) => Some i
                 | _ => None
                 end) fx.

End Lifecycle.

(** *** window-application-bridge.ts *)

Module Bridge.

(** [windowToInstance], the bridge's only state. *)
Definition t := gmap string string.

(** The listener of the window manager's [destroy] event. *)
Definition handleWindowDestroy (registry : Registry.t) (windowId : string)
    (windowToInstance : t) (L : Lifecycle.t)
    : t * Lifecycle.t * list Effect :=
  match windowToInstance !! windowId with
  | Some instanceId =>
      if JS.truthy (Some instanceId) then
        let '(L', fx) :=
          Lifecycle.removeWindowFromInstance registry instanceId windowId L in
        (delete windowId windowToInstance, L', fx)
      else (windowToInstance, L, [])
  | None => (windowToInstance, L, [])
  end.

(** The listener of the [create] event; [instanceId] is
    [initialState.metadata?.instanceId]. *)
Definition handleWindowCreate (windowId : string) (instanceId : option string)
    (now : Z) (windowToInstance : t) (L : Lifecycle.t) : t * Lifecycle.t :=
  match instanceId with
  | Some i =>
      if JS.truthy (Some i) then
        (<[windowId := i]> windowToInstance,
         Lifecycle.addWindowToInstance i windowId now L)
      else (windowToInstance, L)
  | None => (windowToInstance, L)
  end.

End Bridge.

End App.

(* ------------------------------------------------------------------ *)
(** ** JavaScript values and JSON *)
(* ------------------------------------------------------------------ *)

Module Json.

(** The JavaScript values the window manager stores and reads back.  A
    finite number [VNum m e] is the decimal [m * 10^e]; the integers of
    the embedding are [VNum n 0].  [VNaN], [VInfinity] and [VNegZero] are
    the numbers [NaN], [Infinity] or [-Infinity] and [-0]; [VDate iso] is
    a valid [Date] object, [iso] being its [toISOString()].  An object is
    the list of its properties in order; when a key is repeated (as a
    JSON text may do) the last one is the property's value. *)
#[local] Unset Elimination Schemes.
Inductive value :=
| VUndefined
| VNull
| VBool (b : bool)
| VNum (mantissa exp10 : Z)
| VStr (s : string)
| VArr (items : list value)
| VObj (props : list (string * value))
| VFun (name : string)
| VNaN
| VInfinity (negative : bool)
| VNegZero
| VDate (iso : string).
#[local] Set Elimination Schemes.

Definition num (n : Z) : value := VNum n 0.

(** The integer a number is, when it is one. *)
Definition to_Z (mantissa exp10 : Z) : option Z :=
  if 0 <=? exp10 then Some (mantissa * 10 ^ exp10)
  else if mantissa mod 10 ^ (- exp10) =? 0
       then Some (mantissa / 10 ^ (- exp10)) else None.

(** *** Property access *)

(** The value of property [k] of an object given by its properties: the
    last one of that key, [undefined] when there is none. *)
Definition member (k : string) (props : list (string * value)) : value :=
  fold_left (fun found kv => if String.eqb k (fst kv) then snd kv else found)
    props VUndefined.

(** [v[i]] for an array index. *)
Definition item (i : nat) (items : list value) : value :=
  nth i items VUndefined.

(** *** JSON.stringify *)

(** What [JSON.stringify] leaves out of an object, and writes as [null]
    in an array. *)
Definition is_omitted (v : value) : bool :=
  match v with
  | VUndefined | VFun _ => true
  | _ => false
  end.

(** The value a JSON text of [v] denotes: [JSON.stringify]'s treatment of
    [undefined] and functions, of the numbers that are not finite (written
    [null]), of [-0] (written [0]) and of dates (written as the string
    their [toJSON] returns), applied throughout. *)
Fixpoint jsonify (v : value) : value :=
  match v with
  | VArr items =>
      VArr (map (fun x => if is_omitted x then VNull else jsonify x) items)
  | VObj props =>
      VObj ((fix go (ps : list (string * value)) :=
               match ps with
               | [] => []
               | (k, x) :: rest =>
                   if is_omitted x then go rest else (k, jsonify x) :: go rest
               end) props)
  | VNaN | VInfinity _ => VNull
  | VNegZero => VNum 0 0
  | VDate iso => VStr iso
  | _ => v
  end.

(** The values that JSON texts denote: [null], booleans, finite numbers
    other than [-0], strings, and arrays and objects of such values, at
    any depth. *)
Fixpoint json_safe (v : value) : bool :=
  match v with
  | VUndefined | VFun _ | VNaN | VInfinity _ | VNegZero | VDate _ => false
  | VArr items => forallb json_safe items
  | VObj props => forallb (fun kv => json_safe (snd kv)) props
  | _ => true
  end.

Definition chars (s : string) : list ascii := list_ascii_of_string s.

Definition dquote : ascii := "034"%char.
Definition backslash : ascii := "\"%char.

Definition hex_digit (n : N) : ascii :=
  if (n <? 10)%N then ascii_of_N (48 + n) else ascii_of_N (87 + n).

(** One character of a string literal. *)
Definition escape_char (c : ascii) : list ascii :=
  if Ascii.eqb c dquote then [backslash; dquote]
  else if Ascii.eqb c backslash then [backslash; backslash]
  else if Ascii.eqb c "008"%char then [backslash; "b"%char]
  else if Ascii.eqb c "009"%char then [backslash; "t"%char]
  else if Ascii.eqb c "010"%char then [backslash; "n"%char]
  else if Ascii.eqb c "012"%char then [backslash; "f"%char]
  else if Ascii.eqb c "013"%char then [backslash; "r"%char]
  else if (N_of_ascii c <? 32)%N then
    [backslash; "u"%char; "0"%char; "0"%char;
     hex_digit (N_of_ascii c / 16); hex_digit (N_of_ascii c mod 16)]
  else [c].

Fixpoint escape (s : string) : list ascii :=
  match s with
  | EmptyString => []
  | String c rest => escape_char c ++ escape rest
  end.

Definition print_string (s : string) : list ascii :=
  dquote :: escape s ++ [dquote].

Fixpoint uint_chars (d : Decimal.uint) : list ascii :=
  match d with
  | Decimal.Nil => []
  | Decimal.D0 d => "0"%char :: uint_chars d
  | Decimal.D1 d => "1"%char :: uint_chars d
  | Decimal.D2 d => "2"%char :: uint_chars d
  | Decimal.D3 d => "3"%char :: uint_chars d
  | Decimal.D4 d => "4"%char :: uint_chars d
  | Decimal.D5 d => "5"%char :: uint_chars d
  | Decimal.D6 d => "6"%char :: uint_chars d
  | Decimal.D7 d => "7"%char :: uint_chars d
  | Decimal.D8 d => "8"%char :: uint_chars d
  | Decimal.D9 d => "9"%char :: uint_chars d
  end.

Definition int_chars (z : Z) : list ascii :=
  match Z.to_int z with
  | Decimal.Pos d => uint_chars d
  | Decimal.Neg d => "-"%char :: uint_chars d
  end.

(** [a,b,c]. *)
Fixpoint join (parts : list (list ascii)) : list ascii :=
  match parts with
  | [] => []
  | p :: rest =>
      match rest with
      | [] => p
      | _ => p ++ ","%char :: join rest
      end
  end.

(** The text of a value that [jsonify] gives ([undefined] and functions
    are written [null] inside an array).  A number is written with its
    mantissa and exponent as they are, not in the shortest form that
    [JSON.stringify] chooses: the text denotes the same number. *)
Fixpoint print (v : value) : list ascii :=
  match v with
  | VUndefined | VNull | VFun _ | VNaN | VInfinity _ => chars "null"
  | VNegZero => chars "0"
  | VDate iso => print_string iso
  | VBool true => chars "true"
  | VBool false => chars "false"
  | VNum m e =>
      int_chars m ++ (if e =? 0 then [] else "e"%char :: int_chars e)
  | VStr s => print_string s
  | VArr items => "["%char :: join (map print items) ++ ["]"%char]
  | VObj props =>
      "{"%char
        :: join (map (fun kv => print_string (fst kv) ++ ":"%char :: print (snd kv))
                   props)
        ++ ["}"%char]
  end.

(** [JSON.stringify(v)], for [v] other than [undefined] or a function. *)
Definition JSON_stringify (v : value) : string :=
  string_of_list_ascii (print (jsonify v)).

(** *** JSON.parse *)

Definition is_ws (c : ascii) : bool :=
  Ascii.eqb c " "%char || Ascii.eqb c "009"%char
  || Ascii.eqb c "010"%char || Ascii.eqb c "013"%char.

Fixpoint skip_ws (s : list ascii) : list ascii :=
  match s with
  | c :: r => if is_ws c then skip_ws r else s
  | [] => []
  end.

(** [s] without the prefix [lit], when it starts with it. *)
Fixpoint strip (lit s : list ascii) : option (list ascii) :=
  match lit with
  | [] => Some s
  | c :: lit' =>
      match s with
      | x :: r => if Ascii.eqb x c then strip lit' r else None
      | [] => None
      end
  end.

Definition digit_of (c : ascii) : option (Decimal.uint -> Decimal.uint) :=
  if Ascii.eqb c "0"%char then Some Decimal.D0
  else if Ascii.eqb c "1"%char then Some Decimal.D1
  else if Ascii.eqb c "2"%char then Some Decimal.D2
  else if Ascii.eqb c "3"%char then Some Decimal.D3
  else if Ascii.eqb c "4"%char then Some Decimal.D4
  else if Ascii.eqb c "5"%char then Some Decimal.D5
  else if Ascii.eqb c "6"%char then Some Decimal.D6
  else if Ascii.eqb c "7"%char then Some Decimal.D7
  else if Ascii.eqb c "8"%char then Some Decimal.D8
  else if Ascii.eqb c "9"%char then Some Decimal.D9
  else None.

(** The longest run of digits at the head of [s]. *)
Fixpoint take_digits (s : list ascii) : Decimal.uint * list ascii :=
  match s with
  | c :: r =>
      match digit_of c with
      | Some D => let '(d, r') := take_digits r in (D d, r')
      | None => (Decimal.Nil, s)
      end
  | [] => (Decimal.Nil, [])
  end.

(** [. digits], when present. *)
Definition parse_fraction (s : list ascii)
    : option (Decimal.uint * list ascii) :=
  match s with
  | c :: r =>
      if Ascii.eqb c "."%char then
        match take_digits r with
        | (Decimal.Nil, _) => None
        | (f, r') => Some (f, r')
        end
      else Some (Decimal.Nil, s)
  | [] => Some (Decimal.Nil, s)
  end.

(** [e], [E], an optional sign and digits, when present. *)
Definition parse_exponent (s : list ascii) : option (Z * list ascii) :=
  match s with
  | c :: r =>
      if Ascii.eqb c "e"%char || Ascii.eqb c "E"%char then
        let '(neg, r1) :=
          match r with
          | x :: r' =>
              if Ascii.eqb x "-"%char then (true, r')
              else if Ascii.eqb x "+"%char then (false, r')
              else (false, r)
          | [] => (false, r)
          end in
        match take_digits r1 with
        | (Decimal.Nil, _) => None
        | (d, r2) => Some (if neg then - Z.of_uint d else Z.of_uint d, r2)
        end
      else Some (0, s)
  | [] => Some (0, s)
  end.

(** A number: [-? int frac? exp?], the integer part without a
    superfluous leading zero. *)
Definition parse_number (s : list ascii) : option (value * list ascii) :=
  let '(neg, s1) :=
    match s with
    | c :: r => if Ascii.eqb c "-"%char then (true, r) else (false, s)
    | [] => (false, s)
    end in
  let '(intd, s2) := take_digits s1 in
  if negb (Decimal.uint_beq (Decimal.unorm intd) intd) then None
  else
    match parse_fraction s2 with
    | None => None
    | Some (fracd, s3) =>
        match parse_exponent s3 with
        | None => None
        | Some (e, s4) =>
            let m := Z.of_uint (Decimal.app intd fracd) in
            Some (VNum (if neg then - m else m)
                       (e - Z.of_nat (Decimal.nb_digits fracd)), s4)
        end
    end.

Definition hex_val (c : ascii) : option N :=
  let n := N_of_ascii c in
  if (48 <=? n)%N && (n <=? 57)%N then Some (n - 48)%N
  else if (97 <=? n)%N && (n <=? 102)%N then Some (n - 87)%N
  else if (65 <=? n)%N && (n <=? 70)%N then Some (n - 55)%N
  else None.

Definition hex4 (a b c d : ascii) : option N :=
  match hex_val a, hex_val b, hex_val c, hex_val d with
  | Some x, Some y, Some z, Some w => Some (((x * 16 + y) * 16 + z) * 16 + w)%N
  | _, _, _, _ => None
  end.

(** The bytes of a code unit given by [\uXXXX]: strings are byte strings
    holding UTF-8 text. *)
Definition utf8 (cp : N) : list ascii :=
  if (cp <? 128)%N then [ascii_of_N cp]
  else if (cp <? 2048)%N then
    [ascii_of_N (192 + cp / 64); ascii_of_N (128 + cp mod 64)]
  else
    [ascii_of_N (224 + cp / 4096); ascii_of_N (128 + (cp / 64) mod 64);
     ascii_of_N (128 + cp mod 64)].

Definition simple_escape (c : ascii) : option ascii :=
  if Ascii.eqb c dquote then Some dquote
  else if Ascii.eqb c backslash then Some backslash
  else if Ascii.eqb c "/"%char then Some "/"%char
  else if Ascii.eqb c "b"%char then Some "008"%char
  else if Ascii.eqb c "f"%char then Some "012"%char
  else if Ascii.eqb c "n"%char then Some "010"%char
  else if Ascii.eqb c "r"%char then Some "013"%char
  else if Ascii.eqb c "t"%char then Some "009"%char
  else None.

Fixpoint prepend (cs : list ascii) (s : string) : string :=
  match cs with
  | [] => s
  | c :: cs' => String c (prepend cs' s)
  end.

(** The characters of a string literal after its opening quote, up to
    and including the closing one. *)
Fixpoint parse_string_body (s : list ascii) : option (string * list ascii) :=
  match s with
  | [] => None
  | c :: r =>
      if Ascii.eqb c dquote then Some (EmptyString, r)
      else if Ascii.eqb c backslash then
        match r with
        | e :: r' =>
            if Ascii.eqb e "u"%char then
              match r' with
              | h1 :: h2 :: h3 :: h4 :: r'' =>
                  match hex4 h1 h2 h3 h4 with
                  | Some cp =>
                      match parse_string_body r'' with
                      | Some (str, rest) => Some (prepend (utf8 cp) str, rest)
                      | None => None
                      end
                  | None => None
                  end
              | _ => None
              end
            else
              match simple_escape e with
              | Some ch =>
                  match parse_string_body r' with
                  | Some (str, rest) => Some (String ch str, rest)
                  | None => None
                  end
              | None => None
              end
        | [] => None
        end
      else if (N_of_ascii c <? 32)%N then None
      else
        match parse_string_body r with
        | Some (str, rest) => Some (String c str, rest)
        | None => None
        end
  end.

Definition expect (c : ascii) (s : list ascii) : option (list ascii) :=
  match s with
  | x :: r => if Ascii.eqb x c then Some r else None
  | [] => None
  end.

(** A value, after optional white space; [fuel] bounds the nesting. *)
Fixpoint parse_value (fuel : nat) (s : list ascii) {struct fuel}
    : option (value * list ascii) :=
  match fuel with
  | O => None
  | S f =>
      match skip_ws s with
      | [] => None
      | c :: r =>
          if Ascii.eqb c "{"%char then
            match expect "}"%char (skip_ws r) with
            | Some r' => Some (VObj [], r')
            | None =>
                match parse_members f r with
                | Some (ms, r') => Some (VObj ms, r')
                | None => None
                end
            end
          else if Ascii.eqb c "["%char then
            match expect "]"%char (skip_ws r) with
            | Some r' => Some (VArr [], r')
            | None =>
                match parse_elements f r with
                | Some (vs, r') => Some (VArr vs, r')
                | None => None
                end
            end
          else if Ascii.eqb c dquote then
            match parse_string_body r with
            | Some (str, r') => Some (VStr str, r')
            | None => None
            end
          else if Ascii.eqb c "t"%char then
            option_map (pair (VBool true)) (strip (chars "rue") r)
          else if Ascii.eqb c "f"%char then
            option_map (pair (VBool false)) (strip (chars "alse") r)
          else if Ascii.eqb c "n"%char then
            option_map (pair VNull) (strip (chars "ull") r)
          else parse_number (c :: r)
      end
  end
(** The elements of an array and its closing bracket. *)
with parse_elements (fuel : nat) (s : list ascii) {struct fuel}
    : option (list value * list ascii) :=
  match fuel with
  | O => None
  | S f =>
      match parse_value f s with
      | Some (v, r) =>
          match skip_ws r with
          | c :: r' =>
              if Ascii.eqb c ","%char then
                match parse_elements f r' with
                | Some (vs, r'') => Some (v :: vs, r'')
                | None => None
                end
              else if Ascii.eqb c "]"%char then Some ([v], r')
              else None
          | [] => None
          end
      | None => None
      end
  end
(** The members of an object and its closing brace. *)
with parse_members (fuel : nat) (s : list ascii) {struct fuel}
    : option (list (string * value) * list ascii) :=
  match fuel with
  | O => None
  | S f =>
      match expect dquote (skip_ws s) with
      | Some r =>
          match parse_string_body r with
          | Some (k, r1) =>
              match expect ":"%char (skip_ws r1) with
              | Some r2 =>
                  match parse_value f r2 with
                  | Some (v, r3) =>
                      match skip_ws r3 with
                      | c :: r4 =>
                          if Ascii.eqb c ","%char then
                            match parse_members f r4 with
                            | Some (ms, r5) => Some ((k, v) :: ms, r5)
                            | None => None
                            end
                          else if Ascii.eqb c "}"%char then Some ([(k, v)], r4)
                          else None
                      | [] => None
                      end
                  | None => None
                  end
              | None => None
              end
          | None => None
          end
      | None => None
      end
  end.

(** [JSON.parse(text)]: [None] is the [SyntaxError]. *)
Definition JSON_parse (text : string) : option value :=
  let s := chars text in
  match parse_value (2 * length s + 2) s with
  | Some (v, rest) =>
      match skip_ws rest with
      | [] => Some v
      | _ => None
      end
  | None => None
  end.

End Json.

(* ------------------------------------------------------------------ *)
(** ** Window manager (create-window-manager.ts) *)
(* ------------------------------------------------------------------ *)

Module WM.

(** *** Types (window.types.ts) *)

Record WindowPosition := { x : Z; y : Z }.
Record WindowSize := { width : Z; height : Z }.
Record WindowBounds := { position : WindowPosition; size : WindowSize }.

(** [Partial<WindowBounds>]. *)
Record PartialBounds := {
  p_position : option WindowPosition;
  p_size : option WindowSize
}.

(** [metadata] is a [Record<string, unknown>]: an object of arbitrary
    values.  The optional [title] is never set by the manager. *)
Record WindowState := {
  id : string;
  bounds : WindowBounds;
  zIndex : Z;
  isFocused : bool;
  isMinimized : bool;
  isMaximized : bool;
  isVisible : bool;
  appId : string;
  metadata : option (list (string * Json.value))
}.

Record WindowConstraints := {
  minWidth : option Z;
  minHeight : option Z;
  maxWidth : option Z;
  maxHeight : option Z;
  canResize : option bool;
  canMove : option bool;
  canMinimize : option bool;
  canMaximize : option bool;
  canClose : option bool
}.

Record WindowManagerState := {
  windows : JSMap.t WindowState;
  windowOrder : list string;            (* z-order, last = topmost *)
  focusedWindowId : option string;
  nextZIndex : Z
}.

Inductive WindowEvent :=
| ev_create (windowId : string) (initialState : WindowState)
| ev_destroy (windowId : string)
| ev_focus (windowId : string)
| ev_blur (windowId : string)
| ev_move (windowId : string) (position : WindowPosition)
| ev_resize (windowId : string) (size : WindowSize)
| ev_minimize (windowId : string)
| ev_restore (windowId : string)
| ev_maximize (windowId : string)
| ev_show (windowId : string)
| ev_hide (windowId : string)
| ev_updateMetadata (windowId : string) (metadata : list (string * Json.value)).

Record Viewport := { vp_width : Z; vp_height : Z }.

(** The private variables of one window manager.  [timers] are the
    pending [setTimeout(() => api.focusWindow(id), 0)] callbacks, oldest
    first. *)
Record Manager := {
  state : WindowManagerState;
  windowConstraints : gmap string WindowConstraints;
  viewport : Viewport;
  timers : list string
}.

Definition createWindowManager : Manager :=
  {| state := {| windows := []; windowOrder := []; focusedWindowId := None;
                 nextZIndex := 1 |};
     windowConstraints := ∅;
     viewport := {| vp_width := 0; vp_height := 0 |};
     timers := [] |}.

(** *** Field updates *)

Definition set_zIndex (z : Z) (w : WindowState) : WindowState :=
  {| id := id w; bounds := bounds w; zIndex := z; isFocused := isFocused w;
     isMinimized := isMinimized w; isMaximized := isMaximized w;
     isVisible := isVisible w; appId := appId w; metadata := metadata w |}.

Definition set_isFocused (b : bool) (w : WindowState) : WindowState :=
  {| id := id w; bounds := bounds w; zIndex := zIndex w; isFocused := b;
     isMinimized := isMinimized w; isMaximized := isMaximized w;
     isVisible := isVisible w; appId := appId w; metadata := metadata w |}.

Definition set_isMinimized (b : bool) (w : WindowState) : WindowState :=
  {| id := id w; bounds := bounds w; zIndex := zIndex w; isFocused := isFocused w;
     isMinimized := b; isMaximized := isMaximized w;
     isVisible := isVisible w; appId := appId w; metadata := metadata w |}.

Definition set_isMaximized (b : bool) (w : WindowState) : WindowState :=
  {| id := id w; bounds := bounds w; zIndex := zIndex w; isFocused := isFocused w;
     isMinimized := isMinimized w; isMaximized := b;
     isVisible := isVisible w; appId := appId w; metadata := metadata w |}.

Definition set_isVisible (b : bool) (w : WindowState) : WindowState :=
  {| id := id w; bounds := bounds w; zIndex := zIndex w; isFocused := isFocused w;
     isMinimized := isMinimized w; isMaximized := isMaximized w;
     isVisible := b; appId := appId w; metadata := metadata w |}.

Definition set_bounds (b : WindowBounds) (w : WindowState) : WindowState :=
  {| id := id w; bounds := b; zIndex := zIndex w; isFocused := isFocused w;
     isMinimized := isMinimized w; isMaximized := isMaximized w;
     isVisible := isVisible w; appId := appId w; metadata := metadata w |}.

Definition with_windows (f : JSMap.t WindowState -> JSMap.t WindowState)
    (st : WindowManagerState) : WindowManagerState :=
  {| windows := f (windows st); windowOrder := windowOrder st;
     focusedWindowId := focusedWindowId st; nextZIndex := nextZIndex st |}.

Definition with_focusedWindowId (f : option string)
    (st : WindowManagerState) : WindowManagerState :=
  {| windows := windows st; windowOrder := windowOrder st;
     focusedWindowId := f; nextZIndex := nextZIndex st |}.

Definition with_state (st : WindowManagerState) (m : Manager) : Manager :=
  {| state := st; windowConstraints := windowConstraints m;
     viewport := viewport m; timers := timers m |}.

Definition with_timers (ts : list string) (m : Manager) : Manager :=
  {| state := state m; windowConstraints := windowConstraints m;
     viewport := viewport m; timers := ts |}.

Definition with_constraints (c : gmap string WindowConstraints) (m : Manager)
    : Manager :=
  {| state := state m; windowConstraints := c;
     viewport := viewport m; timers := timers m |}.

(** *** Private helpers *)

(** The [forEach] of [updateZIndices], from index [from - 1] on. *)
Fixpoint renumber (from : Z) (order : list string) (ws : JSMap.t WindowState)
    : JSMap.t WindowState :=
  match order with
  | [] => ws
  | id :: rest => renumber (from + 1) rest (JSMap.update id (set_zIndex from) ws)
  end.

Definition updateZIndices (st : WindowManagerState) : WindowManagerState :=
  {| windows := renumber 1 (windowOrder st) (windows st);
     windowOrder := windowOrder st;
     focusedWindowId := focusedWindowId st;
     nextZIndex := Z.of_nat (length (windowOrder st)) + 1 |}.

Definition bringToFront (id : string) (st : WindowManagerState)
    : WindowManagerState :=
  match JSMap.get id (windows st) with
  | None => st
  | Some _ =>
      updateZIndices
        {| windows := windows st;
           windowOrder := filter (fun wId => wId ≠ id) (windowOrder st) ++ [id];
           focusedWindowId := focusedWindowId st;
           nextZIndex := nextZIndex st |}
  end.

(** The first window of [ids] that exists, is not minimized and is
    visible. *)
Fixpoint first_eligible (ids : list string) (ws : JSMap.t WindowState)
    : option WindowState :=
  match ids with
  | [] => None
  | id :: rest =>
      match JSMap.get id ws with
      | Some window =>
          if negb (isMinimized window) && isVisible window then Some window
          else first_eligible rest ws
      | None => first_eligible rest ws
      end
  end.

(** The loop runs from the last index down. *)
Definition getTopmostWindow (st : WindowManagerState) : option WindowState :=
  first_eligible (rev (windowOrder st)) (windows st).

(** *** Public API *)

Definition setViewport (v : Viewport) (m : Manager) : Manager :=
  {| state := state m; windowConstraints := windowConstraints m;
     viewport := v; timers := timers m |}.

Definition getViewport (m : Manager) : Viewport := viewport m.

Definition defaultBounds : WindowBounds :=
  {| position := {| x := 50; y := 50 |};
     size := {| width := 400; height := 300 |} |}.

Definition createWindow (id appId : string) (initialBounds : option PartialBounds)
    (constraints : option WindowConstraints)
    (metadata : option (list (string * Json.value))) (m : Manager)
    : App.outcome (Manager * list WindowEvent * WindowState) :=
  let st := state m in
  if JSMap.has id (windows st) then
    App.Thrown ("Window with id " ++ id ++ " already exists")%string
  else
    let bounds :=
      {| position := default (position defaultBounds) (initialBounds ≫= p_position);
         size := default (size defaultBounds) (initialBounds ≫= p_size) |} in
    let windowState :=
      {| id := id; appId := appId; bounds := bounds;
         zIndex := nextZIndex st;
         isFocused := false; isMinimized := false; isMaximized := false;
         isVisible := true; metadata := metadata |} in
    let st' :=
      {| windows := JSMap.set id windowState (windows st);
         windowOrder := windowOrder st ++ [id];
         focusedWindowId := focusedWindowId st;
         nextZIndex := nextZIndex st + 1 |} in
    App.Returned
      ({| state := st';
          windowConstraints :=
            match constraints with
            | Some c => <[id := c]> (windowConstraints m)
            | None => windowConstraints m
            end;
          viewport := viewport m;
          timers := timers m ++ [id] |},
       [ev_create id windowState],
       windowState).

Definition focusWindow (id : string) (m : Manager) : Manager * list WindowEvent :=
  let st := state m in
  match JSMap.get id (windows st) with
  | None => (m, [])
  | Some window =>
      if isMinimized window then (m, [])
      else
        let '(st1, fx1) :=
          match focusedWindowId st with
          | Some focused =>
              if JS.truthy (Some focused) && negb (String.eqb focused id) then
                match JSMap.get focused (windows st) with
                | Some _ =>
                    (with_windows (JSMap.update focused (set_isFocused false)) st,
                     [ev_blur focused])
                | None => (st, [])
                end
              else (st, [])
          | None => (st, [])
          end in
        let st2 := bringToFront id st1 in
        let st3 := with_windows (JSMap.update id (set_isFocused true)) st2 in
        (with_state (with_focusedWindowId (Some id) st3) m,
         fx1 ++ [ev_focus id])
  end.

Definition destroyWindow (id : string) (m : Manager) : Manager * list WindowEvent :=
  let st := state m in
  match JSMap.get id (windows st) with
  | None => (m, [])
  | Some _ =>
      let st1 :=
        {| windows := JSMap.delete id (windows st);
           windowOrder := filter (fun wId => wId ≠ id) (windowOrder st);
           focusedWindowId := focusedWindowId st;
           nextZIndex := nextZIndex st |} in
      let constraints := delete id (windowConstraints m) in
      let '(st2, ts) :=
        if bool_decide (focusedWindowId st1 = Some id) then
          match getTopmostWindow st1 with
          | Some nextWindow => (st1, timers m ++ [WM.id nextWindow])
          | None => (with_focusedWindowId None st1, timers m)
          end
        else (st1, timers m) in
      ({| state := st2; windowConstraints := constraints;
          viewport := viewport m; timers := ts |},
       [ev_destroy id])
  end.

Definition minimizeWindow (id : string) (m : Manager) : Manager * list WindowEvent :=
  let st := state m in
  match JSMap.get id (windows st) with
  | None => (m, [])
  | Some window =>
      if isMinimized window then (m, [])
      else
        let st1 :=
          with_windows
            (JSMap.update id (fun w => set_isFocused false (set_isMinimized true w)))
            st in
        let '(m2, fx) :=
          if bool_decide (focusedWindowId st1 = Some id) then
            match getTopmostWindow st1 with
            | Some nextWindow => focusWindow (WM.id nextWindow) (with_state st1 m)
            | None => (with_state (with_focusedWindowId None st1) m, [])
            end
          else (with_state st1 m, []) in
        (m2, fx ++ [ev_minimize id])
  end.

Definition maximizeWindow (id : string) (m : Manager) : Manager * list WindowEvent :=
  let st := state m in
  match JSMap.get id (windows st) with
  | None => (m, [])
  | Some window =>
      if isMaximized window then (m, [])
      else
        (with_state (with_windows (JSMap.update id (set_isMaximized true)) st) m,
         [ev_maximize id])
  end.

Definition restoreWindow (id : string) (m : Manager) : Manager * list WindowEvent :=
  let st := state m in
  match JSMap.get id (windows st) with
  | None => (m, [])
  | Some window =>
      if isMinimized window then
        let st1 :=
          with_windows
            (JSMap.update id (fun w => set_isVisible true (set_isMinimized false w)))
            st in
        let '(m2, fx) := focusWindow id (with_state st1 m) in
        (m2, fx ++ [ev_restore id])
      else if isMaximized window then
        (with_state (with_windows (JSMap.update id (set_isMaximized false)) st) m,
         [ev_restore id])
      else (m, [ev_restore id])
  end.

(** [constraints?.field === false]. *)
Definition forbids (field : WindowConstraints -> option bool)
    (constraints : option WindowConstraints) : bool :=
  match constraints ≫= field with
  | Some false => true
  | _ => false
  end.

Definition moveWindow (id : string) (position : WindowPosition) (m : Manager)
    : Manager * list WindowEvent :=
  let st := state m in
  match JSMap.get id (windows st) with
  | None => (m, [])
  | Some _ =>
      let constraints := windowConstraints m !! id in
      if forbids canMove constraints then (m, [])
      else
        (with_state
           (with_windows
              (JSMap.update id
                 (fun w => set_bounds {| position := position;
                                         size := size (bounds w) |} w)) st) m,
         [ev_move id position])
  end.

(** [if (constraints.min) v = Math.max(v, constraints.min);
     if (constraints.max) v = Math.min(v, constraints.max)]. *)
Definition clamp (min max : option Z) (v : Z) : Z :=
  let v1 := if JS.truthyZ min then Z.max v (default 0 min) else v in
  if JS.truthyZ max then Z.min v1 (default 0 max) else v1.

Definition resizeWindow (id : string) (size : WindowSize) (m : Manager)
    : Manager * list WindowEvent :=
  let st := state m in
  match JSMap.get id (windows st) with
  | None => (m, [])
  | Some _ =>
      let constraints := windowConstraints m !! id in
      if forbids canResize constraints then (m, [])
      else
        let size' :=
          match constraints with
          | Some c =>
              {| width := clamp (minWidth c) (maxWidth c) (width size);
                 height := clamp (minHeight c) (maxHeight c) (height size) |}
          | None => {| width := width size; height := height size |}
          end in
        (with_state
           (with_windows
              (JSMap.update id
                 (fun w => set_bounds {| position := position (bounds w);
                                         size := size' |} w)) st) m,
         [ev_resize id size'])
  end.

Definition getAllWindows (m : Manager) : list WindowState :=
  JSMap.values (windows (state m)).

Definition getFocusedWindow (m : Manager) : option WindowState :=
  match focusedWindowId (state m) with
  | Some focused =>
      if JS.truthy (Some focused) then JSMap.get focused (windows (state m))
      else None
  | None => None
  end.

(** One deferred [api.focusWindow(id)] running: the oldest pending
    timer. *)
Definition runTimer (m : Manager) : Manager * list WindowEvent :=
  match timers m with
  | [] => (m, [])
  | id :: rest => focusWindow id (with_timers rest m)
  end.

(** *** Persistence *)

(** The objects of the state as JavaScript values, properties in the
    order of the object literals that create them. *)
Definition value_of_position (p : WindowPosition) : Json.value :=
  Json.VObj [("x", Json.num (x p)); ("y", Json.num (y p))].

Definition value_of_size (s : WindowSize) : Json.value :=
  Json.VObj [("width", Json.num (width s)); ("height", Json.num (height s))].

Definition value_of_window (w : WindowState) : Json.value :=
  Json.VObj
    [("id", Json.VStr (id w));
     ("appId", Json.VStr (appId w));
     ("bounds",
      Json.VObj [("position", value_of_position (position (bounds w)));
                 ("size", value_of_size (size (bounds w)))]);
     ("zIndex", Json.num (zIndex w));
     ("isFocused", Json.VBool (isFocused w));
     ("isMinimized", Json.VBool (isMinimized w));
     ("isMaximized", Json.VBool (isMaximized w));
     ("isVisible", Json.VBool (isVisible w));
     ("metadata",
      match metadata w with
      | Some md => Json.VObj md
      | None => Json.VUndefined
      end)].

(** The [serializable] object of [getSerializedState]. *)
Definition serializable (st : WindowManagerState) : Json.value :=
  Json.VObj
    [("windows",
      Json.VArr (map (fun kw => Json.VArr [Json.VStr (fst kw); value_of_window (snd kw)])
                   (windows st)));
     ("windowOrder", Json.VArr (map Json.VStr (windowOrder st)));
     ("focusedWindowId",
      match focusedWindowId st with
      | Some focused => Json.VStr focused
      | None => Json.VNull
      end);
     ("nextZIndex", Json.num (nextZIndex st))].

Definition getSerializedState (m : Manager) : string :=
  Json.JSON_stringify (serializable (state m)).

(** What the [state] variable holds after a load: the fields are
    whatever the text gave, of any type. *)
Record RawState := {
  r_windows : list (Json.value * Json.value);       (* the Map's entries *)
  r_windowOrder : Json.value;
  r_focusedWindowId : Json.value;
  r_nextZIndex : Json.value
}.

(** [parsed.name], for a name that no prototype defines: a [TypeError]
    on [null], the property of an object, [undefined] on anything else. *)
Definition get_prop (parsed : Json.value) (name : string)
    : App.outcome Json.value :=
  match parsed with
  | Json.VUndefined | Json.VNull =>
      App.Thrown ("TypeError: Cannot read properties of null (reading '"
                    ++ name ++ "')")%string
  | Json.VObj props => App.Returned (Json.member name props)
  | _ => App.Returned Json.VUndefined
  end.

(** Equality of Map keys (SameValueZero).  Objects and arrays are equal
    only to themselves, and those of a parsed text are all distinct. *)
Definition same_value_zero (a b : Json.value) : bool :=
  match a, b with
  | Json.VUndefined, Json.VUndefined => true
  | Json.VNull, Json.VNull => true
  | Json.VBool p, Json.VBool q => Bool.eqb p q
  | Json.VNum m e, Json.VNum m' e' =>
      let low := Z.min e e' in
      m * 10 ^ (e - low) =? m' * 10 ^ (e' - low)
  | Json.VNaN, Json.VNaN => true
  | Json.VInfinity n, Json.VInfinity n' => Bool.eqb n n'
  | Json.VNegZero, Json.VNegZero => true
  | Json.VNegZero, Json.VNum m _ | Json.VNum m _, Json.VNegZero => m =? 0
  | Json.VStr s, Json.VStr s' => String.eqb s s'
  | _, _ => false
  end.

(** [map.set(k, v)] on the entries of a Map. *)
Fixpoint entries_set (k v : Json.value) (entries : list (Json.value * Json.value))
    : list (Json.value * Json.value) :=
  match entries with
  | [] => [(k, v)]
  | (k', v') :: rest =>
      if same_value_zero k k' then (k', v) :: rest
      else (k', v') :: entries_set k v rest
  end.

(** The items of [new Map(iterable)] added one by one: each must be an
    object, whose properties [0] and [1] are the key and the value. *)
Fixpoint add_entries (items : list Json.value)
    (entries : list (Json.value * Json.value))
    : App.outcome (list (Json.value * Json.value)) :=
  match items with
  | [] => App.Returned entries
  | item :: rest =>
      match item with
      | Json.VArr xs =>
          add_entries rest (entries_set (Json.item 0 xs) (Json.item 1 xs) entries)
      | Json.VObj props =>
          add_entries rest
            (entries_set (Json.member "0" props) (Json.member "1" props) entries)
      | Json.VFun _ | Json.VDate _ =>
          add_entries rest (entries_set Json.VUndefined Json.VUndefined entries)
      | _ => App.Thrown "TypeError: Iterator value is not an entry object"
      end
  end.

(** [new Map(iterable)]. *)
Definition new_Map (iterable : Json.value)
    : App.outcome (list (Json.value * Json.value)) :=
  match iterable with
  | Json.VUndefined | Json.VNull => App.Returned []
  | Json.VArr items => add_entries items []
  | Json.VStr s =>
      if String.eqb s "" then App.Returned []
      else App.Thrown "TypeError: Iterator value is not an entry object"
  | _ => App.Thrown "TypeError: object is not iterable"
  end.

(** What [loadSerializedState] does: it assigns the [state] variable, or
    catches an exception and logs it with [console.error].  Nothing is
    returned or thrown to the caller either way. *)
Inductive LoadResult :=
| Assigned (r : RawState)
| Caught (error : string).

Definition loadSerializedState (serializedState : string) : LoadResult :=
  match Json.JSON_parse serializedState with
  | None => Caught "SyntaxError"
  | Some parsed =>
      match get_prop parsed "windows" with
      | App.Thrown e => Caught e
      | App.Returned ws =>
          match new_Map ws with
          | App.Thrown e => Caught e
          | App.Returned entries =>
              match get_prop parsed "windowOrder",
                    get_prop parsed "focusedWindowId",
                    get_prop parsed "nextZIndex" with
              | App.Returned order, App.Returned focused, App.Returned next =>
                  Assigned {| r_windows := entries; r_windowOrder := order;
                              r_focusedWindowId := focused;
                              r_nextZIndex := next |}
              | App.Thrown e, _, _ | _, App.Thrown e, _ | _, _, App.Thrown e =>
                  Caught e
              end
          end
      end
  end.

(** Reading a loaded state back at the declared types: what the typed
    accessors ([getAllWindows], [w.bounds.position.x], ...) observe.
    [None] when a field is not of its declared type. *)
Definition field (name : string) (v : Json.value) : Json.value :=
  match v with
  | Json.VObj props => Json.member name props
  | _ => Json.VUndefined
  end.

Definition read_string (v : Json.value) : option string :=
  match v with Json.VStr s => Some s | _ => None end.

Definition read_number (v : Json.value) : option Z :=
  match v with Json.VNum m e => Json.to_Z m e | _ => None end.

Definition read_bool (v : Json.value) : option bool :=
  match v with Json.VBool b => Some b | _ => None end.

Definition read_position (v : Json.value) : option WindowPosition :=
  px ← read_number (field "x" v);
  py ← read_number (field "y" v);
  Some {| x := px; y := py |}.

Definition read_size (v : Json.value) : option WindowSize :=
  w ← read_number (field "width" v);
  h ← read_number (field "height" v);
  Some {| width := w; height := h |}.

Definition read_metadata (v : Json.value)
    : option (option (list (string * Json.value))) :=
  match v with
  | Json.VUndefined => Some None
  | Json.VObj md => Some (Some md)
  | _ => None
  end.

Definition read_window (v : Json.value) : option WindowState :=
  wid ← read_string (field "id" v);
  app ← read_string (field "appId" v);
  pos ← read_position (field "position" (field "bounds" v));
  sz ← read_size (field "size" (field "bounds" v));
  z ← read_number (field "zIndex" v);
  focused ← read_bool (field "isFocused" v);
  minimized ← read_bool (field "isMinimized" v);
  maximized ← read_bool (field "isMaximized" v);
  visible ← read_bool (field "isVisible" v);
  md ← read_metadata (field "metadata" v);
  Some {| id := wid; appId := app;
          bounds := {| position := pos; size := sz |};
          zIndex := z; isFocused := focused; isMinimized := minimized;
          isMaximized := maximized; isVisible := visible; metadata := md |}.

Definition read_entry (kv : Json.value * Json.value)
    : option (string * WindowState) :=
  k ← read_string (fst kv);
  w ← read_window (snd kv);
  Some (k, w).

Definition read_state (r : RawState) : option WindowManagerState :=
  ws ← mapM read_entry (r_windows r);
  order ← match r_windowOrder r with
          | Json.VArr items => mapM read_string items
          | _ => None
          end;
  focused ← match r_focusedWindowId r with
            | Json.VNull => Some None
            | Json.VStr s => Some (Some s)
            | _ => None
            end;
  next ← read_number (r_nextZIndex r);
  Some {| windows := ws; windowOrder := order; focusedWindowId := focused;
          nextZIndex := next |}.

(** The manager after a load.  Only the [state] variable is assigned; the
    constraints, the viewport and the pending timers are the same
    objects as before.  [None] when the assigned value is not a
    [WindowManagerState]: the public operations are then outside the
    embedding. *)
Definition after_load (r : LoadResult) (m : Manager) : option Manager :=
  match r with
  | Caught _ => Some m
  | Assigned raw => (fun st => with_state st m) <$> read_state raw
  end.

(** Whether the metadata of a window is data that JSON can hold. *)
Definition metadata_safe (w : WindowState) : bool :=
  match metadata w with
  | Some md => Json.json_safe (Json.VObj md)
  | None => true
  end.

(** *** Runs of the public operations *)

Inductive op :=
| CreateWindow (id appId : string) (initialBounds : option PartialBounds)
    (constraints : option WindowConstraints)
    (metadata : option (list (string * Json.value)))
| DestroyWindow (id : string)
| FocusWindow (id : string)
| MinimizeWindow (id : string)
| MaximizeWindow (id : string)
| RestoreWindow (id : string)
| MoveWindow (id : string) (position : WindowPosition)
| ResizeWindow (id : string) (size : WindowSize)
| RunTimer.

(** The manager after one call (a [createWindow] that throws changes
    nothing). *)
Definition step (o : op) (m : Manager) : Manager :=
  match o with
  | CreateWindow id appId b c md =>
      match createWindow id appId b c md m with
      | App.Returned (m', _, _) => m'
      | App.Thrown _ => m
      end
  | DestroyWindow id => fst (destroyWindow id m)
  | FocusWindow id => fst (focusWindow id m)
  | MinimizeWindow id => fst (minimizeWindow id m)
  | MaximizeWindow id => fst (maximizeWindow id m)
  | RestoreWindow id => fst (restoreWindow id m)
  | MoveWindow id p => fst (moveWindow id p m)
  | ResizeWindow id s => fst (resizeWindow id s m)
  | RunTimer => fst (runTimer m)
  end.

Definition run (ops : list op) (m : Manager) : Manager :=
  fold_left (fun m o => step o m) ops m.

(** The states the public operations and the deferred focus steps reach
    from a new manager. *)
Inductive reachable : Manager -> Prop :=
| reachable_new : reachable createWindowManager
| reachable_step o m : reachable m -> reachable (step o m).

End WM.

(* ------------------------------------------------------------------ *)
(** ** Application manager: queries and messages *)
(* ------------------------------------------------------------------ *)

Module AppQueries.
Import App.

(** *** application-registry.ts *)

Definition getAllApplications (applications : Registry.t)
    : list Registry.RegisteredApplication :=
  JSMap.values applications.

Definition validateManifest (manifest : ApplicationManifest) : list string :=
  (if JS.truthy (Some (id (metadata manifest))) then []
   else ["Application ID is required"])
  ++ (if JS.truthy (Some (name (metadata manifest))) then []
      else ["Application name is required"])
  ++ (if JS.truthy (Some (version (metadata manifest))) then []
      else ["Application version is required"]).

(** *** application-lifecycle.ts *)

Record InterAppMessage := {
  msg_from : string;
  msg_to : string;
  msg_type : string;
  msg_payload : option Json.value;
  msg_timestamp : Z
}.

(** [sendMessage]: the instances whose handler is called with the
    message, in the order of the calls. *)
Definition sendMessage (message : InterAppMessage) (L : Lifecycle.t)
    : list string :=
  if String.eqb (msg_to message) "*" then
    filter (fun instanceId => instanceId ≠ msg_from message)
      (Lifecycle.messageHandlers L)
  else if bool_decide (msg_to message ∈ Lifecycle.messageHandlers L)
       then [msg_to message] else [].

(** *** window-application-bridge.ts *)

Definition getInstanceForWindow (windowId : string)
    (windowToInstance : Bridge.t) : option string :=
  windowToInstance !! windowId.

(** [instance.windowIds.map(id => getAllWindows().find(w => w.id === id))
    .filter(w => w !== undefined)]. *)
Definition getAllWindowsForInstance (instanceId : string) (L : Lifecycle.t)
    (m : WM.Manager) : list WM.WindowState :=
  match Lifecycle.getInstance instanceId L with
  | None => []
  | Some instance =>
      omap (fun id => find (fun w => String.eqb (WM.id w) id) (WM.getAllWindows m))
        (windowIds instance)
  end.

End AppQueries.

(* ------------------------------------------------------------------ *)
(** ** Dispatch of input events *)
(* ------------------------------------------------------------------ *)

Module JSArray.

(** [xs.sort((a, b) => key(b) - key(a))]: the elements by decreasing key,
    those of equal key in the order they had (the sort is stable). *)
Fixpoint insert_desc {A} (key : A -> Z) (x : A) (sorted : list A) : list A :=
  match sorted with
  | [] => [x]
  | y :: rest =>
      if key x <? key y then y :: insert_desc key x rest else x :: sorted
  end.

Definition sort_desc {A} (key : A -> Z) (xs : list A) : list A :=
  fold_right (insert_desc key) [] xs.

End JSArray.

(** *** interaction-registry.ts *)

Module InteractionDispatch.
Import Input.

(** What awaiting [handler.handle(event)] gives. *)
Inductive HandleResult :=
| resolves (consumed : bool)
| rejects (error : string).

Record InteractionHandler := {
  h_id : string;
  h_priority : Z;
  h_context : InputContext;
  canHandle : InputEvent -> bool;
  handle : InputEvent -> HandleResult
}.

(** What a call does besides changing the registry, in order. *)
Inductive Effect :=
| ConsoleWarn (message : string)
| ConsoleError (message : string)
| Handle (handler : InteractionHandler) (event : InputEvent).

Definition t := JSMap.t InteractionHandler.

Definition createInteractionRegistry : t := [].

Definition getMatchingHandlers (event : InputEvent) (handlers : t)
    : list InteractionHandler :=
  List.filter
    (fun handler =>
       if negb (canHandle handler event) then false
       else InteractionRegistry.contextMatches (h_context handler) (ev_context event))
    (JSMap.values handlers).

Definition register (handler : InteractionHandler) (handlers : t)
    : t * list Effect :=
  (JSMap.set (h_id handler) handler handlers,
   if JSMap.has (h_id handler) handlers then
     [ConsoleWarn ("Interaction handler with id " ++ JS.dq ++ h_id handler ++ JS.dq
                     ++ " already exists. Overwriting.")%string]
   else []).

(** The function that [register] returns. *)
Definition registered_undo (handler : InteractionHandler) (handlers : t) : t :=
  JSMap.delete (h_id handler) handlers.

Definition unregister (id : string) (handlers : t) : t :=
  JSMap.delete id handlers.

Definition getHandlers (context : option InputContext) (handlers : t)
    : list InteractionHandler :=
  match context with
  | None => JSMap.values handlers
  | Some _ =>
      List.filter
        (fun handler => InteractionRegistry.contextMatches (h_context handler) context)
        (JSMap.values handlers)
  end.

(** The loop of [handleEvent] over the sorted handlers. *)
Fixpoint try_handlers (event : InputEvent) (sorted : list InteractionHandler)
    : bool * list Effect :=
  match sorted with
  | [] => (false, [])
  | handler :: rest =>
      match handle handler event with
      | resolves true => (true, [Handle handler event])
      | resolves false =>
          let '(handled, fx) := try_handlers event rest in
          (handled, Handle handler event :: fx)
      | rejects _ =>
          let '(handled, fx) := try_handlers event rest in
          (handled,
           Handle handler event
             :: ConsoleError ("Error in interaction handler " ++ JS.dq
                                ++ h_id handler ++ JS.dq ++ ":")%string
             :: fx)
      end
  end.

Definition handleEvent (event : InputEvent) (handlers : t) : bool * list Effect :=
  let matchingHandlers := getMatchingHandlers event handlers in
  if (length matchingHandlers =? 0)%nat then (false, [])
  else try_handlers event (JSArray.sort_desc h_priority matchingHandlers).

End InteractionDispatch.

(** *** keyboard-shortcut-registry.ts *)

Module ShortcutDispatch.
Import Input.

(** What calling [shortcut.handler(event)] does: it returns (a promise
    that resolves, when it returns one), it throws, or it returns a
    promise that rejects. *)
Inductive HandlerResult :=
| returns
| throws (error : string)
| rejects (error : string).

Record KeyboardShortcut := {
  s_id : string;
  s_keys : list string;
  s_description : string;
  s_context : option InputContext;
  s_handler : InputEvent -> HandlerResult;
  s_enabled : option bool
}.

Inductive Effect :=
| ConsoleWarn (message : string)
| ConsoleError (message : string)
| Run (shortcut : KeyboardShortcut) (event : InputEvent).

Definition t := JSMap.t KeyboardShortcut.

Definition createKeyboardShortcutRegistry : t := [].

Section Strings.

(** [String.prototype.toLowerCase] and [Array.prototype.sort] on
    strings, of the host. *)
Variable toLowerCase : string -> string.
Variable sort : list string -> list string.

Definition normalizeKeys (keys : list string) : list string :=
  sort (map toLowerCase keys).

Definition getModifiersFromEvent (event : InputEvent) : InputModifiers :=
  match ev_modifiers event with
  | Some modifiers => modifiers
  | None => {| ctrl := false; alt := false; shift := false; meta := false |}
  end.

Definition keysMatch (shortcutKeys eventKeys : list string) : bool :=
  let normalizedShortcut := normalizeKeys shortcutKeys in
  let normalizedEvent := normalizeKeys eventKeys in
  if negb (length normalizedShortcut =? length normalizedEvent)%nat then false
  else forallb (fun key => existsb (String.eqb key) normalizedEvent) normalizedShortcut.

Definition buildEventKeys (event : InputEvent) : list string :=
  let modifiers := getModifiersFromEvent event in
  (if ctrl modifiers then ["ctrl"] else [])
  ++ (if alt modifiers then ["alt"] else [])
  ++ (if shift modifiers then ["shift"] else [])
  ++ (if meta modifiers then ["meta"] else [])
  ++ (if JS.truthy (ev_key event)
      then [toLowerCase (default "" (ev_key event))] else []).

Definition register (shortcut : KeyboardShortcut) (shortcuts : t)
    : t * list Effect :=
  (JSMap.set (s_id shortcut)
     {| s_id := s_id shortcut; s_keys := s_keys shortcut;
        s_description := s_description shortcut; s_context := s_context shortcut;
        s_handler := s_handler shortcut;
        s_enabled := Some (default true (s_enabled shortcut)) |}
     shortcuts,
   if JSMap.has (s_id shortcut) shortcuts then
     [ConsoleWarn ("Keyboard shortcut with id " ++ JS.dq ++ s_id shortcut ++ JS.dq
                     ++ " already exists. Overwriting.")%string]
   else []).

Definition unregister (id : string) (shortcuts : t) : t :=
  JSMap.delete id shortcuts.

Definition getShortcuts (context : option InputContext) (shortcuts : t)
    : list KeyboardShortcut :=
  List.filter
    (fun shortcut =>
       if negb (JS.truthyB (s_enabled shortcut)) then false
       else KeyboardShortcutRegistry.contextMatches (s_context shortcut) context)
    (JSMap.values shortcuts).

(** [shortcut.context?.priority ?? 0]. *)
Definition priority_of (shortcut : KeyboardShortcut) : Z :=
  default 0 (s_context shortcut ≫= priority).

Definition handleKeyEvent (event : InputEvent) (shortcuts : t)
    : bool * list Effect :=
  if negb (bool_decide (ev_type event = key_down)) then (false, [])
  else
    let eventKeys := buildEventKeys event in
    if (length eventKeys =? 0)%nat then (false, [])
    else
      let matchingShortcuts :=
        List.filter
          (fun shortcut =>
             if negb (JS.truthyB (s_enabled shortcut)) then false
             else if negb (KeyboardShortcutRegistry.contextMatches
                             (s_context shortcut) (ev_context event)) then false
             else keysMatch (s_keys shortcut) eventKeys)
          (JSMap.values shortcuts) in
      match JSArray.sort_desc priority_of matchingShortcuts with
      | shortcut :: _ =>
          let error :=
            ConsoleError ("Error executing keyboard shortcut " ++ JS.dq
                            ++ s_id shortcut ++ JS.dq ++ ":")%string in
          match s_handler shortcut event with
          | returns => (true, [Run shortcut event])
          | rejects _ => (true, [Run shortcut event; error])
          | throws _ => (false, [Run shortcut event; error])
          end
      | [] => (false, [])
      end.

End Strings.

End ShortcutDispatch.

(* ================================================================== *)
(** * Part II.  Properties *)
(* ================================================================== *)

(** ** Facts about [JSMap] *)

Section JSMapFacts.
Context {V : Type}.
Implicit Types (m : JSMap.t V) (k : string) (v : V).

Lemma eqb_refl_true k : String.eqb k k = true.
Proof. apply String.eqb_refl. Qed.

Lemma eqb_false_ne k k' : k ≠ k' -> String.eqb k k' = false.
Proof. intros H. by apply String.eqb_neq. Qed.

Lemma get_set_eq k v m : JSMap.get k (JSMap.set k v m) = Some v.
Proof.
  induction m as [|[k' v'] m IH]; simpl.
  - by rewrite eqb_refl_true.
  - destruct (String.eqb k k') eqn:E; simpl; rewrite E; done.
Qed.

Lemma get_set_ne k k' v m :
  k' ≠ k -> JSMap.get k' (JSMap.set k v m) = JSMap.get k' m.
Proof.
  intros Hne. induction m as [|[k0 v0] m IH]; simpl.
  - by rewrite (eqb_false_ne _ _ Hne).
  - destruct (String.eqb k k0) eqn:E; simpl.
    + apply String.eqb_eq in E. subst k0.
      by rewrite (eqb_false_ne _ _ Hne).
    + by rewrite IH.
Qed.

Lemma get_delete_eq k m : JSMap.get k (JSMap.delete k m) = None.
Proof.
  induction m as [|[k' v'] m IH]; simpl; [done|].
  destruct (String.eqb k k') eqn:E; simpl; [done|]. by rewrite E.
Qed.

Lemma get_delete_ne k k' m :
  k' ≠ k -> JSMap.get k' (JSMap.delete k m) = JSMap.get k' m.
Proof.
  intros Hne. induction m as [|[k0 v0] m IH]; simpl; [done|].
  destruct (String.eqb k k0) eqn:E; simpl.
  - apply String.eqb_eq in E. subst k0. by rewrite (eqb_false_ne _ _ Hne).
  - by rewrite IH.
Qed.

Lemma get_update_eq k f m :
  JSMap.get k (JSMap.update k f m) = f <$> JSMap.get k m.
Proof.
  induction m as [|[k' v'] m IH]; simpl; [done|].
  destruct (String.eqb k k') eqn:E; simpl; rewrite E; done.
Qed.

Lemma get_update_ne k k' f m :
  k' ≠ k -> JSMap.get k' (JSMap.update k f m) = JSMap.get k' m.
Proof.
  intros Hne. induction m as [|[k0 v0] m IH]; simpl; [done|].
  destruct (String.eqb k k0) eqn:E; simpl.
  - apply String.eqb_eq in E. subst k0. by rewrite (eqb_false_ne _ _ Hne).
  - by rewrite IH.
Qed.

Lemma keys_update k f m : JSMap.keys (JSMap.update k f m) = JSMap.keys m.
Proof.
  induction m as [|[k' v'] m IH]; simpl; [done|].
  destruct (String.eqb k k'); simpl; [done|]. by f_equal.
Qed.

Lemma keys_delete k m :
  JSMap.keys (JSMap.delete k m) = filter (fun k' => k' ≠ k) (JSMap.keys m).
Proof.
  induction m as [|[k' v'] m IH]; simpl; [done|].
  destruct (String.eqb k k') eqn:E.
  - apply String.eqb_eq in E. subst k'.
    rewrite filter_cons_False by (intros ?; done). done.
  - apply String.eqb_neq in E.
    rewrite filter_cons_True by (intros ->; done). simpl. by f_equal.
Qed.

Lemma get_None_keys k m : JSMap.get k m = None <-> k ∉ JSMap.keys m.
Proof.
  induction m as [|[k' v'] m IH]; simpl.
  - split; [intros _; apply not_elem_of_nil | done].
  - destruct (String.eqb k k') eqn:E.
    + apply String.eqb_eq in E. subst k'. split; [done|].
      intros H. exfalso. apply H. left.
    + apply String.eqb_neq in E. rewrite IH. rewrite not_elem_of_cons. tauto.
Qed.

Lemma get_Some_keys k m : is_Some (JSMap.get k m) <-> k ∈ JSMap.keys m.
Proof.
  destruct (JSMap.get k m) eqn:E.
  - split; [intros _ | eauto].
    destruct (decide (k ∈ JSMap.keys m)) as [|Hn]; [done|].
    apply get_None_keys in Hn. congruence.
  - split; [intros [? ?]; done|].
    intros Hin. apply get_None_keys in E. done.
Qed.

Lemma keys_set_new k v m :
  JSMap.get k m = None -> JSMap.keys (JSMap.set k v m) = JSMap.keys m ++ [k].
Proof.
  induction m as [|[k' v'] m IH]; simpl; [done|].
  destruct (String.eqb k k') eqn:E; [done|].
  intros H. simpl. f_equal. by apply IH.
Qed.

Lemma keys_set_old k v m :
  is_Some (JSMap.get k m) -> JSMap.keys (JSMap.set k v m) = JSMap.keys m.
Proof.
  induction m as [|[k' v'] m IH]; simpl; [intros [? ?]; done|].
  destruct (String.eqb k k') eqn:E; [done|].
  intros H. simpl. f_equal. by apply IH.
Qed.

Lemma get_elem_of k v m : JSMap.get k m = Some v -> (k, v) ∈ m.
Proof.
  induction m as [|[k' v'] m IH]; simpl; [done|].
  destruct (String.eqb k k') eqn:E.
  - apply String.eqb_eq in E. subst k'. intros [= ->]. left.
  - intros H. right. by apply IH.
Qed.

Lemma elem_of_get k v m :
  NoDup (JSMap.keys m) -> (k, v) ∈ m -> JSMap.get k m = Some v.
Proof.
  induction m as [|[k' v'] m IH]; simpl.
  - intros _ H. by apply elem_of_nil in H.
  - intros Hnd Hin. apply list.NoDup_cons in Hnd as [Hk Hnd].
    apply elem_of_cons in Hin as [Heq|Hin].
    + injection Heq as -> ->. by rewrite eqb_refl_true.
    + destruct (String.eqb k k') eqn:E.
      * apply String.eqb_eq in E. subst k'. exfalso. apply Hk.
        change (JSMap.keys m) with (map fst m).
        apply list_elem_of_fmap. by exists (k, v).
      * by apply IH.
Qed.

End JSMapFacts.

(* ------------------------------------------------------------------ *)
(** ** Context matching (interaction handlers, shortcuts, gestures) *)
(* ------------------------------------------------------------------ *)

Section ContextMatching.
Import Input.

(** A filter field that is set (present, and for a string non-empty)
    equals the event's field. *)
Definition field_matches {A} (is_set : bool) (filter event : option A) : Prop :=
  is_set = true -> filter = event.

Lemma field_test_spec {A} `{EqDecision A} (is_set : bool) (f e : option A) :
  is_set && JS.strict_ne f e = false <-> field_matches is_set f e.
Proof.
  unfold field_matches, JS.strict_ne. destruct is_set; simpl.
  - rewrite negb_false_iff, bool_decide_eq_true. tauto.
  - split; [intros _ H; discriminate | done].
Qed.

Lemma interaction_matches_iff (f e : InputContext) :
  InteractionRegistry.contextMatches f (Some e) = true <->
  field_matches (JS.truthy (windowId f)) (windowId f) (windowId e)
  /\ field_matches (JS.truthy (appId f)) (appId f) (appId e)
  /\ field_matches (JS.truthy (elementType f)) (elementType f) (elementType e)
  /\ field_matches (bool_decide (is_Some (interactionMode f)))
       (interactionMode f) (interactionMode e).
Proof.
  unfold InteractionRegistry.contextMatches.
  rewrite <- !field_test_spec.
  repeat match goal with
         | |- context [if ?b then false else _] => destruct b
         end; intuition congruence.
Qed.

Lemma shortcut_matches_iff (f e : InputContext) :
  KeyboardShortcutRegistry.contextMatches (Some f) (Some e) = true <->
  field_matches (JS.truthy (windowId f)) (windowId f) (windowId e)
  /\ field_matches (JS.truthy (appId f)) (appId f) (appId e)
  /\ field_matches (bool_decide (is_Some (interactionMode f)))
       (interactionMode f) (interactionMode e).
Proof.
  unfold KeyboardShortcutRegistry.contextMatches.
  rewrite <- !field_test_spec.
  repeat match goal with
         | |- context [if ?b then false else _] => destruct b
         end; intuition congruence.
Qed.

(** A gesture definition with its context filter replaced. *)
Definition with_context (c : option InputContext)
    (d : InputSystem.GestureDefinition) : InputSystem.GestureDefinition :=
  {| InputSystem.gd_id := InputSystem.gd_id d;
     InputSystem.gd_type := InputSystem.gd_type d;
     InputSystem.gd_recognizer := InputSystem.gd_recognizer d;
     InputSystem.gd_calls := InputSystem.gd_calls d;
     InputSystem.gd_context := c;
     InputSystem.gd_enabled := InputSystem.gd_enabled d |}.

(** The custom gestures recognized and the handlers invoked do not
    depend on the definitions' context filters. *)
Lemma run_custom_ignores_context (c : string -> option InputContext)
    (events : list InputEvent) (defs : JSMap.t InputSystem.GestureDefinition) :
  let recontext := map (fun kd => (fst kd, with_context (c (fst kd)) (snd kd))) in
  InputSystem.run_custom events (recontext defs)
  = (recontext (InputSystem.run_custom events defs).1.1,
     (InputSystem.run_custom events defs).1.2,
     (InputSystem.run_custom events defs).2).
Proof.
  simpl. induction defs as [|[k d] defs IH]; simpl; [done|].
  rewrite IH.
  destruct (InputSystem.run_custom events defs) as [[defs' gs] fx]; simpl.
  destruct (InputSystem.gd_enabled d); simpl; [|done].
  destruct (InputSystem.gd_recognizer d _); done.
Qed.

(** C8, as amended.  A set filter field (windowId, appId, elementType,
    interactionMode for an interaction handler; windowId, appId,
    interactionMode for a shortcut) must equal the event's context field
    and an unset field matches anything, provided the event carries a
    context; an event without context matches no interaction-handler
    filter, and matches a shortcut exactly when the shortcut has no
    context filter at all; the context filters of gesture definitions are
    never consulted. *)
Theorem C8_context_matching_rule :
  (forall f e : InputContext,
     InteractionRegistry.contextMatches f (Some e) = true <->
     field_matches (JS.truthy (windowId f)) (windowId f) (windowId e)
     /\ field_matches (JS.truthy (appId f)) (appId f) (appId e)
     /\ field_matches (JS.truthy (elementType f)) (elementType f) (elementType e)
     /\ field_matches (bool_decide (is_Some (interactionMode f)))
          (interactionMode f) (interactionMode e))
  /\ (forall f : InputContext, InteractionRegistry.contextMatches f None = false)
  /\ (forall f e : InputContext,
        KeyboardShortcutRegistry.contextMatches (Some f) (Some e) = true <->
        field_matches (JS.truthy (windowId f)) (windowId f) (windowId e)
        /\ field_matches (JS.truthy (appId f)) (appId f) (appId e)
        /\ field_matches (bool_decide (is_Some (interactionMode f)))
             (interactionMode f) (interactionMode e))
  /\ (forall f : InputContext,
        KeyboardShortcutRegistry.contextMatches (Some f) None = false)
  /\ (forall e : option InputContext,
        KeyboardShortcutRegistry.contextMatches None e = true)
  /\ (forall (c : string -> option InputContext) events defs,
        let recontext :=
          map (fun kd => (fst kd, with_context (c (fst kd)) (snd kd))) in
        (InputSystem.run_custom events (recontext defs)).1.2
          = (InputSystem.run_custom events defs).1.2
        /\ (InputSystem.run_custom events (recontext defs)).2
          = (InputSystem.run_custom events defs).2).
Proof.
  split; [exact interaction_matches_iff|].
  split; [done|].
  split; [exact shortcut_matches_iff|].
  split; [done|].
  split; [done|].
  intros c events defs recontext.
  pose proof (run_custom_ignores_context c events defs) as H. simpl in H.
  subst recontext. rewrite H. done.
Qed.

(** C8, as stated, fails: the filter that sets no field does not match an
    event that carries no context. *)
Lemma C8_unset_filter_rejects_contextless_event :
  InteractionRegistry.contextMatches unset_context None = false
  /\ KeyboardShortcutRegistry.contextMatches (Some unset_context) None = false.
Proof. split; reflexivity. Qed.

End ContextMatching.

(* ------------------------------------------------------------------ *)
(** ** Tap and drag scenarios *)
(* ------------------------------------------------------------------ *)

(** [simpl] and [cbn] do not compute on [Z] (stdpp) nor on doubles; this
    decides the comparisons between closed numbers. *)
Ltac closed_number t :=
  tryif (match t with context [?v] => is_var v end) then fail else idtac.

Ltac decide_with op a b :=
  closed_number a; closed_number b;
  let r := eval vm_compute in (op a b) in
  replace (op a b) with r by (vm_compute; reflexivity).

Ltac decide_closed :=
  repeat match goal with
         | |- context [Z.leb ?a ?b] => decide_with Z.leb a b
         | |- context [Z.ltb ?a ?b] => decide_with Z.ltb a b
         | |- context [Z.eqb ?a ?b] => decide_with Z.eqb a b
         | |- context [Double.le ?a ?b] => decide_with Double.le a b
         | |- context [Double.ge ?a ?b] => decide_with Double.ge a b
         | |- context [Double.gt ?a ?b] => decide_with Double.gt a b
         end.

Section TapDragScenarios.
Import Input Input.InputSystem.

Inductive phase := press | move | release.

(** A pointer event of a mouse or of a touch screen. *)
Definition pointer (touch : bool) (ph : phase) (t px py : Z)
    (ctx : option InputContext) : InputEvent :=
  {| ev_id := "";
     ev_type :=
       match ph, touch with
       | press, false => mouse_down | press, true => touch_start
       | move, false => mouse_move | move, true => touch_move
       | release, false => mouse_up | release, true => touch_end
       end;
     ev_timestamp := t;
     ev_position := Some {| Input.px := px; Input.py := py |};
     ev_target := None;
     ev_context := ctx;
     ev_modifiers := None;
     ev_key := None |}.

(** Press at (0,0), release at (3,3) 120 time-units later. *)
Definition tap_scenario (touch : bool) (t0 : Z) (ctx : option InputContext)
    (d1 d2 : bool) : list (bool * InputEvent) :=
  [(d1, pointer touch press t0 0 0 ctx);
   (d2, pointer touch release (t0 + 120) 3 3 ctx)].

(** Press at (0,0), move to (20,0), release at (20,0) 200 time-units
    after the press. *)
Definition drag_scenario (touch : bool) (t0 t1 : Z) (ctx : option InputContext)
    (d1 d2 d3 : bool) : list (bool * InputEvent) :=
  [(d1, pointer touch press t0 0 0 ctx);
   (d2, pointer touch move t1 20 0 ctx);
   (d3, pointer touch release (t0 + 200) 20 0 ctx)].

Lemma tap_scenario_gestures handleKey handleEvent touch t0 ctx d1 d2 :
  let fx := (feed handleKey handleEvent (tap_scenario touch t0 ctx d1 d2)
               createInputSystem).2 in
  recognized g_tap fx = [gs_start; gs_end] /\ recognized g_drag fx = [].
Proof.
  destruct touch, d1, d2; cbn;
    replace (t0 + 120 - t0) with 120 by lia;
    repeat (progress (cbn; decide_closed)); done.
Qed.

Lemma drag_scenario_gestures handleKey handleEvent touch t0 t1 ctx d1 d2 d3 :
  let fx := (feed handleKey handleEvent (drag_scenario touch t0 t1 ctx d1 d2 d3)
               createInputSystem).2 in
  recognized g_drag fx = [gs_start; gs_end] /\ recognized g_tap fx = [gs_start].
Proof.
  destruct touch, d1, d2, d3;
    repeat (progress (cbn; decide_closed));
    replace (t0 + 200 - t0) with 200 by lia;
    repeat (progress (cbn; decide_closed)); done.
Qed.
(** C7, as amended.  From a new input system, whatever the device, the
    clock, the context and the registered handlers: the press-release
    scenario yields the tap gestures "start" (on the press) and "end" (on
    the release) and no drag gesture; the press-move-release scenario
    yields the drag gestures "start" then "end", and of tap gestures only
    the "start" of the press: the tap is never completed. *)
Theorem C7_tap_and_drag_scenarios :
  forall (handleKey handleEvent : InputEvent -> bool) (touch : bool)
         (t0 t1 : Z) (ctx : option InputContext) (d1 d2 d3 : bool),
    let tap_fx := (feed handleKey handleEvent (tap_scenario touch t0 ctx d1 d2)
                     createInputSystem).2 in
    let drag_fx := (feed handleKey handleEvent
                      (drag_scenario touch t0 t1 ctx d1 d2 d3)
                      createInputSystem).2 in
    recognized g_tap tap_fx = [gs_start; gs_end]
    /\ recognized g_drag tap_fx = []
    /\ recognized g_drag drag_fx = [gs_start; gs_end]
    /\ recognized g_tap drag_fx = [gs_start].
Proof.
  intros handleKey handleEvent touch t0 t1 ctx d1 d2 d3.
  pose proof (tap_scenario_gestures handleKey handleEvent touch t0 ctx d1 d2) as [H1 H2].
  pose proof (drag_scenario_gestures handleKey handleEvent touch t0 t1 ctx d1 d2 d3)
    as [H3 H4].
  simpl in *. auto.
Qed.

(** C7, as stated, fails: the press of the drag scenario is itself
    recognized as a tap gesture (in state "start"). *)
Lemma C7_drag_scenario_emits_tap_start :
  recognized g_tap
    (feed (fun _ => false) (fun _ => false)
       (drag_scenario false 1000 1100 None false false false)
       createInputSystem).2
  = [gs_start].
Proof. reflexivity. Qed.

End TapDragScenarios.

(* ------------------------------------------------------------------ *)
(** ** Application lifecycle *)
(* ------------------------------------------------------------------ *)

Section LifecycleFacts.
Import App App.Lifecycle.

(** Whether the descriptor registered for [appId] declares
    [supportsBackgroundMode]. *)
Definition declares_background_mode (registry : Registry.t) (appId : string)
    : bool :=
  JS.truthyB
    (Registry.getApplication appId registry
       ≫= (fun a => supportsBackgroundMode (capabilities (Registry.manifest a)))).

(** Whether the descriptor registered for [appId] declares singleton
    launch. *)
Definition declares_singleton (registry : Registry.t) (appId : string) : bool :=
  JS.truthyB
    (Registry.getApplication appId registry
       ≫= (fun a => launchOptions (Registry.manifest a) ≫= singleton)).

Lemma terminate_live registry instanceId reason L inst :
  JSMap.get instanceId (instances L) = Some inst ->
  let r := terminate registry instanceId reason L in
  terminations instanceId r.2 = [reason]
  /\ getInstance instanceId r.1 = None.
Proof.
  intros Hget. unfold terminate, transitionState. rewrite Hget.
  rewrite bool_decide_eq_true_2 by done. simpl. split.
  - unfold terminations.
    destruct (Registry.getApplication _ _ ≫= _) as [[|?]|]; simpl;
      rewrite bool_decide_eq_true_2 by done; done.
  - unfold getInstance. simpl. apply get_delete_eq.
Qed.

Lemma remove_last_window registry L instanceId windowId inst :
  JSMap.get instanceId (instances L) = Some inst ->
  windowIds inst = [windowId] ->
  let r := removeWindowFromInstance registry instanceId windowId L in
  if declares_background_mode registry (i_appId inst)
  then terminations instanceId r.2 = []
       /\ getInstance instanceId r.1 = Some (set_windowIds [] inst)
  else terminations instanceId r.2 = [Some "No windows remaining"]
       /\ getInstance instanceId r.1 = None.
Proof.
  intros Hget Hws. unfold removeWindowFromInstance. rewrite Hget, Hws.
  rewrite filter_cons_False by (intros H; by apply H).
  rewrite filter_nil. simpl.
  unfold declares_background_mode.
  destruct (JS.truthyB _); simpl.
  - split; [done|]. unfold getInstance. simpl.
    rewrite get_update_eq, Hget. done.
  - eapply terminate_live. simpl. rewrite get_update_eq, Hget. done.
Qed.

(** C5, as amended.  Removing the last window identity of a live
    instance terminates it exactly once, with reason "No windows
    remaining", when its descriptor does not declare
    [supportsBackgroundMode] (or is no longer registered); when the
    descriptor declares it, the instance stays, with no window, and is not
    terminated. *)
Theorem C5_last_window_removal_terminates :
  forall registry L instanceId windowId inst,
    JSMap.get instanceId (instances L) = Some inst ->
    windowIds inst = [windowId] ->
    let r := removeWindowFromInstance registry instanceId windowId L in
    (declares_background_mode registry (i_appId inst) = false ->
       terminations instanceId r.2 = [Some "No windows remaining"]
       /\ getInstance instanceId r.1 = None)
    /\ (declares_background_mode registry (i_appId inst) = true ->
          terminations instanceId r.2 = []
          /\ getInstance instanceId r.1 = Some (set_windowIds [] inst)).
Proof.
  intros registry L instanceId windowId inst Hget Hws.
  pose proof (remove_last_window registry L instanceId windowId inst Hget Hws) as H.
  simpl in *. split; intros Hd; rewrite Hd in H; exact H.
Qed.

(** A registry with one application, "notes", which declares no
    background mode and singleton launch, and "player", which declares
    background mode. *)
Definition sample_component : ApplicationComponent :=
  {| onMount := None; onUnmount := None; onSuspend := None; onResume := None |}.

Definition sample_manifest (name : string) (background single : option bool)
    : ApplicationManifest :=
  {| metadata := {| id := name; App.name := name; version := "1.0.0";
                    description := None; keywords := None |};
     capabilities := {| supportsMultipleInstances := None; supportsSuspend := None;
                        supportsBackgroundMode := background |};
     launchOptions := Some {| singleton := single; autoStart := None;
                              hidden := None |} |}.

Definition sample_registry : Registry.t :=
  [("notes", {| Registry.manifest := sample_manifest "notes" (Some false) (Some true);
                Registry.component := sample_component;
                Registry.registeredAt := 0 |});
   ("player", {| Registry.manifest := sample_manifest "player" (Some true) None;
                 Registry.component := sample_component;
                 Registry.registeredAt := 0 |})].

Definition sample_context : ApplicationContext :=
  {| args := None; workingDirectory := None |}.

Definition sample_instance (appId instanceId : string) (ws : list string)
    : ApplicationInstance :=
  {| i_id := instanceId; i_appId := appId; i_state := running;
     windowIds := ws; startTime := 10; lastActiveTime := 10;
     context := sample_context |}.

Definition sample_lifecycle : t :=
  {| instances := [("notes-1", sample_instance "notes" "notes-1" ["w1"]);
                   ("player-1", sample_instance "player" "player-1" ["w2"])];
     messageHandlers := [] |}.

Lemma C5_last_window_removal_witness :
  (terminations "notes-1"
     (removeWindowFromInstance sample_registry "notes-1" "w1" sample_lifecycle).2
   = [Some "No windows remaining"]
   /\ getInstance "notes-1"
        (removeWindowFromInstance sample_registry "notes-1" "w1" sample_lifecycle).1
      = None)
  /\ (terminations "player-1"
        (removeWindowFromInstance sample_registry "player-1" "w2" sample_lifecycle).2
      = []
      /\ getInstance "player-1"
           (removeWindowFromInstance sample_registry "player-1" "w2" sample_lifecycle).1
         = Some (set_windowIds [] (sample_instance "player" "player-1" ["w2"]))).
Proof.
  split.
  - apply (C5_last_window_removal_terminates sample_registry sample_lifecycle
             "notes-1" "w1" (sample_instance "notes" "notes-1" ["w1"]));
      reflexivity.
  - apply (C5_last_window_removal_terminates sample_registry sample_lifecycle
             "player-1" "w2" (sample_instance "player" "player-1" ["w2"]));
      reflexivity.
Defined.

(** C5, as stated, fails on the reason: the text passed to [terminate]
    is "No windows remaining", not "no windows remaining". *)
Lemma C5_reason_is_capitalized :
  terminations "notes-1"
    (removeWindowFromInstance sample_registry "notes-1" "w1" sample_lifecycle).2
  <> [Some "no windows remaining"].
Proof. vm_compute. intros H. discriminate H. Qed.

(** The bridge's reaction to a window's [destroy] event is that removal. *)
Lemma bridge_destroy_removes_window registry windowToInstance L windowId instanceId :
  windowToInstance !! windowId = Some instanceId ->
  instanceId <> "" ->
  Bridge.handleWindowDestroy registry windowId windowToInstance L
  = (delete windowId windowToInstance,
     (removeWindowFromInstance registry instanceId windowId L).1,
     (removeWindowFromInstance registry instanceId windowId L).2).
Proof.
  intros Hw Hne. unfold Bridge.handleWindowDestroy. rewrite Hw. simpl.
  apply String.eqb_neq in Hne. rewrite Hne. simpl.
  by destruct (removeWindowFromInstance _ _ _ _).
Qed.

End LifecycleFacts.

(** ** Singleton launch *)

Section SingletonLaunch.
Import App App.Lifecycle.

(** The instances are stored under their own identity, each once. *)
Definition stored_by_id (L : t) : Prop :=
  NoDup (JSMap.keys (instances L))
  /\ forall k i, (k, i) ∈ instances L -> i_id i = k.

Definition first_of_app (appId : string) (m : JSMap.t ApplicationInstance)
    : option ApplicationInstance :=
  head (filter (fun i => i_appId i = appId) (JSMap.values m)).

Lemma first_of_app_elem appId m e :
  first_of_app appId m = Some e -> i_appId e = appId /\ exists k, (k, e) ∈ m.
Proof.
  unfold first_of_app. intros H. apply head_Some_elem_of in H.
  apply list_elem_of_filter in H as [Hp Hin]. split; [done|].
  unfold JSMap.values in Hin. apply list_elem_of_fmap in Hin as [[k e'] [-> Hin]].
  by exists k.
Qed.

Lemma first_of_app_exists appId m k e0 :
  (k, e0) ∈ m -> i_appId e0 = appId -> is_Some (first_of_app appId m).
Proof.
  intros Hin Happ. unfold first_of_app.
  destruct (filter _ (JSMap.values m)) as [|e l] eqn:E; [|by eexists].
  exfalso. assert (e0 ∈ filter (fun i => i_appId i = appId) (JSMap.values m)) as H.
  { apply list_elem_of_filter. split; [done|].
    unfold JSMap.values. apply list_elem_of_fmap. by exists (k, e0). }
  rewrite E in H. by apply elem_of_nil in H.
Qed.

(** Updating the instance stored under [k] by a function that keeps the
    application identity updates the instance found, if it is that one. *)
Lemma first_of_app_update appId m k f :
  NoDup (JSMap.keys m) ->
  (forall k' i, (k', i) ∈ m -> i_id i = k') ->
  (forall i, i_appId (f i) = i_appId i) ->
  first_of_app appId (JSMap.update k f m)
  = (fun e => if String.eqb (i_id e) k then f e else e) <$> first_of_app appId m.
Proof.
  intros Hnd Hid Hf. unfold first_of_app.
  induction m as [|[k0 i0] m IH]; simpl; [done|].
  apply list.NoDup_cons in Hnd as [Hk0 Hnd].
  assert (i_id i0 = k0) as Hi0 by (apply Hid; left).
  assert (forall k' i, (k', i) ∈ m -> i_id i = k') as Hid'
    by (intros k' i Hin; apply Hid; by right).
  specialize (IH Hnd Hid').
  destruct (String.eqb k k0) eqn:E; simpl.
  - apply String.eqb_eq in E. rewrite <- E in *. clear E.
    destruct (decide (i_appId i0 = appId)) as [Hp|Hp].
    + rewrite !filter_cons_True by (rewrite ?Hf; done). simpl.
      rewrite Hi0, eqb_refl_true. done.
    + rewrite !filter_cons_False by (rewrite ?Hf; done).
      destruct (head (filter _ (JSMap.values m))) as [e|] eqn:Eh; simpl; [|done].
      assert (String.eqb (i_id e) k = false) as ->; [|done].
      apply String.eqb_neq. intros Heq.
      apply head_Some_elem_of, list_elem_of_filter in Eh as [_ Hin].
      unfold JSMap.values in Hin.
      apply list_elem_of_fmap in Hin as [[k' e'] [-> Hin]]. simpl in *.
      apply Hk0. rewrite <- Heq, (Hid' _ _ Hin).
      change (JSMap.keys m) with (map fst m).
      apply list_elem_of_fmap. by exists (k', e').
  - apply String.eqb_neq in E.
    destruct (decide (i_appId i0 = appId)) as [Hp|Hp].
    + rewrite !filter_cons_True by done. simpl.
      assert (String.eqb (i_id i0) k = false) as ->; [|done].
      apply String.eqb_neq. congruence.
    + rewrite !filter_cons_False by done. exact IH.
Qed.

(** Storing an instance of an application that had none makes it the one
    found. *)
Lemma first_of_app_set appId m k v :
  first_of_app appId m = None -> i_appId v = appId ->
  first_of_app appId (JSMap.set k v m) = Some v.
Proof.
  unfold first_of_app. intros Hnone Hv.
  induction m as [|[k0 i0] m IH]; simpl.
  - by rewrite filter_cons_True.
  - simpl in Hnone.
    destruct (decide (i_appId i0 = appId)) as [Hp|Hp].
    { rewrite filter_cons_True in Hnone by done. done. }
    rewrite filter_cons_False in Hnone by done.
    destruct (String.eqb k k0); simpl.
    + rewrite filter_cons_True by done. done.
    + rewrite filter_cons_False by done. by apply IH.
Qed.

Lemma stored_by_id_update L k f :
  (forall i, i_id (f i) = i_id i) ->
  stored_by_id L -> stored_by_id (with_instances (JSMap.update k f) L).
Proof.
  intros Hf [Hnd Hid]. split; simpl.
  - by rewrite keys_update.
  - intros k' i Hin.
    induction (instances L) as [|[k0 i0] m IH]; simpl in *.
    { by apply elem_of_nil in Hin. }
    destruct (String.eqb k k0) eqn:E.
    + apply elem_of_cons in Hin as [Heq|Hin].
      * injection Heq as -> ->. rewrite Hf. apply Hid. left.
      * apply Hid. by right.
    + apply elem_of_cons in Hin as [Heq|Hin].
      * injection Heq as -> ->. apply Hid. left.
      * apply list.NoDup_cons in Hnd as [_ Hnd]. apply IH; [done| |done].
        intros k1 i1 H1. apply Hid. by right.
Qed.

Lemma stored_by_id_set L i :
  stored_by_id L -> stored_by_id (with_instances (JSMap.set (i_id i) i) L).
Proof.
  intros [Hnd Hid]. split; simpl.
  - destruct (JSMap.get (i_id i) (instances L)) eqn:E.
    + rewrite keys_set_old by eauto. done.
    + rewrite keys_set_new by done.
      apply list.NoDup_app. split; [done|]. split; [|apply list.NoDup_singleton].
      intros k Hk Hk'. apply list_elem_of_singleton in Hk'. subst k.
      by apply get_None_keys in E.
  - intros k' i' Hin.
    induction (instances L) as [|[k0 i0] m IH]; simpl in *.
    { apply list_elem_of_singleton in Hin. by injection Hin as -> ->. }
    destruct (String.eqb (i_id i) k0) eqn:E.
    + apply String.eqb_eq in E.
      apply elem_of_cons in Hin as [Heq|Hin].
      * by injection Heq as -> ->.
      * apply Hid. by right.
    + apply elem_of_cons in Hin as [Heq|Hin].
      * injection Heq as -> ->. apply Hid. left.
      * apply list.NoDup_cons in Hnd as [_ Hnd]. apply IH; [done| |done].
        intros k1 i1 H1. apply Hid. by right.
Qed.

Lemma stored_get L k i :
  stored_by_id L -> (k, i) ∈ instances L ->
  JSMap.get (i_id i) (instances L) = Some i.
Proof.
  intros [Hnd Hid] Hin. rewrite (Hid _ _ Hin). by apply elem_of_get.
Qed.

(** The launch of a singleton application that has an instance. *)
Lemma launch_existing registry L appId ctx now suffix e :
  stored_by_id L ->
  declares_singleton registry appId = true ->
  findInstanceByAppId appId L = Some e ->
  launch registry appId ctx now suffix L
  = Returned (focusInstance (i_id e) now L, [], set_lastActiveTime now e).
Proof.
  intros Hwf Hs He. unfold launch, declares_singleton in *.
  destruct (Registry.getApplication appId registry) as [app|]; [|done].
  simpl in Hs. rewrite Hs, He.
  destruct (first_of_app_elem _ _ _ He) as [_ [k Hin]].
  unfold deref, focusInstance. simpl.
  rewrite get_update_eq, (stored_get _ _ _ Hwf Hin). done.
Qed.

Lemma deref_get i L i' :
  JSMap.get (i_id i) (instances L) = Some i' -> deref i L = i'.
Proof. intros H. unfold deref. by rewrite H. Qed.

Lemma transitionState_hit instanceId from to L inst :
  JSMap.get instanceId (instances L) = Some inst ->
  i_state inst = from ->
  transitionState instanceId from to L
  = (with_instances (JSMap.update instanceId (set_state to)) L,
     [Emit (ev_stateChange instanceId from to)]).
Proof.
  intros Hg Hs. unfold transitionState. rewrite Hg.
  by rewrite bool_decide_eq_true_2.
Qed.

Lemma find_after_update L appId k f e :
  stored_by_id L ->
  (forall i, i_appId (f i) = i_appId i) ->
  findInstanceByAppId appId L = Some e -> i_id e = k ->
  findInstanceByAppId appId (with_instances (JSMap.update k f) L) = Some (f e).
Proof.
  intros [Hnd Hid] Hf He Hk. unfold findInstanceByAppId. simpl.
  change (head (filter _ (JSMap.values ?m))) with (first_of_app appId m).
  rewrite first_of_app_update by done.
  change (first_of_app appId (instances L)) with (findInstanceByAppId appId L).
  rewrite He. simpl. by rewrite Hk, eqb_refl_true.
Qed.

Lemma find_after_focus L appId now e :
  stored_by_id L ->
  findInstanceByAppId appId L = Some e ->
  findInstanceByAppId appId (focusInstance (i_id e) now L)
  = Some (set_lastActiveTime now e).
Proof. intros Hwf He. by apply (find_after_update L). Qed.

(** Any successful launch of a singleton application leaves the launched
    instance as the one found for the application. *)
Lemma launch_found registry L appId ctx now suffix L1 fx1 i1 :
  stored_by_id L ->
  declares_singleton registry appId = true ->
  launch registry appId ctx now suffix L = Returned (L1, fx1, i1) ->
  stored_by_id L1 /\ findInstanceByAppId appId L1 = Some i1.
Proof.
  intros Hwf Hs Hl.
  destruct (findInstanceByAppId appId L) as [e|] eqn:He.
  - rewrite (launch_existing _ _ _ _ _ _ e Hwf Hs He) in Hl.
    injection Hl as <- <- <-. split.
    + by apply stored_by_id_update.
    + by apply find_after_focus.
  - unfold launch, declares_singleton in *.
    destruct (Registry.getApplication appId registry) as [app|]; [|done].
    simpl in Hs. rewrite Hs, He in Hl.
    set (instanceId := (appId ++ "-" ++ suffix)%string) in *.
    set (inst := {| i_id := instanceId; i_appId := appId; i_state := loading;
                    windowIds := []; startTime := now; lastActiveTime := now;
                    context := ctx |}) in *.
    set (La := with_instances (JSMap.set instanceId inst) L) in *.
    assert (stored_by_id La) as Hwfa by (apply (stored_by_id_set L inst Hwf)).
    assert (findInstanceByAppId appId La = Some inst) as Hfa
      by (by apply first_of_app_set).
    assert (JSMap.get instanceId (instances La) = Some inst) as Hga
      by apply get_set_eq.
    rewrite (transitionState_hit instanceId loading running La inst Hga eq_refl) in Hl.
    set (Lb := with_instances (JSMap.update instanceId (set_state running)) La) in *.
    assert (stored_by_id Lb) as Hwfb by (by apply stored_by_id_update).
    assert (findInstanceByAppId appId Lb = Some (set_state running inst)) as Hfb
      by (by apply find_after_update).
    assert (JSMap.get instanceId (instances Lb) = Some (set_state running inst)) as Hgb.
    { change (JSMap.get instanceId
                (JSMap.update instanceId (set_state running) (instances La))
              = Some (set_state running inst)).
      by rewrite get_update_eq, Hga. }
    destruct (onMount (Registry.component app)) as [hook|].
    + destruct (hook ctx) as [|err].
      * injection Hl as <- <- <-. split; [done|].
        rewrite (deref_get inst Lb _ Hgb). exact Hfb.
      * rewrite (transitionState_hit instanceId running crashed Lb _ Hgb eq_refl) in Hl.
        injection Hl as <- <- <-. split; [by apply stored_by_id_update|].
        erewrite (deref_get inst); [by apply (find_after_update Lb)|].
        change (JSMap.get instanceId
                  (JSMap.update instanceId (set_state crashed) (instances Lb))
                = Some (set_state crashed (set_state running inst))).
        by rewrite get_update_eq, Hgb.
    + injection Hl as <- <- <-. split; [done|].
      rewrite (deref_get inst Lb _ Hgb). exact Hfb.
Qed.

(** The instance found for an application is the first of its instances
    in insertion order. *)
Lemma first_of_app_first appId m e :
  first_of_app appId m = Some e ->
  exists before after,
    JSMap.values m = before ++ e :: after
    /\ Forall (fun i => i_appId i <> appId) before.
Proof.
  unfold first_of_app. induction (JSMap.values m) as [|i l IH]; [done|].
  destruct (decide (i_appId i = appId)) as [Hp|Hp].
  - rewrite filter_cons_True by done. intros [= ->].
    exists [], l. by split.
  - rewrite filter_cons_False by done. intros He.
    destruct (IH He) as (before & after & -> & Hb).
    exists (i :: before), after. split; [done|]. by constructor.
Qed.

(** C6, as amended.  For a registered descriptor that declares singleton
    launch and a lifecycle manager that holds an instance of that
    application, in whatever state: [launch] returns the instance that
    [findInstanceByAppId] finds, the first instance of the application in
    insertion order (so the running instance, when it is the only one),
    with [lastActiveTime] set to the time of the call and nothing else
    changed, its state included; it creates no instance and emits no
    event, and launching again returns the same identity.  And launching
    twice without terminating returns the same instance identity both
    times, the second launch emitting nothing and creating nothing. *)
Theorem C6_singleton_launch_returns_first_instance :
  forall registry L appId ctx now suffix,
    stored_by_id L ->
    declares_singleton registry appId = true ->
    (forall k e0, (k, e0) ∈ instances L -> i_appId e0 = appId ->
       exists e L' i',
         findInstanceByAppId appId L = Some e
         /\ (exists before after,
               getAllInstances L = before ++ e :: after
               /\ Forall (fun i => i_appId i <> appId) before)
         /\ ((forall k1 e1, (k1, e1) ∈ instances L -> i_appId e1 = appId -> e1 = e0)
             -> e = e0)
         /\ launch registry appId ctx now suffix L = Returned (L', [], i')
         /\ i_id i' = i_id e /\ i_appId i' = appId
         /\ lastActiveTime i' = now
         /\ i_state i' = i_state e /\ windowIds i' = windowIds e
         /\ startTime i' = startTime e /\ context i' = context e
         /\ getInstance (i_id e) L' = Some i'
         /\ (forall k1, k1 <> i_id e -> getInstance k1 L' = getInstance k1 L)
         /\ JSMap.keys (instances L') = JSMap.keys (instances L)
         /\ messageHandlers L' = messageHandlers L
         /\ forall ctx2 now2 suffix2,
              exists L2 i2,
                launch registry appId ctx2 now2 suffix2 L' = Returned (L2, [], i2)
                /\ i_id i2 = i_id e /\ lastActiveTime i2 = now2
                /\ i_state i2 = i_state e)
    /\ (forall L1 fx1 i1 ctx2 now2 suffix2,
          launch registry appId ctx now suffix L = Returned (L1, fx1, i1) ->
          exists L2 i2,
            launch registry appId ctx2 now2 suffix2 L1 = Returned (L2, [], i2)
            /\ i_id i2 = i_id i1 /\ lastActiveTime i2 = now2
            /\ JSMap.keys (instances L2) = JSMap.keys (instances L1)).
Proof.
  intros registry L appId ctx now suffix Hwf Hs. split.
  - intros k e0 Hin Happ.
    destruct (first_of_app_exists appId (instances L) k e0 Hin Happ) as [e He].
    destruct (first_of_app_elem _ _ _ He) as [Ha [k' Hin']].
    pose proof (stored_get _ _ _ Hwf Hin') as Hg.
    exists e, (focusInstance (i_id e) now L), (set_lastActiveTime now e).
    split; [exact He|]. split; [by apply first_of_app_first|].
    split; [intros Huniq; by apply (Huniq k' e)|].
    split; [by apply launch_existing|].
    do 7 (split; [done|]).
    split; [unfold getInstance, focusInstance; simpl; by rewrite get_update_eq, Hg|].
    split.
    { intros k1 Hk1. unfold getInstance, focusInstance. simpl.
      by apply get_update_ne. }
    split; [simpl; apply keys_update|]. split; [done|].
    intros ctx2 now2 suffix2.
    assert (stored_by_id (focusInstance (i_id e) now L)) as Hwf'
      by (by apply stored_by_id_update).
    pose proof (find_after_focus L appId now e Hwf He) as He'.
    exists (focusInstance (i_id e) now2 (focusInstance (i_id e) now L)),
      (set_lastActiveTime now2 (set_lastActiveTime now e)).
    split; [|done].
    by rewrite (launch_existing registry _ appId ctx2 now2 suffix2 _ Hwf' Hs He').
  - intros L1 fx1 i1 ctx2 now2 suffix2 Hl.
    destruct (launch_found _ _ _ _ _ _ _ _ _ Hwf Hs Hl) as [Hwf1 Hf1].
    exists (focusInstance (i_id i1) now2 L1), (set_lastActiveTime now2 i1).
    split; [by apply launch_existing|]. split; [done|]. split; [done|].
    simpl. apply keys_update.
Qed.

Lemma C6_singleton_launch_witness :
  exists L' i',
    launch sample_registry "notes" sample_context 99 "99-abc" sample_lifecycle
    = Returned (L', [], i')
    /\ i_id i' = "notes-1" /\ lastActiveTime i' = 99 /\ i_state i' = running
    /\ JSMap.keys (instances L') = ["notes-1"; "player-1"].
Proof.
  assert (stored_by_id sample_lifecycle) as Hwf.
  { split.
    - simpl. apply list.NoDup_cons. split; [|apply list.NoDup_singleton].
      intros H. apply list_elem_of_singleton in H. discriminate H.
    - intros k i Hin. simpl in Hin.
      apply elem_of_cons in Hin as [Heq|Hin]; [by injection Heq as -> ->|].
      apply list_elem_of_singleton in Hin. by injection Hin as -> ->. }
  destruct (C6_singleton_launch_returns_first_instance sample_registry
              sample_lifecycle "notes" sample_context 99 "99-abc"
              Hwf eq_refl) as [H _].
  destruct (H "notes-1" (sample_instance "notes" "notes-1" ["w1"]))
    as (e & L' & i' & He & _ & _ & Hl & Hid & _ & Ht & Hst & _ & _ & _ & _ & _ & Hk & _);
    [left | reflexivity |].
  injection He as <-.
  exists L', i'. split; [exact Hl|]. split; [exact Hid|]. split; [exact Ht|].
  split; [exact Hst|]. exact Hk.
Defined.

(** An application whose [onMount] fails when it is given a working
    directory. *)
Definition flaky_component : ApplicationComponent :=
  {| onMount := Some (fun ctx => match workingDirectory ctx with
                                 | Some _ => throws "cannot open the directory"
                                 | None => returns
                                 end);
     onUnmount := None; onSuspend := None; onResume := None |}.

Definition in_directory (dir : string) : ApplicationContext :=
  {| args := None; workingDirectory := Some dir |}.

(** What a call that returns leaves. *)
Definition registered (r : outcome (Registry.t * list Effect)) : Registry.t :=
  match r with Returned (registry, _) => registry | Thrown _ => [] end.

Definition launched (r : outcome (t * list Effect * ApplicationInstance)) : t :=
  match r with
  | Returned (L, _, _) => L
  | Thrown _ => createApplicationLifecycleManager
  end.

(** "editor" registered as an ordinary application, and registered anew
    as a singleton. *)
Definition editor_registry : Registry.t :=
  registered (Registry.register (sample_manifest "editor" None None) flaky_component 0
                Registry.createApplicationRegistry).

Definition editor_singleton_registry : Registry.t :=
  registered (Registry.register (sample_manifest "editor" None (Some true))
                flaky_component 30
                (Registry.unregister "editor" editor_registry).1.1).

(** Two launches of the ordinary application: the first one crashes in
    [onMount], the second one runs. *)
Definition two_editors : t :=
  launched
    (launch editor_registry "editor" sample_context 20 "20-b"
       (launched
          (launch editor_registry "editor" (in_directory "/gone") 10 "10-a"
             createApplicationLifecycleManager))).

(** C6, as stated, fails: a running instance of the singleton application
    exists, and [launch] returns another instance, a crashed one that was
    stored before it (still crashed, marked active). *)
Lemma C6_crashed_instance_is_returned :
  (i_state <$> getInstance "editor-10-a" two_editors = Some crashed)
  /\ (i_state <$> getInstance "editor-20-b" two_editors = Some running)
  /\ (i_appId <$> getInstance "editor-20-b" two_editors = Some "editor")
  /\ JSMap.keys (instances two_editors) = ["editor-10-a"; "editor-20-b"]
  /\ declares_singleton editor_singleton_registry "editor" = true
  /\ exists L' i',
       launch editor_singleton_registry "editor" sample_context 40 "40-c" two_editors
       = Returned (L', [], i')
       /\ i_id i' = "editor-10-a" /\ i_state i' = crashed /\ lastActiveTime i' = 40
       /\ i_id i' <> "editor-20-b".
Proof.
  split; [reflexivity|]. split; [reflexivity|]. split; [reflexivity|].
  split; [reflexivity|]. split; [reflexivity|].
  eexists _, _. split; [vm_compute; reflexivity|].
  split; [reflexivity|]. split; [reflexivity|]. split; [reflexivity|]. discriminate.
Qed.

End SingletonLaunch.

(* ------------------------------------------------------------------ *)
(** ** Window manager *)
(* ------------------------------------------------------------------ *)

Section WindowManagerFacts.
Import WM.

Implicit Types (m : Manager) (st : WindowManagerState) (ws : JSMap.t WindowState).

(** *** Updates of the window map *)

Lemma get_update_map {A} (g : WindowState -> A) (f : WindowState -> WindowState)
    k k' ws :
  (forall w, g (f w) = g w) ->
  g <$> JSMap.get k' (JSMap.update k f ws) = g <$> JSMap.get k' ws.
Proof.
  intros Hg. destruct (decide (k' = k)) as [->|Hne].
  - rewrite get_update_eq. destruct (JSMap.get k ws); simpl; [|done].
    by rewrite Hg.
  - by rewrite get_update_ne.
Qed.

Lemma keys_renumber n order ws :
  JSMap.keys (renumber n order ws) = JSMap.keys ws.
Proof.
  revert n ws. induction order as [|id order IH]; intros n ws; simpl; [done|].
  by rewrite IH, keys_update.
Qed.

(** Renumbering changes nothing but the z-indices. *)
Lemma get_renumber_map {A} (g : WindowState -> A) n order k ws :
  (forall z w, g (set_zIndex z w) = g w) ->
  g <$> JSMap.get k (renumber n order ws) = g <$> JSMap.get k ws.
Proof.
  intros Hg. revert n ws. induction order as [|id order IH]; intros n ws; simpl.
  - done.
  - rewrite IH. by apply get_update_map.
Qed.

Lemma get_is_Some_update k k' f ws :
  is_Some (JSMap.get k' (JSMap.update k f ws)) <-> is_Some (JSMap.get k' ws).
Proof. by rewrite !get_Some_keys, keys_update. Qed.

Lemma get_is_Some_renumber n order k ws :
  is_Some (JSMap.get k (renumber n order ws)) <-> is_Some (JSMap.get k ws).
Proof. by rewrite !get_Some_keys, keys_renumber. Qed.

(** *** The stacking order is a permutation of the live windows *)

Definition order_matches_windows st : Prop :=
  NoDup (JSMap.keys (windows st))
  /\ NoDup (windowOrder st)
  /\ forall id, id ∈ windowOrder st <-> id ∈ JSMap.keys (windows st).

Lemma order_matches_new : order_matches_windows (state createWindowManager).
Proof.
  split; [apply base.NoDup_nil_2|]. split; [apply base.NoDup_nil_2|]. done.
Qed.

Lemma order_matches_update k f st :
  order_matches_windows st ->
  order_matches_windows (with_windows (JSMap.update k f) st).
Proof.
  intros (Hk & Ho & Hm). split; [|split]; simpl; rewrite ?keys_update; done.
Qed.

Lemma order_matches_focused f st :
  order_matches_windows st -> order_matches_windows (with_focusedWindowId f st).
Proof. done. Qed.

Lemma order_matches_bringToFront id st :
  order_matches_windows st -> order_matches_windows (bringToFront id st).
Proof.
  intros (Hk & Ho & Hm). unfold bringToFront.
  destruct (JSMap.get id (windows st)) eqn:Hg; [|done].
  assert (id ∈ JSMap.keys (windows st)) as Hin by (apply get_Some_keys; eauto).
  split; [|split]; simpl; rewrite ?keys_renumber.
  - done.
  - apply list.NoDup_app. split; [by apply list.NoDup_filter|].
    split; [|apply list.NoDup_singleton].
    intros k Hk1 Hk2. apply list_elem_of_singleton in Hk2. subst k.
    apply list_elem_of_filter in Hk1 as [Hne _]. done.
  - intros k. rewrite elem_of_app, list_elem_of_filter, list_elem_of_singleton.
    rewrite Hm. destruct (decide (k = id)) as [->|Hne]; tauto.
Qed.

Lemma order_matches_focusWindow id m :
  order_matches_windows (state m) ->
  order_matches_windows (state (focusWindow id m).1).
Proof.
  intros H. unfold focusWindow.
  destruct (JSMap.get id (windows (state m))) as [w|]; [|done].
  destruct (isMinimized w); [done|].
  set (blurred := match focusedWindowId (state m) with Some _ => _ | None => _ end).
  assert (order_matches_windows blurred.1) as Hb.
  { unfold blurred. destruct (focusedWindowId (state m)) as [f|]; [|done].
    destruct (_ && _); [|done].
    destruct (JSMap.get f _); [|done]. by apply order_matches_update. }
  destruct blurred as [st1 fx1]. simpl in *.
  by apply order_matches_update, order_matches_bringToFront.
Qed.

Lemma order_matches_step o m :
  order_matches_windows (state m) -> order_matches_windows (state (step o m)).
Proof.
  intros H. pose proof H as (Hk & Ho & Hm). destruct o as [wid app b c md|wid|wid|wid|wid|wid|wid p|wid sz|]; simpl.
  - (* createWindow *)
    unfold createWindow, JSMap.has.
    destruct (JSMap.get wid (windows (state m))) eqn:Hg; [done|]. simpl.
    assert (wid ∉ JSMap.keys (windows (state m))) as Hnin by (by apply get_None_keys).
    split; [|split]; simpl; rewrite ?keys_set_new by done.
    + apply list.NoDup_app. split; [done|]. split; [|apply list.NoDup_singleton].
      intros k Hk1 Hk2. apply list_elem_of_singleton in Hk2. by subst k.
    + apply list.NoDup_app. split; [done|]. split; [|apply list.NoDup_singleton].
      intros k Hk1 Hk2. apply list_elem_of_singleton in Hk2. subst k.
      by apply Hm in Hk1.
    + intros k. rewrite !elem_of_app, Hm. done.
  - (* destroyWindow *)
    unfold destroyWindow.
    destruct (JSMap.get wid (windows (state m))) eqn:Hg; [|done].
    set (st1 := {| windows := JSMap.delete wid (windows (state m));
                   windowOrder := filter (fun wId => wId ≠ wid) (windowOrder (state m));
                   focusedWindowId := focusedWindowId (state m);
                   nextZIndex := nextZIndex (state m) |}).
    assert (order_matches_windows st1) as H1.
    { split; [|split]; simpl; rewrite ?keys_delete.
      - by apply list.NoDup_filter.
      - by apply list.NoDup_filter.
      - intros k. rewrite !list_elem_of_filter, Hm. done. }
    destruct (bool_decide _); [|done].
    destruct (getTopmostWindow st1); done.
  - by apply order_matches_focusWindow.
  - (* minimizeWindow *)
    unfold minimizeWindow.
    destruct (JSMap.get wid (windows (state m))) as [w|]; [|done].
    destruct (isMinimized w); [done|].
    set (st1 := with_windows _ (state m)).
    assert (order_matches_windows st1) as H1 by (by apply order_matches_update).
    destruct (bool_decide _).
    + destruct (getTopmostWindow st1) as [next|].
      * pose proof (order_matches_focusWindow (WM.id next) (with_state st1 m) H1) as Hf.
        by destruct (focusWindow (WM.id next) (with_state st1 m)).
      * done.
    + done.
  - (* maximizeWindow *)
    unfold maximizeWindow.
    destruct (JSMap.get wid (windows (state m))) as [w|]; [|done].
    destruct (isMaximized w); [done|]. by apply order_matches_update.
  - (* restoreWindow *)
    unfold restoreWindow.
    destruct (JSMap.get wid (windows (state m))) as [w|]; [|done].
    destruct (isMinimized w).
    + set (st1 := with_windows _ (state m)).
      assert (order_matches_windows st1) as H1 by (by apply order_matches_update).
      pose proof (order_matches_focusWindow wid (with_state st1 m) H1) as Hf.
      by destruct (focusWindow wid (with_state st1 m)).
    + destruct (isMaximized w); [|done]. by apply order_matches_update.
  - (* moveWindow *)
    unfold moveWindow.
    destruct (JSMap.get wid (windows (state m))) as [w|]; [|done].
    destruct (forbids _ _); [done|]. by apply order_matches_update.
  - (* resizeWindow *)
    unfold resizeWindow.
    destruct (JSMap.get wid (windows (state m))) as [w|]; [|done].
    destruct (forbids _ _); [done|]. by apply order_matches_update.
  - (* runTimer *)
    unfold runTimer. destruct (timers m) as [|wid rest]; [done|].
    by apply (order_matches_focusWindow wid (with_timers rest m)).
Qed.

(** In every reachable state the stacking order lists exactly the live
    windows, each once. *)
Lemma reachable_order_matches m :
  reachable m -> order_matches_windows (state m).
Proof.
  induction 1 as [|o m _ IH]; [apply order_matches_new|].
  by apply order_matches_step.
Qed.

End WindowManagerFacts.

(** ** Focus *)

Section FocusFacts.
Import WM.

Implicit Types (m : Manager) (st : WindowManagerState) (ws : JSMap.t WindowState).

(** The state after the blur step of [focusWindow id]. *)
Definition blurred (id : string) st : WindowManagerState :=
  match focusedWindowId st with
  | Some focused =>
      if JS.truthy (Some focused) && negb (String.eqb focused id) then
        match JSMap.get focused (windows st) with
        | Some _ => with_windows (JSMap.update focused (set_isFocused false)) st
        | None => st
        end
      else st
  | None => st
  end.

Lemma focusWindow_state id m w :
  JSMap.get id (windows (state m)) = Some w -> isMinimized w = false ->
  state (focusWindow id m).1
  = with_focusedWindowId (Some id)
      (with_windows (JSMap.update id (set_isFocused true))
         (bringToFront id (blurred id (state m)))).
Proof.
  intros Hg Hmin. unfold focusWindow, blurred. rewrite Hg, Hmin.
  destruct (focusedWindowId (state m)) as [f|]; [|done].
  destruct (_ && _); [|done].
  destruct (JSMap.get f _); done.
Qed.

Lemma focusWindow_noop id m :
  (forall w, JSMap.get id (windows (state m)) = Some w -> isMinimized w = true) ->
  focusWindow id m = (m, []).
Proof.
  intros H. unfold focusWindow.
  destruct (JSMap.get id (windows (state m))) as [w|]; [|done].
  by rewrite (H w eq_refl).
Qed.

(** The blur step clears the focused flag of the window named by
    [focusedWindowId], unless that name is the empty string or [id]. *)
Lemma blurred_get id st k :
  JSMap.get k (windows (blurred id st))
  = if bool_decide (focusedWindowId st = Some k /\ k <> "" /\ k <> id)
    then set_isFocused false <$> JSMap.get k (windows st)
    else JSMap.get k (windows st).
Proof.
  unfold blurred. destruct (focusedWindowId st) as [f|] eqn:Hf.
  - unfold JS.truthy.
    destruct (String.eqb f "") eqn:E1; simpl.
    { apply String.eqb_eq in E1. subst f.
      rewrite bool_decide_eq_false_2; [done|]. intros ([= <-] & Hne & _). done. }
    apply String.eqb_neq in E1.
    destruct (String.eqb f id) eqn:E2; simpl.
    { apply String.eqb_eq in E2. subst f.
      rewrite bool_decide_eq_false_2; [done|]. intros ([= <-] & _ & Hne). done. }
    apply String.eqb_neq in E2.
    destruct (decide (k = f)) as [->|Hk].
    + rewrite bool_decide_eq_true_2 by done.
      destruct (JSMap.get f (windows st)) eqn:Hg; simpl.
      * by rewrite get_update_eq, Hg.
      * by rewrite Hg.
    + rewrite bool_decide_eq_false_2 by (intros ([= <-] & _); done).
      destruct (JSMap.get f (windows st)); simpl; [|done].
      by rewrite get_update_ne.
  - rewrite bool_decide_eq_false_2; [done|]. intros (H & _). done.
Qed.

Lemma blurred_order id st : windowOrder (blurred id st) = windowOrder st.
Proof.
  unfold blurred. destruct (focusedWindowId st) as [f|]; [|done].
  destruct (_ && _); [|done]. destruct (JSMap.get f _); done.
Qed.

(** The windows after [bringToFront], up to their z-indices. *)
Lemma bringToFront_get_map {A} (g : WindowState -> A) id st k :
  (forall z w, g (set_zIndex z w) = g w) ->
  g <$> JSMap.get k (windows (bringToFront id st)) = g <$> JSMap.get k (windows st).
Proof.
  intros Hg. unfold bringToFront. destruct (JSMap.get id (windows st)); [|done].
  simpl. by apply get_renumber_map.
Qed.

Lemma blurred_keys id st :
  JSMap.keys (windows (blurred id st)) = JSMap.keys (windows st).
Proof.
  unfold blurred. destruct (focusedWindowId st) as [f|]; [|done].
  destruct (_ && _); [|done]. destruct (JSMap.get f _); [|done].
  simpl. apply keys_update.
Qed.

Lemma bringToFront_keys id st :
  JSMap.keys (windows (bringToFront id st)) = JSMap.keys (windows st).
Proof.
  unfold bringToFront. destruct (JSMap.get id (windows st)); [|done].
  simpl. apply keys_renumber.
Qed.

(** What the focus invariant rests on: a window flagged as focused is
    the one [focusedWindowId] names and is not minimized; every window is
    visible; no window has the empty identity. *)
Definition focus_consistent st : Prop :=
  (forall k w, JSMap.get k (windows st) = Some w -> isFocused w = true ->
     focusedWindowId st = Some k /\ isMinimized w = false)
  /\ (forall k w, JSMap.get k (windows st) = Some w -> isVisible w = true)
  /\ JSMap.get "" (windows st) = None.

(** Facts about a window read through an [fmap]. *)
Lemma fmap_get_Some {A} (g : WindowState -> A) (o o' : option WindowState) w :
  g <$> o = g <$> o' -> o = Some w -> exists w', o' = Some w' /\ g w' = g w.
Proof.
  intros H ->. destruct o' as [w'|]; simpl in H; [|done].
  exists w'. split; [done|]. congruence.
Qed.

Lemma focus_consistent_focusWindow id m :
  focus_consistent (state m) -> focus_consistent (state (focusWindow id m).1).
Proof.
  intros (Hfoc & Hvis & Hne).
  destruct (JSMap.get id (windows (state m))) as [w|] eqn:Hg; cycle 1.
  { rewrite focusWindow_noop; [done|]. intros w. by rewrite Hg. }
  destruct (isMinimized w) eqn:Hmin.
  { rewrite focusWindow_noop; [done|]. intros w'. rewrite Hg. by intros [= <-]. }
  rewrite (focusWindow_state id m w Hg Hmin).
  set (st1 := blurred id (state m)).
  set (st2 := bringToFront id st1).
  (* every flag of a window of st2 is its flag in st1 *)
  assert (forall {A} (g : WindowState -> A) k,
            (forall z w, g (set_zIndex z w) = g w) ->
            g <$> JSMap.get k (windows st2) = g <$> JSMap.get k (windows st1)) as H21.
  { intros A g k Hgz. by apply bringToFront_get_map. }
  split; [|split]; simpl.
  - intros k w3 Hk Hf3.
    destruct (decide (k = id)) as [->|Hkid].
    + split; [done|].
      rewrite get_update_eq in Hk.
      destruct (JSMap.get id (windows st2)) as [w2|] eqn:H2; [|done].
      injection Hk as <-. simpl.
      destruct (fmap_get_Some isMinimized _ _ w2 (H21 _ isMinimized id (fun _ _ => eq_refl)) H2)
        as (w1 & H1 & <-).
      unfold st1 in H1. rewrite blurred_get in H1.
      rewrite bool_decide_eq_false_2 in H1 by (intros (_ & _ & Hx); done).
      rewrite Hg in H1. by injection H1 as <-.
    + exfalso. rewrite get_update_ne in Hk by done.
      destruct (fmap_get_Some isFocused _ _ w3 (H21 _ isFocused k (fun _ _ => eq_refl)) Hk)
        as (w1 & H1 & Hf1).
      rewrite Hf3 in Hf1.
      unfold st1 in H1. rewrite blurred_get in H1.
      destruct (bool_decide _) eqn:Hb.
      * destruct (JSMap.get k (windows (state m))); [|done].
        injection H1 as <-. done.
      * apply bool_decide_eq_false in Hb. apply Hb.
        destruct (Hfoc k w1 H1 Hf1) as [Hfk _].
        split; [done|]. split; [|done].
        intros ->. congruence.
  - intros k w3 Hk.
    assert (exists w2, JSMap.get k (windows st2) = Some w2 /\ isVisible w2 = isVisible w3)
      as (w2 & H2 & <-).
    { destruct (decide (k = id)) as [->|Hkid].
      - rewrite get_update_eq in Hk.
        destruct (JSMap.get id (windows st2)) as [w2|]; [|done].
        injection Hk as <-. by exists w2.
      - rewrite get_update_ne in Hk by done. by exists w3. }
    destruct (fmap_get_Some isVisible _ _ w2 (H21 _ isVisible k (fun _ _ => eq_refl)) H2)
      as (w1 & H1 & <-).
    unfold st1 in H1. rewrite blurred_get in H1.
    destruct (bool_decide _).
    + destruct (JSMap.get k (windows (state m))) as [w0|] eqn:H0; [|done].
      injection H1 as <-. simpl. by apply (Hvis k).
    + by apply (Hvis k).
  - apply get_None_keys. rewrite keys_update. unfold st2, st1.
    rewrite bringToFront_keys, blurred_keys. by apply get_None_keys.
Qed.

Lemma focus_consistent_update k f st :
  focus_consistent st ->
  (forall w, isFocused (f w) = true ->
     isFocused w = true /\ (isMinimized w = false -> isMinimized (f w) = false)) ->
  (forall w, isVisible w = true -> isVisible (f w) = true) ->
  focus_consistent (with_windows (JSMap.update k f) st).
Proof.
  intros (Hfoc & Hvis & Hne) Hf Hv. split; [|split]; simpl.
  - intros k' w' Hk' Hf'. destruct (decide (k' = k)) as [->|Hkk].
    + rewrite get_update_eq in Hk'.
      destruct (JSMap.get k (windows st)) as [w|] eqn:Hg; [|done].
      injection Hk' as <-. destruct (Hf w Hf') as [Hfw Hmw].
      destruct (Hfoc k w Hg Hfw) as [? ?]. auto.
    + rewrite get_update_ne in Hk' by done. by apply Hfoc.
  - intros k' w' Hk'. destruct (decide (k' = k)) as [->|Hkk].
    + rewrite get_update_eq in Hk'.
      destruct (JSMap.get k (windows st)) as [w|] eqn:Hg; [|done].
      injection Hk' as <-. apply Hv. by apply (Hvis k).
    + rewrite get_update_ne in Hk' by done. by apply (Hvis k').
  - apply get_None_keys. rewrite keys_update. by apply get_None_keys.
Qed.

(** Dropping [focusedWindowId] when no window is flagged as focused. *)
Lemma focus_consistent_unfocused st :
  focus_consistent st ->
  (forall k w, JSMap.get k (windows st) = Some w -> isFocused w = false) ->
  focus_consistent (with_focusedWindowId None st).
Proof.
  intros (Hfoc & Hvis & Hne) Hnone. split; [|split]; simpl; [|done|done].
  intros k w Hk Hf. rewrite (Hnone k w Hk) in Hf. done.
Qed.

(** A public operation that creates no window of empty identity. *)
Definition names_its_window (o : op) : Prop :=
  match o with
  | CreateWindow id _ _ _ _ => id <> ""
  | _ => True
  end.

Lemma focus_consistent_step o m :
  names_its_window o ->
  focus_consistent (state m) -> focus_consistent (state (step o m)).
Proof.
  intros Hname H. pose proof H as (Hfoc & Hvis & Hne).
  destruct o as [wid app b c md|wid|wid|wid|wid|wid|wid p|wid sz|]; simpl in *.
  - (* createWindow *)
    unfold createWindow, JSMap.has.
    destruct (JSMap.get wid (windows (state m))) as [w0|] eqn:Hg; [done|]. simpl.
    split; [|split]; simpl.
    + intros k w Hk Hf. destruct (decide (k = wid)) as [->|Hkw].
      * rewrite get_set_eq in Hk. injection Hk as <-. done.
      * rewrite get_set_ne in Hk by done. by apply Hfoc.
    + intros k w Hk. destruct (decide (k = wid)) as [->|Hkw].
      * rewrite get_set_eq in Hk. by injection Hk as <-.
      * rewrite get_set_ne in Hk by done. by apply (Hvis k).
    + rewrite get_set_ne by done. done.
  - (* destroyWindow *)
    unfold destroyWindow.
    destruct (JSMap.get wid (windows (state m))) as [w0|] eqn:Hg; [|done].
    set (st1 := {| windows := JSMap.delete wid (windows (state m));
                   windowOrder := filter (fun wId => wId ≠ wid) (windowOrder (state m));
                   focusedWindowId := focusedWindowId (state m);
                   nextZIndex := nextZIndex (state m) |}).
    assert (forall k w, JSMap.get k (windows st1) = Some w ->
              k <> wid /\ JSMap.get k (windows (state m)) = Some w) as Hdel.
    { intros k w Hk. simpl in Hk. destruct (decide (k = wid)) as [->|Hkw].
      - by rewrite get_delete_eq in Hk.
      - by rewrite get_delete_ne in Hk. }
    assert (focus_consistent st1) as H1.
    { split; [|split]; simpl.
      - intros k w Hk Hf. destruct (Hdel k w Hk) as [_ Hk']. by apply Hfoc.
      - intros k w Hk. destruct (Hdel k w Hk) as [_ Hk']. by apply (Hvis k).
      - destruct (decide ("" = wid)) as [<-|Hw];
          [apply get_delete_eq | by rewrite get_delete_ne]. }
    destruct (bool_decide (focusedWindowId st1 = Some wid)) eqn:Hb; [|done].
    apply bool_decide_eq_true in Hb.
    destruct (getTopmostWindow st1); [done|]. simpl.
    apply focus_consistent_unfocused; [done|].
    intros k w Hk. destruct (isFocused w) eqn:Hf; [|done].
    destruct (Hdel k w Hk) as [Hkw Hk'].
    destruct (Hfoc k w Hk' Hf) as [Hfk _]. simpl in Hb. congruence.
  - by apply focus_consistent_focusWindow.
  - (* minimizeWindow *)
    unfold minimizeWindow.
    destruct (JSMap.get wid (windows (state m))) as [w|] eqn:Hg; [|done].
    destruct (isMinimized w) eqn:Hmin; [done|].
    set (st1 := with_windows _ (state m)).
    assert (focus_consistent st1) as H1.
    { apply focus_consistent_update; [done| |done]. intros w0 Hf0. done. }
    destruct (bool_decide (focusedWindowId st1 = Some wid)) eqn:Hb; [|done].
    apply bool_decide_eq_true in Hb.
    destruct (getTopmostWindow st1) as [next|].
    + pose proof (focus_consistent_focusWindow (WM.id next) (with_state st1 m) H1) as Hf.
      by destruct (focusWindow (WM.id next) (with_state st1 m)).
    + simpl. apply focus_consistent_unfocused; [done|].
      intros k w1 Hk. destruct (isFocused w1) eqn:Hf; [|done].
      destruct H1 as (Hfoc1 & _ & _).
      destruct (Hfoc1 k w1 Hk Hf) as [Hfk _].
      assert (k = wid) as -> by congruence.
      unfold st1 in Hk. simpl in Hk. rewrite get_update_eq, Hg in Hk.
      injection Hk as <-. done.
  - (* maximizeWindow *)
    unfold maximizeWindow.
    destruct (JSMap.get wid (windows (state m))) as [w|]; [|done].
    destruct (isMaximized w); [done|]. simpl.
    apply focus_consistent_update; [done| |done]. intros w0 Hf0. done.
  - (* restoreWindow *)
    unfold restoreWindow.
    destruct (JSMap.get wid (windows (state m))) as [w|]; [|done].
    destruct (isMinimized w).
    + set (st1 := with_windows _ (state m)).
      assert (focus_consistent st1) as H1.
      { apply focus_consistent_update; [done| |done]. intros w0 Hf0. done. }
      pose proof (focus_consistent_focusWindow wid (with_state st1 m) H1) as Hf.
      by destruct (focusWindow wid (with_state st1 m)).
    + destruct (isMaximized w); [|done]. simpl.
      apply focus_consistent_update; [done| |done]. intros w0 Hf0. done.
  - (* moveWindow *)
    unfold moveWindow.
    destruct (JSMap.get wid (windows (state m))) as [w|]; [|done].
    destruct (forbids _ _); [done|]. simpl.
    apply focus_consistent_update; [done| |done]. intros w0 Hf0. done.
  - (* resizeWindow *)
    unfold resizeWindow.
    destruct (JSMap.get wid (windows (state m))) as [w|]; [|done].
    destruct (forbids _ _); [done|]. simpl.
    apply focus_consistent_update; [done| |done]. intros w0 Hf0. done.
  - (* runTimer *)
    unfold runTimer. destruct (timers m) as [|t rest]; [done|].
    by apply (focus_consistent_focusWindow t (with_timers rest m)).
Qed.

(** The focus invariant of the design document. *)
Definition focus_invariant st : Prop :=
  (forall k1 w1 k2 w2,
     JSMap.get k1 (windows st) = Some w1 -> JSMap.get k2 (windows st) = Some w2 ->
     isFocused w1 = true -> isFocused w2 = true -> k1 = k2)
  /\ (forall k w, JSMap.get k (windows st) = Some w -> isFocused w = true ->
        isVisible w = true /\ isMinimized w = false).

(** As long as no window is created with the empty string as identity,
    every state reached by the public operations and the deferred focus
    steps satisfies the focus invariant. *)
Lemma focus_invariant_of_named_runs (ops : list op) :
  Forall names_its_window ops ->
  focus_invariant (state (run ops createWindowManager)).
Proof.
  intros Hops.
  assert (focus_consistent (state (run ops createWindowManager)))
    as (Hfoc & Hvis & _).
  { assert (focus_consistent (state createWindowManager)) as H0
      by (split; [|split]; done).
    revert H0. unfold run. generalize createWindowManager.
    induction Hops as [|o ops Ho _ IH]; intros m Hm; simpl; [done|].
    apply IH. by apply focus_consistent_step. }
  split.
  - intros k1 w1 k2 w2 H1 H2 Hf1 Hf2.
    destruct (Hfoc k1 w1 H1 Hf1) as [E1 _]. destruct (Hfoc k2 w2 H2 Hf2) as [E2 _].
    congruence.
  - intros k w Hk Hf. split; [by apply (Hvis k)|]. by apply (Hfoc k w Hk Hf).
Qed.

End FocusFacts.

(** ** Runs that break the invariants of the design document *)

Section BrokenInvariants.
Import WM.

Lemma reachable_run (ops : list op) : reachable (run ops createWindowManager).
Proof.
  unfold run. generalize reachable_new. generalize createWindowManager.
  induction ops as [|o ops IH]; intros m Hm; simpl; [done|].
  apply IH. by constructor.
Qed.

Definition plain_window (id : string) : op := CreateWindow id "app" None None None.

(** Two windows are created and focused in turn, then the lower one is
    destroyed. *)
Definition destroy_lower_run : list op :=
  [plain_window "a"; RunTimer; plain_window "b"; RunTimer; DestroyWindow "a"].

(** C1 fails on the code: [destroyWindow] removes the identity from the
    stacking order without renumbering ([updateZIndices] is only called
    by [bringToFront]).  After the run the stacking order is ["b"], so "b"
    is at position 0, but its z-index is still 2, and the next z-index is
    3 although one window remains. *)
Theorem C1_destroy_leaves_stale_z_indices :
  let m := run destroy_lower_run createWindowManager in
  reachable m
  /\ windowOrder (state m) = ["b"]
  /\ JSMap.keys (windows (state m)) = ["b"]
  /\ zIndex <$> JSMap.get "b" (windows (state m)) = Some 2
  /\ nextZIndex (state m) = 3.
Proof.
  split; [apply reachable_run|]. vm_compute. done.
Qed.

(** A window whose identity is the empty string is created and focused,
    then a second window. *)
Definition empty_identity_run : list op :=
  [plain_window ""; RunTimer; plain_window "b"; RunTimer].

(** C2 fails on the code: [focusWindow] tests [state.focusedWindowId]
    for truthiness before blurring the previous window, and the empty
    string is falsy.  After the run both windows are flagged as
    focused. *)
Theorem C2_empty_identity_keeps_focus :
  let m := run empty_identity_run createWindowManager in
  reachable m
  /\ map (fun w => (id w, isFocused w)) (getAllWindows m) = [("", true); ("b", true)]
  /\ focusedWindowId (state m) = Some "b".
Proof.
  split; [apply reachable_run|]. vm_compute. done.
Qed.

End BrokenInvariants.

(** ** Constraints *)

Section ConstraintFacts.
Import WM.

Implicit Types (m : Manager) (c : gmap string WindowConstraints).

Lemma focusWindow_constraints c id m :
  focusWindow id (with_constraints c m)
  = (with_constraints c (focusWindow id m).1, (focusWindow id m).2).
Proof.
  unfold focusWindow. simpl.
  destruct (JSMap.get id (windows (state m))) as [w|]; [|done].
  destruct (isMinimized w); [done|].
  destruct (focusedWindowId (state m)) as [f|]; [|done].
  destruct (_ && _); [|done].
  destruct (JSMap.get f _); done.
Qed.

Lemma minimizeWindow_constraints c id m :
  minimizeWindow id (with_constraints c m)
  = (with_constraints c (minimizeWindow id m).1, (minimizeWindow id m).2).
Proof.
  unfold minimizeWindow. simpl.
  destruct (JSMap.get id (windows (state m))) as [w|]; [|done].
  destruct (isMinimized w); [done|].
  destruct (bool_decide _); [|done].
  destruct (getTopmostWindow _) as [next|]; [|done].
  change (with_state ?s (with_constraints c m))
    with (with_constraints c (with_state s m)).
  rewrite focusWindow_constraints.
  by destruct (focusWindow _ _).
Qed.

Lemma maximizeWindow_constraints c id m :
  maximizeWindow id (with_constraints c m)
  = (with_constraints c (maximizeWindow id m).1, (maximizeWindow id m).2).
Proof.
  unfold maximizeWindow. simpl.
  destruct (JSMap.get id (windows (state m))) as [w|]; [|done].
  destruct (isMaximized w); done.
Qed.

Lemma destroyWindow_constraints c id m w :
  JSMap.get id (windows (state m)) = Some w ->
  destroyWindow id (with_constraints c m)
  = (with_constraints (delete id c) (destroyWindow id m).1, (destroyWindow id m).2).
Proof.
  intros Hg. unfold destroyWindow. simpl. rewrite Hg.
  destruct (bool_decide _); [|done].
  destruct (getTopmostWindow _); done.
Qed.

(** The flags of a window are kept by [focusWindow] of another one. *)
Lemma focusWindow_keeps_minimized id k m w :
  JSMap.get k (windows (state m)) = Some w ->
  isMinimized <$> JSMap.get k (windows (state (focusWindow id m).1))
  = Some (isMinimized w).
Proof.
  intros Hk.
  destruct (JSMap.get id (windows (state m))) as [wi|] eqn:Hg; cycle 1.
  { rewrite focusWindow_noop; [simpl; by rewrite Hk|]. intros w'. by rewrite Hg. }
  destruct (isMinimized wi) eqn:Hmin.
  { rewrite focusWindow_noop; [simpl; by rewrite Hk|].
    intros w'. rewrite Hg. by intros [= <-]. }
  rewrite (focusWindow_state id m wi Hg Hmin). simpl.
  rewrite (get_update_map isMinimized) by done.
  rewrite (bringToFront_get_map isMinimized) by done.
  rewrite blurred_get. destruct (bool_decide _); rewrite Hk; done.
Qed.

Lemma minimizeWindow_minimizes id m w :
  JSMap.get id (windows (state m)) = Some w -> isMinimized w = false ->
  isMinimized <$> JSMap.get id (windows (state (minimizeWindow id m).1)) = Some true
  /\ ev_minimize id ∈ (minimizeWindow id m).2.
Proof.
  intros Hg Hmin. unfold minimizeWindow. rewrite Hg, Hmin.
  set (st1 := with_windows _ (state m)).
  assert (JSMap.get id (windows st1)
          = Some (set_isFocused false (set_isMinimized true w))) as H1.
  { unfold st1. simpl. by rewrite get_update_eq, Hg. }
  clearbody st1.
  destruct (bool_decide _).
  - destruct (getTopmostWindow st1) as [next|].
    + pose proof (focusWindow_keeps_minimized (WM.id next) id (with_state st1 m) _ H1)
        as Hk.
      destruct (focusWindow (WM.id next) (with_state st1 m)) as [m2 fx]. simpl in *.
      split; [done|]. apply elem_of_app. right. left.
    + simpl. rewrite H1. split; [done|]. left.
  - simpl. rewrite H1. split; [done|]. left.
Qed.

(** C10.  For a live window and any constraints map: [minimizeWindow],
    [maximizeWindow] and [destroyWindow] compute the same state and emit
    the same events whatever the map holds (they leave it as it is, but
    for [destroyWindow] deleting the window's entry), and they take
    effect: the window ends minimized, maximized, gone.  [moveWindow] is
    refused exactly when the window's [canMove] is [false] and
    [resizeWindow] exactly when its [canResize] is [false]; otherwise
    they commit the position, and the size clamped to the declared
    bounds. *)
Theorem C10_only_move_and_resize_are_enforced :
  forall m id w,
    JSMap.get id (windows (state m)) = Some w ->
    (forall c,
       minimizeWindow id (with_constraints c m)
       = (with_constraints c (minimizeWindow id m).1, (minimizeWindow id m).2)
       /\ maximizeWindow id (with_constraints c m)
          = (with_constraints c (maximizeWindow id m).1, (maximizeWindow id m).2)
       /\ destroyWindow id (with_constraints c m)
          = (with_constraints (delete id c) (destroyWindow id m).1,
             (destroyWindow id m).2))
    /\ (isMinimized w = false ->
          isMinimized <$> JSMap.get id (windows (state (minimizeWindow id m).1))
          = Some true
          /\ ev_minimize id ∈ (minimizeWindow id m).2)
    /\ (isMaximized w = false ->
          isMaximized <$> JSMap.get id (windows (state (maximizeWindow id m).1))
          = Some true
          /\ (maximizeWindow id m).2 = [ev_maximize id])
    /\ (JSMap.get id (windows (state (destroyWindow id m).1)) = None
        /\ (destroyWindow id m).2 = [ev_destroy id])
    /\ (forall p,
          (forbids canMove (windowConstraints m !! id) = true ->
             moveWindow id p m = (m, []))
          /\ (forbids canMove (windowConstraints m !! id) = false ->
                (position ∘ bounds) <$>
                  JSMap.get id (windows (state (moveWindow id p m).1)) = Some p
                /\ (moveWindow id p m).2 = [ev_move id p]))
    /\ (forall sz,
          (forbids canResize (windowConstraints m !! id) = true ->
             resizeWindow id sz m = (m, []))
          /\ (forbids canResize (windowConstraints m !! id) = false ->
                let clamped :=
                  match windowConstraints m !! id with
                  | Some c =>
                      {| width := clamp (minWidth c) (maxWidth c) (width sz);
                         height := clamp (minHeight c) (maxHeight c) (height sz) |}
                  | None => sz
                  end in
                (size ∘ bounds) <$>
                  JSMap.get id (windows (state (resizeWindow id sz m).1))
                = Some clamped
                /\ (resizeWindow id sz m).2 = [ev_resize id clamped])).
Proof.
  intros m id w Hg. repeat split.
  - apply minimizeWindow_constraints.
  - apply maximizeWindow_constraints.
  - by apply (destroyWindow_constraints c id m w).
  - by apply (minimizeWindow_minimizes id m w).
  - by apply (minimizeWindow_minimizes id m w).
  - unfold maximizeWindow. rewrite Hg, H. simpl.
    by rewrite get_update_eq, Hg.
  - unfold maximizeWindow. by rewrite Hg, H.
  - unfold destroyWindow. rewrite Hg.
    destruct (bool_decide _); [|apply get_delete_eq].
    destruct (getTopmostWindow _); apply get_delete_eq.
  - unfold destroyWindow. rewrite Hg.
    destruct (bool_decide _); [|done]. destruct (getTopmostWindow _); done.
  - intros Hf. unfold moveWindow. by rewrite Hg, Hf.
  - unfold moveWindow. rewrite Hg, H. simpl. by rewrite get_update_eq, Hg.
  - unfold moveWindow. by rewrite Hg, H.
  - intros Hf. unfold resizeWindow. by rewrite Hg, Hf.
  - unfold resizeWindow. rewrite Hg, H. simpl. rewrite get_update_eq, Hg. simpl.
    destruct (windowConstraints m !! id); [done|]. by destruct sz.
  - unfold resizeWindow. rewrite Hg, H. simpl.
    destruct (windowConstraints m !! id); [done|]. by destruct sz.
Qed.

(** A window that declares every permission [false]. *)
Definition locked : WindowConstraints :=
  {| minWidth := Some 200; minHeight := None; maxWidth := Some 800; maxHeight := None;
     canResize := Some false; canMove := Some false; canMinimize := Some false;
     canMaximize := Some false; canClose := Some false |}.

Definition locked_manager : Manager :=
  run [CreateWindow "a" "app" None (Some locked) None; RunTimer] createWindowManager.

Lemma C10_locked_window_witness :
  (isMinimized <$> JSMap.get "a" (windows (state (minimizeWindow "a" locked_manager).1))
   = Some true)
  /\ (isMaximized <$> JSMap.get "a" (windows (state (maximizeWindow "a" locked_manager).1))
      = Some true)
  /\ JSMap.get "a" (windows (state (destroyWindow "a" locked_manager).1)) = None
  /\ moveWindow "a" {| x := 1; y := 2 |} locked_manager = (locked_manager, [])
  /\ resizeWindow "a" {| width := 1; height := 2 |} locked_manager
     = (locked_manager, []).
Proof.
  destruct (JSMap.get "a" (windows (state locked_manager))) as [w|] eqn:Hg;
    [|vm_compute in Hg; discriminate Hg].
  pose proof (C10_only_move_and_resize_are_enforced locked_manager "a" w Hg)
    as (_ & Hmin & Hmax & Hdel & Hmove & Hresize).
  assert (w = {| id := "a"; bounds := defaultBounds; zIndex := 1; isFocused := true;
                 isMinimized := false; isMaximized := false; isVisible := true;
                 appId := "app"; metadata := None |}) as ->
    by (vm_compute in Hg; by injection Hg as <-).
  split; [apply Hmin; reflexivity|].
  split; [apply Hmax; reflexivity|].
  split; [apply Hdel|].
  split; [apply Hmove; reflexivity|].
  apply Hresize; reflexivity.
Defined.

End ConstraintFacts.

(* ------------------------------------------------------------------ *)
(** ** JSON: parsing what was printed *)
(* ------------------------------------------------------------------ *)

Section JsonFacts.
Import Json.

(** Induction on values, through their items and properties. *)
Fixpoint value_induction (P : value -> Prop)
    (Hundef : P VUndefined) (Hnull : P VNull) (Hbool : forall b, P (VBool b))
    (Hnum : forall m e, P (VNum m e)) (Hstr : forall s, P (VStr s))
    (Harr : forall items, Forall P items -> P (VArr items))
    (Hobj : forall props, Forall (fun kv => P (snd kv)) props -> P (VObj props))
    (Hfun : forall name, P (VFun name)) (Hnan : P VNaN)
    (Hinf : forall negative, P (VInfinity negative)) (Hnegzero : P VNegZero)
    (Hdate : forall iso, P (VDate iso)) (v : value) {struct v} : P v :=
  let rec :=
    value_induction P Hundef Hnull Hbool Hnum Hstr Harr Hobj Hfun Hnan Hinf
      Hnegzero Hdate in
  match v with
  | VUndefined => Hundef
  | VNull => Hnull
  | VBool b => Hbool b
  | VNum m e => Hnum m e
  | VStr s => Hstr s
  | VArr items =>
      Harr items
        ((fix go (l : list value) : Forall P l :=
            match l with
            | [] => Forall_nil P
            | x :: r => Forall_cons P x r (rec x) (go r)
            end) items)
  | VObj props =>
      Hobj props
        ((fix go (l : list (string * value)) : Forall (fun kv => P (snd kv)) l :=
            match l with
            | [] => Forall_nil _
            | kv :: r => Forall_cons _ kv r (rec (snd kv)) (go r)
            end) props)
  | VFun name => Hfun name
  | VNaN => Hnan
  | VInfinity negative => Hinf negative
  | VNegZero => Hnegzero
  | VDate iso => Hdate iso
  end.

(** *** Numbers *)

(** The text continues with something that is not part of a number. *)
Definition ends_number (rest : list ascii) : Prop :=
  match rest with
  | [] => True
  | c :: _ =>
      digit_of c = None /\ c <> "."%char /\ c <> "e"%char /\ c <> "E"%char
  end.

Definition no_digit (rest : list ascii) : Prop :=
  match rest with
  | [] => True
  | c :: _ => digit_of c = None
  end.

Lemma take_digits_chars d rest :
  no_digit rest -> take_digits (uint_chars d ++ rest) = (d, rest).
Proof.
  intros Hrest. induction d; simpl; try (rewrite IHd; reflexivity).
  destruct rest as [|c rest]; [done|]. simpl in *. by rewrite Hrest.
Qed.

Lemma unorm_to_uint p : Decimal.unorm (Pos.to_uint p) = Pos.to_uint p.
Proof.
  rewrite <- (DecimalPos.Unsigned.to_of (Pos.to_uint p)).
  by rewrite DecimalPos.Unsigned.of_to.
Qed.

Lemma uint_beq_refl d : Decimal.uint_beq d d = true.
Proof. by apply Decimal.internal_uint_dec_lb. Qed.

(** The digits of an integer are not empty and do not start with a sign. *)
Lemma uint_chars_head d :
  d <> Decimal.Nil ->
  exists c tl, uint_chars d = c :: tl /\ is_Some (digit_of c).
Proof. destruct d; intros H; try done; simpl; eexists _, _; split; eauto. Qed.

Lemma of_uint_to_uint p : Z.of_uint (Pos.to_uint p) = Z.pos p.
Proof. exact (DecimalZ.of_to (Z.pos p)). Qed.

(** The digits and sign of an integer [z], read back. *)
Definition signed_digits (z : Z) : bool * Decimal.uint :=
  match Z.to_int z with
  | Decimal.Pos d => (false, d)
  | Decimal.Neg d => (true, d)
  end.

Lemma signed_digits_spec z :
  let '(neg, d) := signed_digits z in
  int_chars z = (if neg then ["-"%char] else []) ++ uint_chars d
  /\ d <> Decimal.Nil
  /\ Decimal.unorm d = d
  /\ (if neg then - Z.of_uint d else Z.of_uint d) = z.
Proof.
  unfold signed_digits, int_chars. destruct z as [|p|p]; simpl.
  - done.
  - split; [done|]. split; [apply DecimalPos.Unsigned.to_uint_nonnil|].
    split; [apply unorm_to_uint|apply of_uint_to_uint].
  - split; [done|]. split; [apply DecimalPos.Unsigned.to_uint_nonnil|].
    split; [apply unorm_to_uint|]. by rewrite of_uint_to_uint.
Qed.

Lemma parse_exponent_none rest :
  ends_number rest -> parse_exponent rest = Some (0, rest).
Proof.
  destruct rest as [|c rest]; [done|]. intros (_ & _ & He & HE). simpl.
  destruct (Ascii.eqb_spec c "e"); [done|].
  destruct (Ascii.eqb_spec c "E"); done.
Qed.

Lemma parse_fraction_none rest :
  (match rest with [] => True | c :: _ => c <> "."%char end) ->
  parse_fraction rest = Some (Decimal.Nil, rest).
Proof.
  destruct rest as [|c rest]; [done|]. intros Hc. simpl.
  destruct (Ascii.eqb_spec c "."); done.
Qed.

Lemma digit_not_sign c :
  is_Some (digit_of c) -> Ascii.eqb c "-" = false /\ Ascii.eqb c "+" = false.
Proof.
  intros [D HD]. split.
  - destruct (Ascii.eqb_spec c "-") as [->|]; [|done]. done.
  - destruct (Ascii.eqb_spec c "+") as [->|]; [|done]. done.
Qed.

Lemma parse_exponent_chars e rest :
  no_digit rest ->
  parse_exponent ("e"%char :: int_chars e ++ rest) = Some (e, rest).
Proof.
  intros Hrest. pose proof (signed_digits_spec e) as H.
  destruct (signed_digits e) as [neg d]. destruct H as (-> & Hnil & _ & <-).
  unfold parse_exponent.
  change (Ascii.eqb "e" "e" || Ascii.eqb "e" "E") with true. cbv iota.
  destruct (uint_chars_head d Hnil) as (c & tl & Hd & Hc).
  destruct neg; simpl.
  - rewrite take_digits_chars by done. by destruct d.
  - rewrite Hd. cbn [app]. destruct (digit_not_sign c Hc) as [-> ->].
    change (c :: tl ++ rest) with ((c :: tl) ++ rest).
    rewrite <- Hd, take_digits_chars by done. by destruct d.
Qed.

Lemma parse_number_chars m e rest :
  ends_number rest ->
  parse_number (int_chars m ++ (if e =? 0 then [] else "e"%char :: int_chars e) ++ rest)
  = Some (VNum m e, rest).
Proof.
  intros Hrest.
  assert (no_digit rest) as Hnd by (destruct rest; [done|]; apply Hrest).
  pose proof (signed_digits_spec m) as H.
  destruct (signed_digits m) as [neg d]. destruct H as (-> & Hnil & Hnorm & <-).
  set (tail := (if e =? 0 then [] else "e"%char :: int_chars e) ++ rest).
  assert (no_digit tail /\ parse_fraction tail = Some (Decimal.Nil, tail)
          /\ parse_exponent tail = Some (e, rest)) as (Ht1 & Ht2 & Ht3).
  { unfold tail. destruct (Z.eqb_spec e 0) as [->|He]; simpl.
    - split; [done|]. split; [|by apply parse_exponent_none].
      apply parse_fraction_none. destruct rest; [done|]. apply Hrest.
    - split; [done|]. split; [done|]. by apply parse_exponent_chars. }
  destruct (uint_chars_head d Hnil) as (c & tl & Hd & Hc).
  rewrite <- app_assoc. fold tail.
  assert (parse_number (uint_chars d ++ tail)
          = Some (VNum (Z.of_uint d) e, rest)) as Hpos.
  { unfold parse_number. rewrite Hd. cbn [app].
    destruct (digit_not_sign c Hc) as [-> _].
    change (c :: tl ++ tail) with ((c :: tl) ++ tail).
    rewrite <- Hd, take_digits_chars by done.
    rewrite Hnorm, uint_beq_refl. cbn [negb].
    rewrite Ht2, Ht3, DecimalFacts.app_nil_r. cbn [Decimal.nb_digits Z.of_nat].
    by rewrite Z.sub_0_r. }
  destruct neg; [|exact Hpos].
  unfold parse_number. cbn [app].
  change (Ascii.eqb "-" "-") with true. cbv iota.
  rewrite take_digits_chars by done.
  rewrite Hnorm, uint_beq_refl. cbn [negb].
  rewrite Ht2, Ht3, DecimalFacts.app_nil_r. cbn [Decimal.nb_digits Z.of_nat].
  by rewrite Z.sub_0_r.
Qed.

(** *** Strings *)

Lemma parse_escaped_char c tail :
  parse_string_body (escape_char c ++ tail)
  = match parse_string_body tail with
    | Some (str, rest) => Some (String c str, rest)
    | None => None
    end.
Proof. destruct c as [[] [] [] [] [] [] [] []]; reflexivity. Qed.

Lemma parse_string_body_escape s rest :
  parse_string_body (escape s ++ dquote :: rest) = Some (s, rest).
Proof.
  induction s as [|c s IH]; [reflexivity|].
  cbn [escape]. rewrite <- app_assoc, parse_escaped_char. by rewrite IH.
Qed.

Lemma parse_print_string s rest :
  parse_string_body (tl (print_string s ++ rest)) = Some (s, rest).
Proof.
  unfold print_string. cbn [app tl].
  rewrite <- app_assoc. apply parse_string_body_escape.
Qed.

(** *** Values *)

(** The characters a value can start with. *)
Definition starts_value (c : ascii) : bool :=
  match digit_of c with Some _ => true | None => false end
  || existsb (Ascii.eqb c)
       ["-"; "{"; "["; dquote; "t"; "f"; "n"]%char.

Lemma starts_value_spec c :
  starts_value c = true ->
  is_ws c = false /\ Ascii.eqb c "]" = false /\ Ascii.eqb c "}" = false.
Proof. destruct c as [[] [] [] [] [] [] [] []]; done. Qed.

Lemma int_chars_head z :
  exists c tl, int_chars z = c :: tl
               /\ (is_Some (digit_of c) \/ c = "-"%char).
Proof.
  pose proof (signed_digits_spec z) as H.
  destruct (signed_digits z) as [neg d]. destruct H as (-> & Hnil & _ & _).
  destruct (uint_chars_head d Hnil) as (c & tl & -> & Hc).
  destruct neg; simpl; eexists _, _; split; eauto.
Qed.

Lemma parse_value_number f c r :
  is_Some (digit_of c) \/ c = "-"%char ->
  parse_value (S f) (c :: r) = parse_number (c :: r).
Proof.
  intros [[D HD]| ->]; [|reflexivity].
  destruct c as [[] [] [] [] [] [] [] []];
    vm_compute in HD; try discriminate HD; reflexivity.
Qed.

Lemma print_head v :
  exists c tl, print v = c :: tl /\ starts_value c = true.
Proof.
  destruct v as [| |[]|m e|s|items|props|name| |neg| |iso]; simpl;
    try (eexists _, _; split; [reflexivity|reflexivity]).
  destruct (int_chars_head m) as (c & tl & -> & Hc).
  simpl. eexists _, _; split; [reflexivity|].
  unfold starts_value. destruct Hc as [[D ->]| ->]; done.
Qed.

(** The fuel reading a value takes. *)
Fixpoint sz (v : value) : nat :=
  match v with
  | VArr items => S (fold_right (fun x n => S (sz x + n)) 0%nat items)
  | VObj props => S (fold_right (fun kv n => S (sz (snd kv) + n)) 0%nat props)
  | _ => 1%nat
  end.

(** What may follow a value inside a text. *)
Definition delimited (rest : list ascii) : Prop :=
  match rest with
  | [] => True
  | c :: _ => c = ","%char \/ c = "]"%char \/ c = "}"%char
  end.

Lemma delimited_ends_number rest : delimited rest -> ends_number rest.
Proof.
  destruct rest as [|c rest]; [done|]. by intros [->|[->| ->]].
Qed.

Definition reads_back (v : value) : Prop :=
  json_safe v = true ->
  forall fuel rest, (sz v <= fuel)%nat -> delimited rest ->
  parse_value fuel (print v ++ rest) = Some (v, rest).

End JsonFacts.

Section JsonRoundTrip.
Import Json.

Lemma skip_ws_value v rest : skip_ws (print v ++ rest) = print v ++ rest.
Proof.
  destruct (print_head v) as (c & tl & -> & Hc).
  destruct (starts_value_spec c Hc) as (Hws & _). simpl. by rewrite Hws.
Qed.

Lemma not_closing v rest (close : ascii) :
  close = "]"%char \/ close = "}"%char ->
  expect close (skip_ws (print v ++ rest)) = None.
Proof.
  intros Hclose. rewrite skip_ws_value.
  destruct (print_head v) as (c & tl & -> & Hc).
  destruct (starts_value_spec c Hc) as (_ & H1 & H2).
  simpl. by destruct Hclose as [-> | ->]; rewrite ?H1, ?H2.
Qed.

Definition elements_fuel (items : list value) : nat :=
  fold_right (fun x n => S (sz x + n)) 0%nat items.

Definition members_fuel (props : list (string * value)) : nat :=
  fold_right (fun kv n => S (sz (snd kv) + n)) 0%nat props.

Lemma skip_ws_delimiter c rest :
  c = ","%char \/ c = "]"%char \/ c = "}"%char \/ c = ":"%char ->
  skip_ws (c :: rest) = c :: rest.
Proof. by intros [->|[->|[->| ->]]]. Qed.

Lemma parse_elements_join items :
  Forall reads_back items -> forallb json_safe items = true ->
  items <> [] ->
  forall fuel rest, (elements_fuel items <= fuel)%nat ->
  parse_elements fuel (join (map print items) ++ "]"%char :: rest)
  = Some (items, rest).
Proof.
  induction 1 as [|x items Hx Hitems IH]; [done|].
  intros Hsafe _ fuel rest Hfuel.
  cbn [forallb] in Hsafe. apply andb_true_iff in Hsafe as [Hsx Hsafe].
  cbn [elements_fuel fold_right] in Hfuel. fold (elements_fuel items) in Hfuel.
  destruct fuel as [|f]; [lia|]. cbn [parse_elements].
  destruct items as [|y items].
  - cbn [map join]. rewrite (Hx Hsx) by (done || (simpl; auto) || lia).
    reflexivity.
  - change (join (map print (x :: y :: items)))
      with (print x ++ ","%char :: join (map print (y :: items))).
    rewrite <- app_assoc. cbn [app].
    rewrite (Hx Hsx) by ((simpl; auto) || lia).
    rewrite skip_ws_delimiter by auto.
    change (Ascii.eqb "," ",") with true. cbv iota.
    rewrite IH by (done || lia). done.
Qed.

Lemma parse_members_join props :
  Forall (fun kv => reads_back (snd kv)) props ->
  forallb (fun kv => json_safe (snd kv)) props = true ->
  props <> [] ->
  forall fuel rest, (members_fuel props <= fuel)%nat ->
  parse_members fuel
    (join (map (fun kv => print_string (fst kv) ++ ":"%char :: print (snd kv))
             props) ++ "}"%char :: rest)
  = Some (props, rest).
Proof.
  induction 1 as [|[k x] props Hx Hprops IH]; [done|].
  intros Hsafe _ fuel rest Hfuel.
  cbn [forallb snd] in Hsafe. apply andb_true_iff in Hsafe as [Hsx Hsafe].
  cbn [members_fuel fold_right snd] in Hfuel.
  fold (members_fuel props) in Hfuel. cbn [snd] in Hx.
  destruct fuel as [|f]; [lia|]. cbn [parse_members].
  set (entry := fun kv : string * value =>
                  print_string (fst kv) ++ ":"%char :: print (snd kv)).
  assert (forall tail,
    (entry (k, x) ++ tail)
    = dquote :: escape k ++ dquote :: ":"%char :: print x ++ tail) as Hentry.
  { intros tail. unfold entry, print_string. cbn [fst snd app].
    by rewrite <- !app_assoc. }
  destruct props as [|q props].
  - cbn [map join]. rewrite Hentry.
    change (skip_ws (dquote :: ?s)) with (dquote :: s).
    cbn [expect]. change (Ascii.eqb dquote dquote) with true. cbv iota.
    rewrite parse_string_body_escape, skip_ws_delimiter by auto.
    cbn [expect]. change (Ascii.eqb ":" ":") with true. cbv iota.
    rewrite (Hx Hsx) by ((simpl; auto) || lia).
    rewrite skip_ws_delimiter by auto. reflexivity.
  - change (join (map entry ((k, x) :: q :: props)))
      with (entry (k, x) ++ ","%char :: join (map entry (q :: props))).
    rewrite <- app_assoc, Hentry. cbn [app].
    change (skip_ws (dquote :: ?s)) with (dquote :: s).
    cbn [expect]. change (Ascii.eqb dquote dquote) with true. cbv iota.
    rewrite parse_string_body_escape, skip_ws_delimiter by auto.
    cbn [expect]. change (Ascii.eqb ":" ":") with true. cbv iota.
    rewrite (Hx Hsx) by ((simpl; auto) || lia).
    rewrite skip_ws_delimiter by auto.
    change (Ascii.eqb "," ",") with true. cbv iota.
    rewrite IH by (done || lia). done.
Qed.

(** Reading the text of a value gives the value back. *)
Lemma parse_value_print v : reads_back v.
Proof.
  induction v as [| |b|m e|s|items IH|props IH|name| |neg| |iso]
    using value_induction;
    intros Hsafe fuel rest Hfuel Hrest; try discriminate Hsafe;
    (destruct fuel as [|f]; [simpl in Hfuel; lia|]).
  - reflexivity.
  - by destruct b.
  - cbn [print]. rewrite <- app_assoc.
    destruct (int_chars_head m) as (c & tl & Hm & Hc).
    assert (skip_ws (c :: tl ++ (if e =? 0 then [] else "e"%char :: int_chars e) ++ rest)
            = c :: tl ++ (if e =? 0 then [] else "e"%char :: int_chars e) ++ rest)
      as Hws.
    { destruct Hc as [[D HD]| ->]; [|done].
      assert (starts_value c = true) as Hs by (unfold starts_value; by rewrite HD).
      destruct (starts_value_spec c Hs) as (Hw & _). simpl. by rewrite Hw. }
    rewrite Hm. cbn [app].
    rewrite parse_value_number by done.
    change (c :: tl ++ ?t) with ((c :: tl) ++ t). rewrite <- Hm.
    apply parse_number_chars. by apply delimited_ends_number.
  - cbn [print]. unfold print_string. cbn [app]. rewrite <- app_assoc.
    change (parse_value (S f) (dquote :: ?s))
      with (match parse_string_body s with
            | Some (str, r') => Some (VStr str, r')
            | None => None
            end).
    cbn [app]. by rewrite parse_string_body_escape.
  - cbn [json_safe] in Hsafe. cbn [sz] in Hfuel.
    destruct items as [|x items]; [reflexivity|].
    cbn [print app]. rewrite <- app_assoc. cbn [app].
    change (parse_value (S f) ("["%char :: ?s))
      with (match expect "]"%char (skip_ws s) with
            | Some r' => Some (VArr [], r')
            | None =>
                match parse_elements f s with
                | Some (vs, r') => Some (VArr vs, r')
                | None => None
                end
            end).
    change (join (map print (x :: items)))
      with (join (print x :: map print items)).
    assert (exists tail, join (print x :: map print items) ++ "]"%char :: rest
                         = print x ++ tail) as [tail Htail].
    { cbn [join]. destruct (map print items); [by eexists|].
      rewrite <- app_assoc. by eexists. }
    rewrite Htail at 1. rewrite not_closing by auto.
    change (join (print x :: map print items))
      with (join (map print (x :: items))).
    rewrite parse_elements_join; [done|done|done|done|].
    unfold elements_fuel. lia.
  - cbn [json_safe] in Hsafe. cbn [sz] in Hfuel.
    destruct props as [|[k x] props]; [reflexivity|].
    cbn [print app]. rewrite <- app_assoc. cbn [app].
    set (entry := fun kv : string * value =>
                    print_string (fst kv) ++ ":"%char :: print (snd kv)).
    change (parse_value (S f) ("{"%char :: ?s))
      with (match expect "}"%char (skip_ws s) with
            | Some r' => Some (VObj [], r')
            | None =>
                match parse_members f s with
                | Some (ms, r') => Some (VObj ms, r')
                | None => None
                end
            end).
    assert (exists tail, join (map entry ((k, x) :: props)) ++ "}"%char :: rest
                         = dquote :: tail) as [tail Htail].
    { cbn [map join]. destruct (map entry props); by eexists. }
    rewrite Htail at 1.
    change (expect "}"%char (skip_ws (dquote :: tail))) with (@None (list ascii)).
    cbv iota.
    rewrite parse_members_join; [done|done|done|done|].
    unfold members_fuel. lia.
Qed.

End JsonRoundTrip.

Section JsonStringify.
Import Json.

Lemma join_length {A} (f : A -> nat) (g : A -> list ascii) (l : list A) :
  Forall (fun a => (f a <= length (g a))%nat) l ->
  (fold_right (fun a n => S (f a + n)) 0%nat l <= S (length (join (map g l))))%nat.
Proof.
  induction 1 as [|a l Ha Hl IH]; [simpl; lia|].
  destruct l as [|b l].
  - simpl in *. lia.
  - change (join (map g (a :: b :: l)))
      with (g a ++ ","%char :: join (map g (b :: l))).
    change (fold_right (fun a n => S (f a + n)) 0%nat (a :: b :: l))
      with (S (f a + fold_right (fun a n => S (f a + n)) 0%nat (b :: l))).
    rewrite length_app. cbn [length]. lia.
Qed.

Lemma sz_le_length v : (sz v <= length (print v))%nat.
Proof.
  induction v as [| |b|m e|s|items IH|props IH|name| |neg| |iso]
    using value_induction;
    try (simpl; lia).
  - by destruct b; simpl; lia.
  - cbn [sz print]. destruct (int_chars_head m) as (c & tl & -> & _).
    simpl. lia.
  - cbn [sz print length]. rewrite length_app. cbn [length].
    pose proof (join_length sz print items IH). lia.
  - cbn [sz print length]. rewrite length_app. cbn [length].
    pose proof (join_length (fun kv => sz (snd kv))
                  (fun kv => print_string (fst kv) ++ ":"%char :: print (snd kv))
                  props) as H.
    cbn beta in H. cut (forall a b : nat, (a <= S b -> S a <= S (b + 1))%nat).
    { intros Hcut. apply Hcut, H.
      eapply List.Forall_impl; [|exact IH]. intros [k x] Hx. cbn [fst snd] in *.
      rewrite length_app. cbn [length]. lia. }
    intros; lia.
Qed.

(** Parsing the text of JSON data gives the data. *)
Lemma JSON_parse_print v :
  json_safe v = true ->
  JSON_parse (string_of_list_ascii (print v)) = Some v.
Proof.
  intros Hsafe. unfold JSON_parse, chars.
  rewrite list_ascii_of_string_of_list_ascii.
  pose proof (parse_value_print v Hsafe (2 * length (print v) + 2)%nat []) as H.
  rewrite app_nil_r in H. rewrite H; [done| |done].
  pose proof (sz_le_length v). lia.
Qed.

Lemma json_safe_not_omitted v : json_safe v = true -> is_omitted v = false.
Proof. by destruct v. Qed.

(** What [JSON.stringify] writes is JSON data. *)
Lemma json_safe_jsonify v : is_omitted v = false -> json_safe (jsonify v) = true.
Proof.
  induction v as [| |b|m e|s|items IH|props IH|name| |neg| |iso]
    using value_induction;
    intros Hv; try done.
  - cbn [jsonify json_safe]. clear Hv.
    induction IH as [|x items Hx _ IH]; [done|].
    cbn [map forallb]. rewrite IH, andb_true_r.
    destruct (is_omitted x) eqn:E; [done|]. by apply Hx.
  - cbn [jsonify json_safe]. clear Hv.
    induction IH as [|[k x] props Hx _ IH]; [done|].
    cbn [snd] in Hx. destruct (is_omitted x) eqn:E; [exact IH|].
    cbn [forallb snd]. rewrite IH, andb_true_r. by apply Hx.
Qed.

(** JSON data is written as it is. *)
Lemma jsonify_json_safe v : json_safe v = true -> jsonify v = v.
Proof.
  induction v as [| |b|m e|s|items IH|props IH|name| |neg| |iso]
    using value_induction;
    intros Hv; try done.
  - cbn [jsonify json_safe] in *. f_equal.
    induction IH as [|x items Hx _ IH]; [done|].
    cbn [forallb] in Hv. apply andb_true_iff in Hv as [Hsx Hv].
    cbn [map]. rewrite (json_safe_not_omitted x Hsx), (Hx Hsx). f_equal. by apply IH.
  - cbn [jsonify json_safe] in *. f_equal.
    induction IH as [|[k x] props Hx _ IH]; [done|].
    cbn [forallb snd] in Hv, Hx. apply andb_true_iff in Hv as [Hsx Hv].
    rewrite (json_safe_not_omitted x Hsx), (Hx Hsx). f_equal. by apply IH.
Qed.

(** [JSON.parse(JSON.stringify(v))] is [v] without what JSON cannot
    hold. *)
Lemma JSON_parse_stringify v :
  is_omitted v = false -> JSON_parse (JSON_stringify v) = Some (jsonify v).
Proof. intros Hv. by apply JSON_parse_print, json_safe_jsonify. Qed.

End JsonStringify.

(* ------------------------------------------------------------------ *)
(** ** Persistence *)
(* ------------------------------------------------------------------ *)

Section PersistenceFacts.
Import WM.

Implicit Types (m : Manager) (st : WindowManagerState) (w : WindowState).

(** A window as [JSON.parse] gives it back: without the [metadata]
    property when the window had none. *)
Definition json_of_window w : Json.value :=
  Json.VObj
    ([("id", Json.VStr (id w));
      ("appId", Json.VStr (appId w));
      ("bounds",
       Json.VObj [("position", value_of_position (position (bounds w)));
                  ("size", value_of_size (size (bounds w)))]);
      ("zIndex", Json.num (zIndex w));
      ("isFocused", Json.VBool (isFocused w));
      ("isMinimized", Json.VBool (isMinimized w));
      ("isMaximized", Json.VBool (isMaximized w));
      ("isVisible", Json.VBool (isVisible w))]
       ++ match metadata w with
          | Some md => [("metadata", Json.VObj md)]
          | None => []
          end).

Definition json_of_state st : Json.value :=
  Json.VObj
    [("windows",
      Json.VArr (map (fun kw => Json.VArr [Json.VStr (fst kw); json_of_window (snd kw)])
                   (windows st)));
     ("windowOrder", Json.VArr (map Json.VStr (windowOrder st)));
     ("focusedWindowId",
      match focusedWindowId st with
      | Some focused => Json.VStr focused
      | None => Json.VNull
      end);
     ("nextZIndex", Json.num (nextZIndex st))].

Lemma jsonify_value_of_window w :
  metadata_safe w = true -> Json.jsonify (value_of_window w) = json_of_window w.
Proof.
  unfold metadata_safe, value_of_window, json_of_window.
  destruct (metadata w) as [md|]; intros Hmd; [|reflexivity].
  apply jsonify_json_safe. cbn [Json.json_safe] in Hmd.
  simpl. by rewrite Hmd.
Qed.

Lemma jsonify_strings (l : list string) :
  map (fun x => if Json.is_omitted x then Json.VNull else Json.jsonify x)
    (map Json.VStr l) = map Json.VStr l.
Proof. induction l as [|s l IH]; [done|]. simpl in *. by rewrite IH. Qed.

Lemma jsonify_serializable st :
  Forall (fun w => metadata_safe w = true) (JSMap.values (windows st)) ->
  Json.jsonify (serializable st) = json_of_state st.
Proof.
  intros Hsafe. unfold serializable, json_of_state.
  assert (Json.jsonify
            (Json.VArr (map (fun kw => Json.VArr [Json.VStr (fst kw); value_of_window (snd kw)])
                          (windows st)))
          = Json.VArr (map (fun kw => Json.VArr [Json.VStr (fst kw); json_of_window (snd kw)])
                         (windows st))) as Hws.
  { cbn [Json.jsonify]. f_equal. unfold JSMap.values in Hsafe.
    induction (windows st) as [|[k w] ws IH]; [done|].
    cbn [map snd] in Hsafe. apply list.Forall_cons in Hsafe as [Hw Hsafe].
    cbn [map fst snd].
    rewrite IH by done. f_equal.
    cbn [Json.is_omitted Json.jsonify map].
    replace (Json.is_omitted (value_of_window w)) with false by done.
    by rewrite (jsonify_value_of_window w Hw). }
  assert (Json.jsonify (Json.VArr (map Json.VStr (windowOrder st)))
          = Json.VArr (map Json.VStr (windowOrder st))) as Ho.
  { cbn [Json.jsonify]. by rewrite jsonify_strings. }
  set (a := Json.VArr (map _ (windows st))) in *.
  set (b := Json.VArr (map Json.VStr (windowOrder st))) in *.
  destruct (focusedWindowId st) as [focused|];
  change (Json.jsonify (Json.VObj [("windows", a); ("windowOrder", b);
                                   ("focusedWindowId", ?c); ("nextZIndex", ?d)]))
    with (Json.VObj [("windows", Json.jsonify a); ("windowOrder", Json.jsonify b);
                     ("focusedWindowId", Json.jsonify c); ("nextZIndex", d)]).
  all: by rewrite Hws, Ho.
Qed.

(** *** Loading *)

Lemma to_Z_integer z : Json.to_Z z 0 = Some z.
Proof. unfold Json.to_Z. simpl. f_equal. lia. Qed.

Lemma read_number_num z : read_number (Json.num z) = Some z.
Proof. apply to_Z_integer. Qed.

Lemma read_position_value p : read_position (value_of_position p) = Some p.
Proof.
  destruct p as [px py]. unfold read_position, value_of_position.
  change (field "x" _) with (Json.num px). change (field "y" _) with (Json.num py).
  by rewrite !read_number_num.
Qed.

Lemma read_size_value s : read_size (value_of_size s) = Some s.
Proof.
  destruct s as [sw sh]. unfold read_size, value_of_size.
  change (field "width" _) with (Json.num sw).
  change (field "height" _) with (Json.num sh).
  by rewrite !read_number_num.
Qed.

Lemma read_window_json w : read_window (json_of_window w) = Some w.
Proof.
  destruct w as [wid [pos size] z f mi ma vis app md].
  unfold read_window, json_of_window.
  cbn [WM.id WM.appId WM.bounds WM.zIndex WM.isFocused WM.isMinimized
       WM.isMaximized WM.isVisible WM.metadata WM.position WM.size].
  set (props := _ ++ _).
  assert (field "id" (Json.VObj props) = Json.VStr wid) as -> by (by destruct md).
  assert (field "appId" (Json.VObj props) = Json.VStr app) as -> by (by destruct md).
  assert (field "position" (field "bounds" (Json.VObj props)) = value_of_position pos)
    as -> by (by destruct md).
  assert (field "size" (field "bounds" (Json.VObj props)) = value_of_size size)
    as -> by (by destruct md).
  assert (field "zIndex" (Json.VObj props) = Json.num z) as -> by (by destruct md).
  assert (field "isFocused" (Json.VObj props) = Json.VBool f) as -> by (by destruct md).
  assert (field "isMinimized" (Json.VObj props) = Json.VBool mi) as -> by (by destruct md).
  assert (field "isMaximized" (Json.VObj props) = Json.VBool ma) as -> by (by destruct md).
  assert (field "isVisible" (Json.VObj props) = Json.VBool vis) as -> by (by destruct md).
  assert (read_metadata (field "metadata" (Json.VObj props)) = Some md) as ->
    by (by destruct md).
  rewrite read_position_value, read_size_value, read_number_num. reflexivity.
Qed.

(** The entries a Map is built from, and the Map. *)
Definition entry_items (g : WindowState -> Json.value) (ws : JSMap.t WindowState)
    : list Json.value :=
  map (fun kw => Json.VArr [Json.VStr (fst kw); g (snd kw)]) ws.

Definition entries_of (g : WindowState -> Json.value) (ws : JSMap.t WindowState)
    : list (Json.value * Json.value) :=
  map (fun kw => (Json.VStr (fst kw), g (snd kw))) ws.

Lemma entries_set_new g k v (ws : JSMap.t WindowState) :
  k ∉ JSMap.keys ws ->
  entries_set (Json.VStr k) v (entries_of g ws) = entries_of g ws ++ [(Json.VStr k, v)].
Proof.
  induction ws as [|[k' w'] ws IH]; intros Hk; [done|].
  cbn [entries_of map fst snd entries_set same_value_zero].
  unfold JSMap.keys in Hk. cbn [map fst] in Hk.
  apply not_elem_of_cons in Hk as [Hne Hk].
  destruct (String.eqb_spec k k') as [->|_]; [done|].
  fold (entries_of g ws). rewrite IH by done. done.
Qed.

Lemma add_entries_new g (ws done : JSMap.t WindowState) :
  NoDup (JSMap.keys (done ++ ws)) ->
  add_entries (entry_items g ws) (entries_of g done)
  = App.Returned (entries_of g (done ++ ws)).
Proof.
  revert done. induction ws as [|[k w] ws IH]; intros done Hnd.
  - by rewrite app_nil_r.
  - cbn [entry_items map add_entries fst snd Json.item nth].
    rewrite entries_set_new.
    + change (entries_of g done ++ [(Json.VStr k, g w)])
        with (entries_of g done ++ entries_of g [(k, w)]).
      unfold entries_of at 1 2. rewrite <- map_app. fold (entries_of g (done ++ [(k, w)])).
      fold (entry_items g ws). rewrite IH; rewrite <- app_assoc; done.
    + unfold JSMap.keys in *. rewrite map_app in Hnd. cbn [map fst] in Hnd.
      apply list.NoDup_app in Hnd as (_ & Hnd & _).
      intros Hin. apply (Hnd k Hin). left.
Qed.

Lemma mapM_read_entries (ws : JSMap.t WindowState) :
  mapM read_entry (entries_of json_of_window ws) = Some ws.
Proof.
  induction ws as [|[k w] ws IH]; [done|].
  cbn [entries_of map fst snd]. fold (entries_of json_of_window ws).
  cbn [mapM]. rewrite IH. unfold read_entry. cbn [fst snd read_string].
  by rewrite read_window_json.
Qed.

Lemma mapM_read_strings (l : list string) :
  mapM read_string (map Json.VStr l) = Some l.
Proof. induction l as [|s l IH]; [done|]. cbn [map mapM]. by rewrite IH. Qed.

Lemma member_of_state a b c d :
  let props := [("windows", a); ("windowOrder", b); ("focusedWindowId", c);
                ("nextZIndex", d)] in
  Json.member "windows" props = a /\ Json.member "windowOrder" props = b
  /\ Json.member "focusedWindowId" props = c /\ Json.member "nextZIndex" props = d.
Proof. done. Qed.

(** The value the [state] variable is assigned when a saved state is
    loaded. *)
Definition raw_of_state st : RawState :=
  {| r_windows := entries_of json_of_window (windows st);
     r_windowOrder := Json.VArr (map Json.VStr (windowOrder st));
     r_focusedWindowId :=
       match focusedWindowId st with
       | Some focused => Json.VStr focused
       | None => Json.VNull
       end;
     r_nextZIndex := Json.num (nextZIndex st) |}.

Lemma read_raw_of_state st : read_state (raw_of_state st) = Some st.
Proof.
  destruct st as [ws order focused next]. unfold read_state, raw_of_state.
  cbn [r_windows r_windowOrder r_focusedWindowId r_nextZIndex
       windows windowOrder focusedWindowId nextZIndex].
  rewrite mapM_read_entries, mapM_read_strings, read_number_num.
  by destruct focused.
Qed.

Lemma load_saved_state m :
  NoDup (JSMap.keys (windows (state m))) ->
  Forall (fun w => metadata_safe w = true) (getAllWindows m) ->
  loadSerializedState (getSerializedState m) = Assigned (raw_of_state (state m)).
Proof.
  intros Hnd Hsafe. unfold loadSerializedState, getSerializedState.
  rewrite JSON_parse_stringify by done.
  rewrite jsonify_serializable by done. unfold json_of_state.
  cbn [get_prop].
  match goal with
  | |- context [Json.member "windows" [(_, ?a); (_, ?b); (_, ?c); (_, ?d)]] =>
      destruct (member_of_state a b c d) as (-> & -> & -> & ->)
  end.
  cbn [new_Map]. fold (entry_items json_of_window (windows (state m))).
  change (@nil (Json.value * Json.value)) with (entries_of json_of_window []).
  by rewrite add_entries_new.
Qed.

End PersistenceFacts.

Section RoundTrip.
Import WM.

Implicit Types (m : Manager) (st : WindowManagerState) (w : WindowState).




(** Functions are not the only metadata that JSON cannot hold: numbers
    that are not finite come back as [null], [-0] as [0] and a date as a
    string. *)
Definition measured_run : list op :=
  [CreateWindow "a" "app" None None
     (Some [("ratio", Json.VNaN); ("limit", Json.VInfinity false);
            ("offset", Json.VNegZero);
            ("opened", Json.VDate "2024-05-01T10:00:00.000Z")]);
   RunTimer].

Lemma non_json_metadata_is_changed :
  let m := run measured_run createWindowManager in
  exists m',
    after_load (loadSerializedState (getSerializedState m)) m = Some m'
    /\ metadata <$> JSMap.get "a" (windows (state m'))
       = Some (Some [("ratio", Json.VNull); ("limit", Json.VNull);
                     ("offset", Json.num 0);
                     ("opened", Json.VStr "2024-05-01T10:00:00.000Z")]).
Proof. eexists. split; [vm_compute; reflexivity|reflexivity]. Qed.



(** *** Texts that are not saved states *)

Lemma load_syntax_error s m :
  Json.JSON_parse s = None ->
  loadSerializedState s = Caught "SyntaxError"
  /\ after_load (loadSerializedState s) m = Some m.
Proof. intros H. unfold loadSerializedState. by rewrite H. Qed.

(** C3 fails on the code for texts that are JSON but not a saved state.
    [loadSerializedState] does not look at what it parsed: on the text
    of an empty object no exception is raised, so nothing is caught, and
    the [state] variable is assigned a record with an empty window map
    and [undefined] for the stacking order, the focused identity and the
    z-index counter.  The window of the prior state is gone, and the
    call returns normally.  (Only what makes [JSON.parse] or [new Map]
    throw leaves the state as it was, and then the error is logged, not
    given to the caller.) *)
Theorem C3_wrong_shape_replaces_state :
  let m := run [plain_window "a"; RunTimer] createWindowManager in
  reachable m
  /\ JSMap.keys (windows (state m)) = ["a"]
  /\ Json.JSON_parse "{}" = Some (Json.VObj [])
  /\ loadSerializedState "{}"
     = Assigned {| r_windows := []; r_windowOrder := Json.VUndefined;
                   r_focusedWindowId := Json.VUndefined;
                   r_nextZIndex := Json.VUndefined |}
  /\ after_load (loadSerializedState "{}") m <> Some m
  /\ loadSerializedState "{oops" = Caught "SyntaxError"
  /\ after_load (loadSerializedState "{oops") m = Some m.
Proof.
  split; [apply reachable_run|]. split; [reflexivity|].
  split; [vm_compute; reflexivity|]. split; [vm_compute; reflexivity|].
  split; [vm_compute; discriminate|]. split; vm_compute; reflexivity.
Qed.

End RoundTrip.

Section ConstraintsAndLoading.
Import WM.

Implicit Types (m : Manager) (st : WindowManagerState) (w : WindowState).

(** *** Constraints are kept for live windows only *)

Definition constraints_of_live m : Prop :=
  forall id, id ∉ JSMap.keys (windows (state m)) -> windowConstraints m !! id = None.

Lemma constraints_of_live_frame m m' :
  windowConstraints m' = windowConstraints m ->
  JSMap.keys (windows (state m')) = JSMap.keys (windows (state m)) ->
  constraints_of_live m -> constraints_of_live m'.
Proof. intros Hc Hk H id. rewrite Hc, Hk. apply H. Qed.

Lemma focusWindow_frame id m :
  windowConstraints (focusWindow id m).1 = windowConstraints m
  /\ JSMap.keys (windows (state (focusWindow id m).1)) = JSMap.keys (windows (state m)).
Proof.
  unfold focusWindow.
  destruct (JSMap.get id (windows (state m))) as [w|]; [|done].
  destruct (isMinimized w); [done|].
  destruct (focusedWindowId (state m)) as [f|]; simpl.
  - destruct (_ && _); simpl.
    + destruct (JSMap.get f _); simpl; (split; [done|]);
        rewrite keys_update, bringToFront_keys; simpl; by rewrite ?keys_update.
    + split; [done|]. by rewrite keys_update, bringToFront_keys.
  - split; [done|]. by rewrite keys_update, bringToFront_keys.
Qed.

Lemma constraints_of_live_focusWindow id m :
  constraints_of_live m -> constraints_of_live (focusWindow id m).1.
Proof.
  destruct (focusWindow_frame id m) as [Hc Hk]. by apply constraints_of_live_frame.
Qed.

Lemma constraints_of_live_update k f m :
  constraints_of_live m ->
  constraints_of_live (with_state (with_windows (JSMap.update k f) (state m)) m).
Proof.
  apply constraints_of_live_frame; [done|]. simpl. apply keys_update.
Qed.

Lemma constraints_of_live_step o m :
  constraints_of_live m -> constraints_of_live (step o m).
Proof.
  intros H.
  destruct o as [wid app b c md|wid|wid|wid|wid|wid|wid p|wid sz|]; simpl.
  - (* createWindow *)
    unfold createWindow, JSMap.has.
    destruct (JSMap.get wid (windows (state m))) eqn:Hg; [done|]. simpl.
    assert (wid ∉ JSMap.keys (windows (state m))) as Hnin by (by apply get_None_keys).
    intros k. simpl. rewrite keys_set_new by done.
    rewrite not_elem_of_app, list_elem_of_singleton. intros [Hk Hne].
    destruct c as [c|]; [rewrite lookup_insert_ne by done|]; by apply H.
  - (* destroyWindow *)
    unfold destroyWindow.
    destruct (JSMap.get wid (windows (state m))) eqn:Hg; [|done].
    assert (forall st2 ts,
      JSMap.keys (windows st2)
      = JSMap.keys (JSMap.delete wid (windows (state m))) ->
      constraints_of_live {| state := st2;
                             windowConstraints := delete wid (windowConstraints m);
                             viewport := viewport m; timers := ts |}) as Hd.
    { intros st2 ts Hk k. simpl. rewrite Hk, keys_delete, list_elem_of_filter.
      intros Hnot. destruct (decide (k = wid)) as [->|Hne].
      - apply lookup_delete_eq.
      - rewrite lookup_delete_ne by done. apply H. tauto. }
    destruct (bool_decide _); [|by apply Hd].
    destruct (getTopmostWindow _); by apply Hd.
  - by apply constraints_of_live_focusWindow.
  - (* minimizeWindow *)
    unfold minimizeWindow.
    destruct (JSMap.get wid (windows (state m))) as [w|]; [|done].
    destruct (isMinimized w); [done|].
    set (st1 := with_windows _ (state m)).
    assert (constraints_of_live (with_state st1 m)) as H1
      by (by apply constraints_of_live_update).
    destruct (bool_decide _); [|done].
    destruct (getTopmostWindow st1) as [next|]; [|done].
    pose proof (constraints_of_live_focusWindow (WM.id next) (with_state st1 m) H1) as Hf.
    by destruct (focusWindow (WM.id next) (with_state st1 m)).
  - (* maximizeWindow *)
    unfold maximizeWindow.
    destruct (JSMap.get wid (windows (state m))) as [w|]; [|done].
    destruct (isMaximized w); [done|]. by apply constraints_of_live_update.
  - (* restoreWindow *)
    unfold restoreWindow.
    destruct (JSMap.get wid (windows (state m))) as [w|]; [|done].
    destruct (isMinimized w).
    + set (st1 := with_windows _ (state m)).
      assert (constraints_of_live (with_state st1 m)) as H1
        by (by apply constraints_of_live_update).
      pose proof (constraints_of_live_focusWindow wid (with_state st1 m) H1) as Hf.
      by destruct (focusWindow wid (with_state st1 m)).
    + destruct (isMaximized w); [|done]. by apply constraints_of_live_update.
  - (* moveWindow *)
    unfold moveWindow.
    destruct (JSMap.get wid (windows (state m))) as [w|]; [|done].
    destruct (forbids _ _); [done|]. by apply constraints_of_live_update.
  - (* resizeWindow *)
    unfold resizeWindow.
    destruct (JSMap.get wid (windows (state m))) as [w|]; [|done].
    destruct (forbids _ _); [done|]. by apply constraints_of_live_update.
  - (* runTimer *)
    unfold runTimer. destruct (timers m) as [|wid rest]; [done|].
    by apply (constraints_of_live_focusWindow wid (with_timers rest m)).
Qed.

Lemma reachable_constraints_of_live m : reachable m -> constraints_of_live m.
Proof.
  induction 1 as [|o m _ IH]; [done|]. by apply constraints_of_live_step.
Qed.

(** C9, as amended.  The saved text is computed from the [state]
    variable alone: it is the same whatever the constraints map holds.  A
    load assigns the [state] variable only, so the constraints map after
    it is the map from before; a window of the loaded state can be moved
    (resized) unless the old map forbids it for that identity.  In a
    state reached by the window operations alone, a window that is not
    live has no entry in the map, so a window that exists only via a load
    into such a state has no constraints. *)
Theorem C9_constraints_do_not_round_trip :
  (forall c m, getSerializedState (with_constraints c m) = getSerializedState m)
  /\ (forall s m m',
        after_load (loadSerializedState s) m = Some m' ->
        windowConstraints m' = windowConstraints m
        /\ forall id w,
             JSMap.get id (windows (state m')) = Some w ->
             (forall p, moveWindow id p m' = (m', [])
                        <-> forbids canMove (windowConstraints m !! id) = true)
             /\ (forall size, resizeWindow id size m' = (m', [])
                        <-> forbids canResize (windowConstraints m !! id) = true))
  /\ (forall m id,
        reachable m -> JSMap.get id (windows (state m)) = None ->
        windowConstraints m !! id = None).
Proof.
  split; [done|]. split.
  - intros s m m' Hload.
    assert (windowConstraints m' = windowConstraints m) as Hc.
    { unfold after_load in Hload. destruct (loadSerializedState s) as [raw|e].
      - destruct (read_state raw); [|done]. by injection Hload as <-.
      - by injection Hload as <-. }
    split; [done|]. intros wid w Hg. rewrite <- Hc. split.
    + intros p. unfold moveWindow. rewrite Hg.
      destruct (forbids canMove _); split; intros H; done.
    + intros size. unfold resizeWindow. rewrite Hg.
      destruct (forbids canResize _); split; intros H; done.
  - intros m wid Hm Hg. apply (reachable_constraints_of_live m Hm).
    by apply get_None_keys.
Qed.

Definition two_plain_windows : Manager :=
  run [plain_window "a"; RunTimer; plain_window "b"; RunTimer] createWindowManager.

Lemma C9_locked_window_after_load_witness :
  let m' := with_state (state two_plain_windows) locked_manager in
  after_load (loadSerializedState (getSerializedState two_plain_windows)) locked_manager
  = Some m'
  /\ windowConstraints m' = windowConstraints locked_manager
  /\ moveWindow "a" {| x := 1; y := 2 |} m' = (m', [])
  /\ resizeWindow "a" {| width := 1; height := 2 |} m' = (m', [])
  /\ windowConstraints locked_manager !! "b" = None.
Proof.
  intros m'.
  assert (after_load (loadSerializedState (getSerializedState two_plain_windows))
            locked_manager = Some m') as Hload.
  { unfold after_load.
    destruct (reachable_order_matches two_plain_windows (reachable_run _)) as (Hnd & _).
    rewrite load_saved_state; [by rewrite read_raw_of_state|done|].
    repeat constructor. }
  destruct C9_constraints_do_not_round_trip as (_ & Hafter & Hnew).
  destruct (Hafter _ _ _ Hload) as [Hc Hperm].
  assert (exists w, JSMap.get "a" (windows (state m')) = Some w) as [w Hw]
    by (eexists; reflexivity).
  destruct (Hperm "a" w Hw) as [Hmove Hresize].
  split; [exact Hload|]. split; [exact Hc|].
  split; [apply Hmove; reflexivity|].
  split; [apply Hresize; reflexivity|].
  apply Hnew; [apply reachable_run|reflexivity].
Defined.

Definition one_plain_window : Manager :=
  run [plain_window "b"; RunTimer] createWindowManager.

(** C9, as stated, fails on its parenthesis once a load has happened: a
    load drops window "a" but not its constraints, so when a later load
    brings a window "a" (saved by a manager where it had no constraints),
    that window, which exists only via the load, can be neither moved nor
    resized. *)
Lemma C9_stale_constraints_bind_a_loaded_window :
  let m1 := with_state (state one_plain_window) locked_manager in
  let m2 := with_state (state two_plain_windows) m1 in
  after_load (loadSerializedState (getSerializedState one_plain_window)) locked_manager
  = Some m1
  /\ JSMap.get "a" (windows (state m1)) = None
  /\ windowConstraints m1 !! "a" = Some locked
  /\ windowConstraints two_plain_windows !! "a" = None
  /\ after_load (loadSerializedState (getSerializedState two_plain_windows)) m1 = Some m2
  /\ is_Some (JSMap.get "a" (windows (state m2)))
  /\ windowConstraints m2 !! "a" = Some locked
  /\ moveWindow "a" {| x := 1; y := 2 |} m2 = (m2, [])
  /\ resizeWindow "a" {| width := 1; height := 2 |} m2 = (m2, []).
Proof.
  intros m1 m2.
  assert (forall m m0, reachable m ->
            Forall (fun w => metadata_safe w = true) (getAllWindows m) ->
            after_load (loadSerializedState (getSerializedState m)) m0
            = Some (with_state (state m) m0)) as Hload.
  { intros m m0 Hm Hsafe.
    destruct (reachable_order_matches m Hm) as (Hnd & _).
    rewrite load_saved_state by done.
    unfold after_load. by rewrite read_raw_of_state. }
  split; [apply Hload; [apply reachable_run|repeat constructor]|].
  split; [reflexivity|]. split; [reflexivity|]. split; [reflexivity|].
  split; [apply Hload; [apply reachable_run|repeat constructor]|].
  split; [eexists; reflexivity|]. split; [reflexivity|].
  split; reflexivity.
Qed.

End ConstraintsAndLoading.

(* ================================================================== *)
(** * Part III.  Further properties of the code *)
(* ================================================================== *)

(** ** Window manager: what every reachable state satisfies *)

Section WindowRecords.
Import WM.

Implicit Types (m : Manager) (st : WindowManagerState) (ws : JSMap.t WindowState).

Lemma renumber_get_other n order k ws :
  k ∉ order -> JSMap.get k (renumber n order ws) = JSMap.get k ws.
Proof.
  revert n ws. induction order as [|j order IH]; intros n ws Hk; simpl; [done|].
  apply not_elem_of_cons in Hk as [Hne Hk].
  rewrite IH by done. by rewrite get_update_ne.
Qed.

(** [updateZIndices] gives the window at position [i] the z-index
    [i + 1]. *)
Lemma renumber_zIndex n order ws i k :
  NoDup order -> order !! i = Some k -> is_Some (JSMap.get k ws) ->
  zIndex <$> JSMap.get k (renumber n order ws) = Some (n + Z.of_nat i).
Proof.
  revert n ws i. induction order as [|j order IH]; intros n ws i Hnd Hi Hk; [done|].
  apply list.NoDup_cons in Hnd as [Hj Hnd]. destruct i as [|i]; simpl in *.
  - injection Hi as ->. rewrite renumber_get_other by done.
    rewrite get_update_eq. destruct Hk as [w ->]. simpl. f_equal. lia.
  - rewrite (IH (n + 1) _ i) by (done || by apply get_is_Some_update).
    f_equal. lia.
Qed.

(** What the code keeps of every window record: it is stored under its
    own identity, it is visible, and its z-index lies between 1 and the
    z-index counter. *)
Definition well_kept st : Prop :=
  1 <= nextZIndex st
  /\ forall k w, JSMap.get k (windows st) = Some w ->
       id w = k /\ isVisible w = true /\ 1 <= zIndex w < nextZIndex st.

Lemma well_kept_update k f st :
  (forall w, isVisible w = true -> isVisible (f w) = true) ->
  (forall w, id (f w) = id w) -> (forall w, zIndex (f w) = zIndex w) ->
  well_kept st -> well_kept (with_windows (JSMap.update k f) st).
Proof.
  intros Hvis Hid Hz [Hn H]. split; [done|].
  intros j w. simpl. destruct (decide (j = k)) as [->|Hne].
  - rewrite get_update_eq. destruct (JSMap.get k (windows st)) as [w0|] eqn:E; [|done].
    simpl. intros [= <-]. destruct (H k w0 E) as (H1 & H2 & H3).
    rewrite Hid, Hz. split; [done|]. split; [|done]. by apply Hvis.
  - rewrite get_update_ne by done. apply H.
Qed.

Lemma order_matches_blurred id st :
  order_matches_windows st -> order_matches_windows (blurred id st).
Proof.
  intros H. unfold blurred. destruct (focusedWindowId st) as [f|]; [|done].
  destruct (_ && _); [|done]. destruct (JSMap.get f _); [|done].
  by apply order_matches_update.
Qed.

Lemma well_kept_blurred id st : well_kept st -> well_kept (blurred id st).
Proof.
  intros H. unfold blurred. destruct (focusedWindowId st) as [f|]; [|done].
  destruct (_ && _); [|done]. destruct (JSMap.get f _); [|done].
  by apply well_kept_update.
Qed.

Lemma well_kept_bringToFront id st :
  order_matches_windows st -> well_kept st -> well_kept (bringToFront id st).
Proof.
  intros Hm [Hn H]. pose proof (order_matches_bringToFront id st Hm) as (_ & Hnd & Hin).
  revert Hnd Hin. unfold bringToFront.
  destruct (JSMap.get id (windows st)) as [wi|]; [|done]. simpl.
  set (order := filter _ _ ++ [id]). rewrite keys_renumber.
  intros Hnd Hin. split; [simpl; lia|]. intros k w Hk.
  change (JSMap.get k (renumber 1 order (windows st)) = Some w) in Hk.
  change (WM.id w = k /\ isVisible w = true
          /\ 1 <= zIndex w < Z.of_nat (length order) + 1).
  assert (is_Some (JSMap.get k (windows st))) as [w0 Hw0].
  { apply get_Some_keys. rewrite <- (keys_renumber 1 order). apply get_Some_keys. eauto. }
  destruct (H k w0 Hw0) as (H1 & H2 & _).
  pose proof (get_renumber_map WM.id 1 order k (windows st) (fun _ _ => eq_refl)) as Ei.
  pose proof (get_renumber_map isVisible 1 order k (windows st) (fun _ _ => eq_refl)) as Ev.
  rewrite Hk, Hw0 in Ei, Ev. simpl in Ei, Ev.
  injection Ei as Ei. injection Ev as Ev.
  split; [congruence|]. split; [congruence|].
  assert (k ∈ order) as Hko by (apply Hin, get_Some_keys; eauto).
  apply list_elem_of_lookup in Hko as [i Hi].
  pose proof (renumber_zIndex 1 order (windows st) i k Hnd Hi (ex_intro _ w0 Hw0)) as Hz.
  rewrite Hk in Hz. simpl in Hz. injection Hz as ->.
  apply lookup_lt_Some in Hi. lia.
Qed.

Lemma well_kept_focusWindow id m :
  order_matches_windows (state m) -> well_kept (state m) ->
  well_kept (state (focusWindow id m).1).
Proof.
  intros Hm H.
  destruct (JSMap.get id (windows (state m))) as [wi|] eqn:Hg; cycle 1.
  { rewrite focusWindow_noop; [done|]. intros w'. by rewrite Hg. }
  destruct (isMinimized wi) eqn:Hmin.
  { rewrite focusWindow_noop; [done|]. intros w'. rewrite Hg. by intros [= <-]. }
  rewrite (focusWindow_state id m wi Hg Hmin).
  apply (well_kept_update id (set_isFocused true)); [done..|].
  apply well_kept_bringToFront; [by apply order_matches_blurred|].
  by apply well_kept_blurred.
Qed.

Lemma well_kept_step o m :
  order_matches_windows (state m) -> well_kept (state m) ->
  well_kept (state (step o m)).
Proof.
  intros Hm H. pose proof H as [Hn Hw].
  destruct o as [wid app b c md|wid|wid|wid|wid|wid|wid p|wid sz|]; simpl.
  - (* createWindow *)
    unfold createWindow, JSMap.has.
    destruct (JSMap.get wid (windows (state m))) as [w0|] eqn:Hg; [done|]. simpl.
    split; [simpl; lia|]. intros k w. simpl.
    destruct (decide (k = wid)) as [->|Hne].
    + rewrite get_set_eq. intros [= <-]. simpl. split; [done|]. split; [done|]. lia.
    + rewrite get_set_ne by done. intros Hk.
      destruct (Hw k w Hk) as (H1 & H2 & H3). split; [done|]. split; [done|]. lia.
  - (* destroyWindow *)
    unfold destroyWindow.
    destruct (JSMap.get wid (windows (state m))) as [w0|] eqn:Hg; [|done].
    assert (forall st2,
      windows st2 = JSMap.delete wid (windows (state m)) ->
      nextZIndex st2 = nextZIndex (state m) -> well_kept st2) as Hd.
    { intros st2 E1 E2. split; [by rewrite E2|]. intros k w. rewrite E1, E2.
      destruct (decide (k = wid)) as [->|Hne]; [by rewrite get_delete_eq|].
      rewrite get_delete_ne by done. apply Hw. }
    destruct (bool_decide _); [|by apply Hd].
    destruct (getTopmostWindow _); by apply Hd.
  - by apply well_kept_focusWindow.
  - (* minimizeWindow *)
    unfold minimizeWindow.
    destruct (JSMap.get wid (windows (state m))) as [w|]; [|done].
    destruct (isMinimized w); [done|].
    set (st1 := with_windows _ (state m)).
    assert (well_kept st1) as H1 by (by apply well_kept_update).
    assert (order_matches_windows st1) as Hm1 by (by apply order_matches_update).
    destruct (bool_decide _); [|done].
    destruct (getTopmostWindow st1) as [next|]; [|done].
    pose proof (well_kept_focusWindow (WM.id next) (with_state st1 m) Hm1 H1) as Hf.
    by destruct (focusWindow (WM.id next) (with_state st1 m)).
  - (* maximizeWindow *)
    unfold maximizeWindow.
    destruct (JSMap.get wid (windows (state m))) as [w|]; [|done].
    destruct (isMaximized w); [done|]. by apply well_kept_update.
  - (* restoreWindow *)
    unfold restoreWindow.
    destruct (JSMap.get wid (windows (state m))) as [w|]; [|done].
    destruct (isMinimized w).
    + set (st1 := with_windows _ (state m)).
      assert (well_kept st1) as H1 by (by apply well_kept_update).
      assert (order_matches_windows st1) as Hm1 by (by apply order_matches_update).
      pose proof (well_kept_focusWindow wid (with_state st1 m) Hm1 H1) as Hf.
      by destruct (focusWindow wid (with_state st1 m)).
    + destruct (isMaximized w); [|done]. by apply well_kept_update.
  - (* moveWindow *)
    unfold moveWindow.
    destruct (JSMap.get wid (windows (state m))) as [w|]; [|done].
    destruct (forbids _ _); [done|]. by apply well_kept_update.
  - (* resizeWindow *)
    unfold resizeWindow.
    destruct (JSMap.get wid (windows (state m))) as [w|]; [|done].
    destruct (forbids _ _); [done|]. by apply well_kept_update.
  - (* runTimer *)
    unfold runTimer. destruct (timers m) as [|wid rest]; [done|].
    by apply (well_kept_focusWindow wid (with_timers rest m)).
Qed.

Lemma reachable_well_kept m : reachable m -> well_kept (state m).
Proof.
  induction 1 as [|o m Hm IH]; [split; [done|]; done|].
  apply well_kept_step; [by apply reachable_order_matches|done].
Qed.

(** A desktop with three windows: "a" was minimized, "c" is focused. *)
Definition sample_ops : list op :=
  [plain_window "a"; RunTimer; plain_window "b"; RunTimer;
   plain_window "c"; RunTimer; MinimizeWindow "a"].

Definition sample_desk : Manager := run sample_ops createWindowManager.

(** X1.  In every state reached by the public operations and the
    deferred focus steps, the stacking order lists the identities of the
    live windows, each exactly once: [destroyWindow] and [bringToFront]
    keep [windowOrder] and the window map in step. *)
Theorem X1_stacking_order_lists_the_live_windows m :
  reachable m ->
  NoDup (windowOrder (state m))
  /\ (forall id, id ∈ windowOrder (state m)
                 <-> is_Some (JSMap.get id (windows (state m))))
  /\ length (windowOrder (state m)) = length (getAllWindows m).
Proof.
  intros Hm. destruct (reachable_order_matches m Hm) as (Hk & Ho & Hin).
  split; [done|]. split.
  - intros k. by rewrite Hin, get_Some_keys.
  - rewrite (Permutation_length (NoDup_Permutation _ _ Ho Hk Hin)).
    unfold getAllWindows, JSMap.values, JSMap.keys. by rewrite !length_map.
Qed.

Lemma X1_stacking_order_witness :
  NoDup (windowOrder (state sample_desk))
  /\ (forall id, id ∈ windowOrder (state sample_desk)
                 <-> is_Some (JSMap.get id (windows (state sample_desk))))
  /\ length (windowOrder (state sample_desk)) = length (getAllWindows sample_desk).
Proof. apply X1_stacking_order_lists_the_live_windows, reachable_run. Defined.

(** X2.  In every reachable state a window record is stored under its
    own identity: the identities of [getAllWindows()] are the keys of the
    window map, in insertion order and without repetition. *)
Theorem X2_windows_are_stored_under_their_identity m :
  reachable m ->
  map id (getAllWindows m) = JSMap.keys (windows (state m))
  /\ NoDup (map id (getAllWindows m))
  /\ forall k w, JSMap.get k (windows (state m)) = Some w -> id w = k.
Proof.
  intros Hm. destruct (reachable_order_matches m Hm) as (Hk & _).
  destruct (reachable_well_kept m Hm) as [_ Hw].
  assert (map id (getAllWindows m) = JSMap.keys (windows (state m))) as E.
  { unfold getAllWindows, JSMap.values, JSMap.keys. rewrite map_map.
    apply map_ext_in. intros [k w] Hin. simpl.
    apply (Hw k w), elem_of_get; [done|]. by apply list_elem_of_In. }
  split; [done|]. split; [by rewrite E|]. intros k w Hg. by apply (Hw k w).
Qed.

Lemma X2_stored_under_identity_witness :
  map id (getAllWindows sample_desk) = JSMap.keys (windows (state sample_desk))
  /\ NoDup (map id (getAllWindows sample_desk))
  /\ forall k w, JSMap.get k (windows (state sample_desk)) = Some w -> id w = k.
Proof. apply X2_windows_are_stored_under_their_identity, reachable_run. Defined.

(** X3.  No operation hides a window: in every reachable state every
    window has [isVisible = true] (the flag is set at creation and by
    [restoreWindow], and nothing clears it), so [getTopmostWindow] skips
    minimized windows only. *)
Theorem X3_no_window_is_ever_hidden m :
  reachable m ->
  (forall w, w ∈ getAllWindows m -> isVisible w = true)
  /\ getTopmostWindow (state m)
     = head (filter (fun w => isMinimized w = false)
               (omap (fun k => JSMap.get k (windows (state m)))
                  (rev (windowOrder (state m))))).
Proof.
  intros Hm. destruct (reachable_well_kept m Hm) as [_ Hw].
  split.
  - intros w Hin. unfold getAllWindows, JSMap.values in Hin.
    apply list_elem_of_fmap in Hin as ([k w'] & -> & Hin). simpl.
    destruct (reachable_order_matches m Hm) as (Hk & _).
    by apply (Hw k w'), elem_of_get.
  - unfold getTopmostWindow. induction (rev (windowOrder (state m))) as [|k l IH]; [done|].
    simpl. destruct (JSMap.get k (windows (state m))) as [w|] eqn:Hg; [|done].
    destruct (Hw k w Hg) as (_ & -> & _). rewrite andb_true_r.
    rewrite filter_cons. destruct (decide (isMinimized w = false)) as [E|E].
    + by rewrite E.
    + apply not_false_is_true in E. by rewrite E.
Qed.

Lemma X3_no_window_hidden_witness :
  (forall w, w ∈ getAllWindows sample_desk -> isVisible w = true)
  /\ getTopmostWindow (state sample_desk)
     = head (filter (fun w => isMinimized w = false)
               (omap (fun k => JSMap.get k (windows (state sample_desk)))
                  (rev (windowOrder (state sample_desk))))).
Proof. apply X3_no_window_is_ever_hidden, reachable_run. Defined.

End WindowRecords.

(** ** Window manager: what the operations do *)

Section WindowOperations.
Import WM.

Implicit Types (m : Manager) (st : WindowManagerState) (ws : JSMap.t WindowState).

(** X4.  A window created in a reachable state is stored under its
    identity, is last in the stacking order and has a z-index above that
    of every window that was there, although the z-indices need not be
    contiguous after a [destroyWindow]. *)
Theorem X4_created_window_is_on_top m id app b c md m' fx w :
  reachable m ->
  createWindow id app b c md m = App.Returned (m', fx, w) ->
  JSMap.get id (windows (state m)) = None
  /\ JSMap.get id (windows (state m')) = Some w
  /\ list.last (windowOrder (state m')) = Some id
  /\ fx = [ev_create id w]
  /\ forall k w0, JSMap.get k (windows (state m)) = Some w0 -> zIndex w0 < zIndex w.
Proof.
  intros Hm. destruct (reachable_well_kept m Hm) as [_ Hw].
  unfold createWindow, JSMap.has.
  destruct (JSMap.get id (windows (state m))) as [w0|] eqn:Hg; [done|].
  intros [= <- <- <-]. simpl. split; [done|].
  split; [apply get_set_eq|]. split; [apply last_snoc|]. split; [done|].
  intros k w0 Hk. by apply (Hw k w0).
Qed.

Lemma X4_created_on_top_witness :
  match createWindow "d" "app" None None None sample_desk with
  | App.Returned (m', _, w) =>
      list.last (windowOrder (state m')) = Some "d"
      /\ forall k w0, JSMap.get k (windows (state sample_desk)) = Some w0 ->
                      zIndex w0 < zIndex w
  | App.Thrown _ => False
  end.
Proof.
  destruct (createWindow "d" "app" None None None sample_desk)
    as [[[m' fx] w]|e] eqn:E; [|vm_compute in E; discriminate E].
  destruct (X4_created_window_is_on_top sample_desk "d" "app" None None None
              m' fx w (reachable_run _) E) as (_ & _ & Hl & _ & Hz).
  split; [exact Hl|exact Hz].
Defined.

(** X5.  Focusing a live window that is not minimized, in a reachable
    state, moves it to the end of the stacking order and renumbers: the
    window at position [i] gets z-index [i + 1], the counter becomes the
    number of windows plus one, and the window is the focused one. *)
Theorem X5_focus_renumbers_the_stack m id w :
  reachable m ->
  JSMap.get id (windows (state m)) = Some w -> isMinimized w = false ->
  let st' := state (focusWindow id m).1 in
  windowOrder st' = filter (fun k => k ≠ id) (windowOrder (state m)) ++ [id]
  /\ nextZIndex st' = Z.of_nat (length (windowOrder st')) + 1
  /\ focusedWindowId st' = Some id
  /\ isFocused <$> JSMap.get id (windows st') = Some true
  /\ forall i k, windowOrder st' !! i = Some k ->
       zIndex <$> JSMap.get k (windows st') = Some (Z.of_nat i + 1).
Proof.
  intros Hm Hg Hmin st'. unfold st'.
  rewrite (focusWindow_state id m w Hg Hmin).
  pose proof (order_matches_blurred id _ (reachable_order_matches m Hm)) as Hb.
  pose proof (order_matches_bringToFront id _ Hb) as (_ & Hnd & Hin).
  assert (is_Some (JSMap.get id (windows (blurred id (state m))))) as [wb Hwb].
  { apply get_Some_keys. rewrite blurred_keys. apply get_Some_keys. eauto. }
  revert Hnd Hin. unfold bringToFront. rewrite Hwb. simpl.
  rewrite blurred_order, keys_renumber.
  set (order := filter _ _ ++ [id]). intros Hnd Hin.
  split; [done|]. split; [done|]. split; [done|]. split.
  - rewrite get_update_eq.
    assert (is_Some (JSMap.get id (renumber 1 order (windows (blurred id (state m))))))
      as [w1 ->] by (apply get_is_Some_renumber; eauto).
    done.
  - intros i k Hi. rewrite (get_update_map zIndex) by done.
    rewrite (renumber_zIndex 1 order _ i k Hnd Hi).
    + f_equal. lia.
    + apply get_Some_keys, Hin, list_elem_of_lookup. eauto.
Qed.

Lemma X5_focus_renumbers_witness :
  let st' := state (focusWindow "b" sample_desk).1 in
  windowOrder st' = ["a"; "c"; "b"]
  /\ forall i k, windowOrder st' !! i = Some k ->
       zIndex <$> JSMap.get k (windows st') = Some (Z.of_nat i + 1).
Proof.
  intros st'.
  assert (exists w, JSMap.get "b" (windows (state sample_desk)) = Some w
                    /\ isMinimized w = false) as (w & Hw & Hmin)
    by (vm_compute; eexists; split; reflexivity).
  destruct (X5_focus_renumbers_the_stack sample_desk "b" w (reachable_run _) Hw Hmin)
    as (Ho & _ & _ & _ & Hz).
  split; [exact Ho|exact Hz].
Defined.

(** [focusWindow] changes nothing of a window but its z-index and its
    focused flag. *)
Lemma focusWindow_get_map {A} (g : WindowState -> A) id k m :
  (forall z w, g (set_zIndex z w) = g w) ->
  (forall b w, g (set_isFocused b w) = g w) ->
  g <$> JSMap.get k (windows (state (focusWindow id m).1))
  = g <$> JSMap.get k (windows (state m)).
Proof.
  intros Hz Hf.
  destruct (JSMap.get id (windows (state m))) as [wi|] eqn:Hg; cycle 1.
  { rewrite focusWindow_noop; [done|]. intros w'. by rewrite Hg. }
  destruct (isMinimized wi) eqn:Hmin.
  { rewrite focusWindow_noop; [done|]. intros w'. rewrite Hg. by intros [= <-]. }
  rewrite (focusWindow_state id m wi Hg Hmin). simpl.
  rewrite (get_update_map g) by done.
  rewrite (bringToFront_get_map g) by done.
  rewrite blurred_get. destruct (bool_decide _); [|done].
  destruct (JSMap.get k (windows (state m))); simpl; [|done]. by rewrite Hf.
Qed.

Lemma focusWindow_focuses id m w :
  JSMap.get id (windows (state m)) = Some w -> isMinimized w = false ->
  focusedWindowId (state (focusWindow id m).1) = Some id
  /\ isFocused <$> JSMap.get id (windows (state (focusWindow id m).1)) = Some true
  /\ list.last (windowOrder (state (focusWindow id m).1)) = Some id.
Proof.
  intros Hg Hmin. rewrite (focusWindow_state id m w Hg Hmin). simpl.
  split; [done|].
  assert (is_Some (JSMap.get id (windows (blurred id (state m))))) as [wb Hwb].
  { apply get_Some_keys. rewrite blurred_keys. apply get_Some_keys. eauto. }
  split.
  - rewrite get_update_eq.
    assert (is_Some (JSMap.get id (windows (bringToFront id (blurred id (state m))))))
      as [w1 ->]; [|done].
    apply get_Some_keys. rewrite bringToFront_keys, blurred_keys.
    apply get_Some_keys. eauto.
  - unfold bringToFront. rewrite Hwb. simpl. apply last_snoc.
Qed.

Lemma first_eligible_spec ids ws w :
  first_eligible ids ws = Some w ->
  exists k, k ∈ ids /\ JSMap.get k ws = Some w /\ isMinimized w = false.
Proof.
  induction ids as [|k ids IH]; simpl; [done|].
  destruct (JSMap.get k ws) as [w0|] eqn:Hg.
  - destruct (isMinimized w0) eqn:Hmin; simpl.
    + intros H. destruct (IH H) as (j & Hj & Hrest). exists j. split; [by right|done].
    + destruct (isVisible w0); simpl.
      * intros [= <-]. exists k. split; [left|done].
      * intros H. destruct (IH H) as (j & Hj & Hrest). exists j. split; [by right|done].
  - intros H. destruct (IH H) as (j & Hj & Hrest). exists j. split; [by right|done].
Qed.

(** X6.  Destroying the focused window removes it at once, but the focus
    is handed over by a deferred step: when another window is eligible,
    [focusedWindowId] still names the destroyed window until that step
    runs ([getFocusedWindow()] answers [undefined] in between), and the
    step then focuses the topmost window that is not minimized.  With no
    eligible window the focus is cleared at once. *)
Theorem X6_destroying_the_focused_window_defers_the_focus m id w :
  reachable m ->
  JSMap.get id (windows (state m)) = Some w ->
  focusedWindowId (state m) = Some id -> timers m = [] ->
  let m1 := (destroyWindow id m).1 in
  let m2 := (runTimer m1).1 in
  JSMap.get id (windows (state m1)) = None
  /\ getFocusedWindow m1 = None
  /\ match getTopmostWindow (state m1) with
     | Some next =>
         focusedWindowId (state m1) = Some id
         /\ focusedWindowId (state m2) = Some (WM.id next)
         /\ isFocused <$> JSMap.get (WM.id next) (windows (state m2)) = Some true
     | None => focusedWindowId (state m1) = None /\ m2 = m1
     end.
Proof.
  intros Hm Hg Hf Ht. destruct (reachable_well_kept m Hm) as [_ Hw].
  unfold destroyWindow. rewrite Hg. simpl. rewrite Hf, Ht.
  rewrite bool_decide_eq_true_2 by done.
  set (st1 := {| windows := JSMap.delete id (windows (state m));
                 windowOrder := filter (fun wId => wId ≠ id) (windowOrder (state m));
                 focusedWindowId := Some id;
                 nextZIndex := nextZIndex (state m) |}).
  destruct (getTopmostWindow st1) as [next|] eqn:Htop; simpl.
  - split; [apply get_delete_eq|]. split.
    { unfold getFocusedWindow. simpl. rewrite get_delete_eq. by destruct (negb _). }
    change (getTopmostWindow
              {| windows := windows st1; windowOrder := windowOrder st1;
                 focusedWindowId := focusedWindowId st1;
                 nextZIndex := nextZIndex st1 |}) with (getTopmostWindow st1).
    rewrite Htop. split; [done|].
    apply first_eligible_spec in Htop as (k & _ & Hk & Hmin).
    assert (WM.id next = k) as Hid.
    { simpl in Hk. destruct (decide (k = id)) as [->|Hne].
      - by rewrite get_delete_eq in Hk.
      - rewrite get_delete_ne in Hk by done. by apply (Hw k next). }
    unfold runTimer. simpl. rewrite Hid.
    match goal with
    | |- context [focusWindow k ?m0] =>
        destruct (focusWindow_focuses k m0 next Hk Hmin) as (H1 & H2 & _)
    end.
    done.
  - split; [apply get_delete_eq|]. split; [done|].
    change (getTopmostWindow (with_focusedWindowId None st1))
      with (getTopmostWindow st1).
    by rewrite Htop.
Qed.

(** Two windows, "b" focused, no deferred step pending. *)
Definition sample_pair : Manager :=
  run [plain_window "a"; RunTimer; plain_window "b"; RunTimer] createWindowManager.

Lemma X6_deferred_focus_witness :
  let m1 := (destroyWindow "b" sample_pair).1 in
  getFocusedWindow m1 = None
  /\ focusedWindowId (state m1) = Some "b"
  /\ focusedWindowId (state (runTimer m1).1) = Some "a".
Proof.
  intros m1.
  assert (exists w, JSMap.get "b" (windows (state sample_pair)) = Some w) as [w Hw]
    by (vm_compute; eexists; reflexivity).
  assert (focusedWindowId (state sample_pair) = Some "b") as Hf
    by (vm_compute; reflexivity).
  assert (timers sample_pair = []) as Ht by (vm_compute; reflexivity).
  destruct (X6_destroying_the_focused_window_defers_the_focus
              sample_pair "b" w (reachable_run _) Hw Hf Ht) as (_ & Hnone & Hnext).
  fold m1 in Hnone, Hnext. split; [exact Hnone|].
  destruct (getTopmostWindow (state m1)) as [next|] eqn:E;
    [|vm_compute in E; discriminate E].
  destruct Hnext as (H1 & H2 & _). split; [exact H1|].
  rewrite H2. vm_compute in E. injection E as <-. reflexivity.
Defined.

(** X7.  Operations on an identity that names no live window are
    ignored: the manager is returned as it was and no event is emitted
    (for [destroyWindow], [focusWindow], [minimizeWindow],
    [maximizeWindow], [restoreWindow], [moveWindow] and [resizeWindow]).
    Minimizing and maximizing are idempotent: a second call right after
    the first changes nothing and emits nothing. *)
Theorem X7_calls_without_effect m id p size :
  (JSMap.get id (windows (state m)) = None ->
   destroyWindow id m = (m, []) /\ focusWindow id m = (m, [])
   /\ minimizeWindow id m = (m, []) /\ maximizeWindow id m = (m, [])
   /\ restoreWindow id m = (m, []) /\ moveWindow id p m = (m, [])
   /\ resizeWindow id size m = (m, []))
  /\ minimizeWindow id (minimizeWindow id m).1 = ((minimizeWindow id m).1, [])
  /\ maximizeWindow id (maximizeWindow id m).1 = ((maximizeWindow id m).1, []).
Proof.
  split; [|split].
  - intros Hg.
    unfold destroyWindow, focusWindow, minimizeWindow, maximizeWindow,
      restoreWindow, moveWindow, resizeWindow.
    by rewrite Hg.
  - destruct (JSMap.get id (windows (state m))) as [w|] eqn:Hg; cycle 1.
    { unfold minimizeWindow. rewrite Hg. simpl. by rewrite Hg. }
    destruct (isMinimized w) eqn:Hmin.
    { unfold minimizeWindow. rewrite Hg, Hmin. simpl. by rewrite Hg, Hmin. }
    destruct (minimizeWindow_minimizes id m w Hg Hmin) as [H1 _].
    set (m1 := (minimizeWindow id m).1) in *. clearbody m1.
    unfold minimizeWindow.
    destruct (JSMap.get id (windows (state m1))) as [w1|]; [|done].
    simpl in H1. injection H1 as ->. done.
  - unfold maximizeWindow.
    destruct (JSMap.get id (windows (state m))) as [w|] eqn:Hg; simpl;
      [|by rewrite Hg].
    destruct (isMaximized w) eqn:Hmax; simpl; [by rewrite Hg, Hmax|].
    by rewrite get_update_eq, Hg.
Qed.

Lemma X7_calls_without_effect_witness :
  destroyWindow "z" sample_pair = (sample_pair, [])
  /\ focusWindow "z" sample_pair = (sample_pair, []).
Proof.
  destruct (X7_calls_without_effect sample_pair "z"
              {| x := 0; y := 0 |} {| width := 1; height := 1 |})
    as [H _].
  destruct H as (H1 & H2 & _); [vm_compute; reflexivity|].
  split; [exact H1|exact H2].
Defined.

(** The two tests of [resizeWindow] on one dimension. *)
Lemma clamp_spec lo hi v :
  (forall M, hi = Some M -> M <> 0 -> clamp lo hi v <= M)
  /\ (forall L, lo = Some L -> L <> 0 ->
        (forall M, hi = Some M -> M <> 0 -> L <= M) -> L <= clamp lo hi v)
  /\ (forall L M, lo = Some L -> hi = Some M -> L <> 0 -> M <> 0 -> M < L ->
        clamp lo hi v = M)
  /\ (JS.truthyZ lo = false -> JS.truthyZ hi = false -> clamp lo hi v = v).
Proof.
  unfold clamp, JS.truthyZ.
  destruct lo as [L|], hi as [M|]; simpl;
    repeat match goal with
           | |- context [?a =? 0] => destruct (Z.eqb_spec a 0); simpl
           end;
    repeat split; intros; simplify_eq; try lia; try done;
    try (match goal with H : forall M, Some _ = Some M -> _ |- _ =>
           specialize (H _ eq_refl) end; lia).
Qed.

(** X8.  A resize that the constraints allow commits the requested size
    clamped per dimension: never above a maximum that is set, and at
    least the minimum that is set unless the maximum is smaller, in
    which case the maximum wins.  A bound that is absent or 0 is not
    applied, and the position is kept. *)
Theorem X8_resize_clamps_to_the_bounds m id w c sz :
  JSMap.get id (windows (state m)) = Some w ->
  windowConstraints m !! id = Some c ->
  forbids canResize (Some c) = false ->
  exists w',
    JSMap.get id (windows (state (resizeWindow id sz m).1)) = Some w'
    /\ (resizeWindow id sz m).2 = [ev_resize id (size (bounds w'))]
    /\ position (bounds w') = position (bounds w)
    /\ width (size (bounds w')) = clamp (minWidth c) (maxWidth c) (width sz)
    /\ height (size (bounds w')) = clamp (minHeight c) (maxHeight c) (height sz)
    /\ (forall M, maxWidth c = Some M -> M <> 0 -> width (size (bounds w')) <= M)
    /\ (forall M, maxHeight c = Some M -> M <> 0 -> height (size (bounds w')) <= M)
    /\ (forall L, minWidth c = Some L -> L <> 0 ->
          (forall M, maxWidth c = Some M -> M <> 0 -> L <= M) ->
          L <= width (size (bounds w')))
    /\ (forall L, minHeight c = Some L -> L <> 0 ->
          (forall M, maxHeight c = Some M -> M <> 0 -> L <= M) ->
          L <= height (size (bounds w'))).
Proof.
  intros Hg Hc Hf. unfold resizeWindow. rewrite Hg, Hc, Hf. simpl.
  rewrite get_update_eq, Hg. simpl. eexists. split; [reflexivity|]. simpl.
  destruct (clamp_spec (minWidth c) (maxWidth c) (width sz)) as (W1 & W2 & _).
  destruct (clamp_spec (minHeight c) (maxHeight c) (height sz)) as (H1 & H2 & _).
  repeat split; done.
Qed.

Definition width_bounds : WindowConstraints :=
  {| minWidth := Some 200; minHeight := None; maxWidth := Some 800;
     maxHeight := None; canResize := None; canMove := None;
     canMinimize := None; canMaximize := None; canClose := None |}.

Definition bounded_pair : Manager :=
  with_constraints {[ "a" := width_bounds ]} sample_pair.

Lemma X8_resize_clamps_witness :
  exists w',
    JSMap.get "a"
      (windows (state (resizeWindow "a" {| width := 5000; height := 7 |}
                         bounded_pair).1)) = Some w'
    /\ width (size (bounds w')) <= 800
    /\ 200 <= width (size (bounds w')).
Proof.
  assert (exists w, JSMap.get "a" (windows (state bounded_pair)) = Some w) as [w Hw]
    by (vm_compute; eexists; reflexivity).
  destruct (X8_resize_clamps_to_the_bounds bounded_pair "a" w width_bounds
              {| width := 5000; height := 7 |} Hw)
    as (w' & Hw' & _ & _ & _ & _ & Hmax & _ & Hmin & _);
    [apply lookup_singleton_eq|reflexivity|].
  exists w'. split; [exact Hw'|]. split; [by apply (Hmax 800)|].
  apply (Hmin 200); [done..|]. intros M [= <-] _. done.
Defined.

(** What [minimizeWindow] and [restoreWindow] leave of a window. *)
Definition kept_fields (w : WindowState) :=
  (id w, appId w, bounds w, isMaximized w, metadata w).

(** X9.  Minimizing a live window and restoring it brings it back as the
    focused window, on top of the stacking order, not minimized and
    visible, with the bounds, the maximized flag and the metadata it
    had. *)
Theorem X9_minimize_then_restore m id w :
  JSMap.get id (windows (state m)) = Some w -> isMinimized w = false ->
  let m1 := (minimizeWindow id m).1 in
  let m2 := (restoreWindow id m1).1 in
  (exists w1, JSMap.get id (windows (state m1)) = Some w1
              /\ isMinimized w1 = true /\ isFocused w1 = false)
  /\ focusWindow id m1 = (m1, [])
  /\ exists w2, JSMap.get id (windows (state m2)) = Some w2
       /\ isMinimized w2 = false /\ isVisible w2 = true /\ isFocused w2 = true
       /\ kept_fields w2 = kept_fields w
       /\ focusedWindowId (state m2) = Some id
       /\ list.last (windowOrder (state m2)) = Some id.
Proof.
  intros Hg Hmin m1 m2.
  set (g := fun w => (kept_fields w, isMinimized w, isVisible w)).
  assert (exists w1, JSMap.get id (windows (state m1)) = Some w1
                     /\ g w1 = (kept_fields w, true, isVisible w)
                     /\ isFocused w1 = false) as (w1 & Hw1 & Hg1 & Hf1).
  { unfold m1, minimizeWindow. rewrite Hg, Hmin.
    set (st1 := with_windows _ (state m)).
    assert (JSMap.get id (windows st1)
            = Some (set_isFocused false (set_isMinimized true w))) as H1.
    { unfold st1. simpl. by rewrite get_update_eq, Hg. }
    clearbody st1.
    assert (forall next,
      exists w1, JSMap.get id (windows (state (focusWindow next (with_state st1 m)).1))
                 = Some w1
                 /\ g w1 = (kept_fields w, true, isVisible w)
                 /\ isFocused w1 = false) as Hnext.
    { intros next.
      pose proof (focusWindow_get_map g next id
                    (with_state st1 m) (fun _ _ => eq_refl) (fun _ _ => eq_refl)) as E.
      simpl in E. rewrite H1 in E.
      destruct (JSMap.get id (windows (state (focusWindow next (with_state st1 m)).1)))
        as [w1|] eqn:E1; [|done].
      simpl in E. apply (inj Some) in E. exists w1. split; [done|].
      split; [by rewrite E|].
      (* the window is minimized, so the focus step did not flag it *)
      destruct (JSMap.get next (windows st1)) as [wn|] eqn:Hn; cycle 1.
      { rewrite focusWindow_noop in E1 by (intros w'; simpl; by rewrite Hn).
        simpl in E1. rewrite H1 in E1. by injection E1 as <-. }
      destruct (isMinimized wn) eqn:Hmn.
      { rewrite focusWindow_noop in E1
          by (intros w'; simpl; rewrite Hn; by intros [= <-]).
        simpl in E1. rewrite H1 in E1. by injection E1 as <-. }
      assert (next <> id) as Hne by (intros ->; rewrite H1 in Hn; by injection Hn as <-).
      rewrite (focusWindow_state next (with_state st1 m) wn Hn Hmn) in E1.
      simpl in E1. rewrite get_update_ne in E1 by done.
      pose proof (bringToFront_get_map isFocused next
                    (blurred next st1) id
                    (fun _ _ => eq_refl)) as E4.
      rewrite E1 in E4. simpl in E4. rewrite blurred_get in E4.
      destruct (bool_decide _); rewrite H1 in E4; simpl in E4; by injection E4. }
    destruct (bool_decide _).
    - destruct (getTopmostWindow st1) as [next|].
      + destruct (Hnext (WM.id next)) as (w1 & Hw1 & Hrest).
        destruct (focusWindow (WM.id next) (with_state st1 m)) as [m' fx].
        exists w1. done.
      + simpl. eexists. split; [exact H1|done].
    - simpl. eexists. split; [exact H1|done]. }
  pose proof (f_equal (fun t => t.1.1) Hg1) as Hk1.
  pose proof (f_equal (fun t => t.1.2) Hg1) as Hm1.
  pose proof (f_equal snd Hg1) as Hv1. simpl in Hk1, Hm1, Hv1.
  split; [by exists w1|]. split.
  { apply focusWindow_noop. intros w'. rewrite Hw1. by intros [= <-]. }
  unfold m2, restoreWindow. rewrite Hw1, Hm1.
  set (st2 := with_windows _ (state m1)).
  assert (JSMap.get id (windows st2)
          = Some (set_isVisible true (set_isMinimized false w1))) as H2.
  { unfold st2. simpl. by rewrite get_update_eq, Hw1. }
  clearbody st2.
  destruct (focusWindow_focuses id (with_state st2 m1) _ H2 eq_refl) as (F1 & F2 & F3).
  pose proof (focusWindow_get_map g id id (with_state st2 m1)
                (fun _ _ => eq_refl) (fun _ _ => eq_refl)) as E.
  simpl in E. rewrite H2 in E.
  destruct (focusWindow id (with_state st2 m1)) as [m' fx]. simpl in *.
  destruct (JSMap.get id (windows (state m'))) as [w2|]; [|done].
  simpl in E, F2. apply (inj Some) in E. injection F2 as F2.
  pose proof (f_equal (fun t => t.1.1) E) as E1.
  pose proof (f_equal (fun t => t.1.2) E) as E2.
  pose proof (f_equal snd E) as E3. simpl in E1, E2, E3.
  exists w2. repeat split; try done. by rewrite E1, <- Hk1.
Qed.

Lemma X9_minimize_then_restore_witness :
  let m2 := (restoreWindow "a" (minimizeWindow "a" sample_pair).1).1 in
  focusWindow "a" (minimizeWindow "a" sample_pair).1
  = ((minimizeWindow "a" sample_pair).1, [])
  /\ focusedWindowId (state m2) = Some "a"
  /\ list.last (windowOrder (state m2)) = Some "a".
Proof.
  intros m2.
  assert (exists w, JSMap.get "a" (windows (state sample_pair)) = Some w
                    /\ isMinimized w = false) as (w & Hw & Hmin)
    by (vm_compute; eexists; split; reflexivity).
  destruct (X9_minimize_then_restore sample_pair "a" w Hw Hmin)
    as (_ & Hno & w2 & _ & _ & _ & _ & _ & Hf & Hl).
  split; [exact Hno|]. split; [exact Hf|exact Hl].
Defined.

Lemma focus_consistent_of_named_runs (ops : list op) :
  Forall names_its_window ops ->
  focus_consistent (state (run ops createWindowManager)).
Proof.
  intros Hops.
  assert (focus_consistent (state createWindowManager)) as H0
    by (split; [|split]; done).
  revert H0. unfold run. generalize createWindowManager.
  induction Hops as [|o ops Ho _ IH]; intros m Hm; simpl; [done|].
  apply IH. by apply focus_consistent_step.
Qed.

(** X10.  As long as no window is created with the empty string as its
    identity, in every state the operations and the deferred focus steps
    reach, a window flagged as focused is the one [focusedWindowId]
    names, is the one [getFocusedWindow()] returns and is not minimized;
    so at most one window is flagged as focused. *)
Theorem X10_the_focused_flag_follows_focusedWindowId (ops : list op) :
  Forall names_its_window ops ->
  let m := run ops createWindowManager in
  (forall k w, JSMap.get k (windows (state m)) = Some w -> isFocused w = true ->
     focusedWindowId (state m) = Some k /\ getFocusedWindow m = Some w
     /\ isMinimized w = false)
  /\ (forall k1 w1 k2 w2,
        JSMap.get k1 (windows (state m)) = Some w1 ->
        JSMap.get k2 (windows (state m)) = Some w2 ->
        isFocused w1 = true -> isFocused w2 = true -> k1 = k2).
Proof.
  intros Hops m.
  destruct (focus_consistent_of_named_runs ops Hops) as (Hfoc & _ & Hne).
  fold m in Hfoc, Hne.
  assert (forall k w, JSMap.get k (windows (state m)) = Some w -> isFocused w = true ->
            focusedWindowId (state m) = Some k /\ getFocusedWindow m = Some w
            /\ isMinimized w = false) as H.
  { intros k w Hk Hf. destruct (Hfoc k w Hk Hf) as [Hid Hmin].
    split; [done|]. split; [|done].
    unfold getFocusedWindow. rewrite Hid. unfold JS.truthy.
    destruct (String.eqb_spec k "") as [->|_]; [congruence|done]. }
  split; [done|].
  intros k1 w1 k2 w2 H1 H2 F1 F2.
  destruct (H k1 w1 H1 F1) as [E1 _]. destruct (H k2 w2 H2 F2) as [E2 _]. congruence.
Qed.

Lemma X10_focused_flag_witness :
  focusedWindowId (state (run sample_ops createWindowManager)) = Some "c"
  /\ forall k w,
       JSMap.get k (windows (state (run sample_ops createWindowManager))) = Some w ->
       isFocused w = true -> k = "c".
Proof.
  assert (Forall names_its_window sample_ops) as Hops.
  { unfold sample_ops. repeat (apply Forall_cons_2; [done|]). apply Forall_nil_2. }
  pose proof (X10_the_focused_flag_follows_focusedWindowId sample_ops Hops) as H.
  cbv zeta in H. destruct H as [H Hone].
  assert (exists w,
            JSMap.get "c" (windows (state (run sample_ops createWindowManager))) = Some w
            /\ isFocused w = true) as (w & Hw & Hf)
    by (vm_compute; eexists; split; reflexivity).
  destruct (H "c" w Hw Hf) as [E _].
  split; [exact E|].
  intros k w' Hk Hf'. exact (Hone k w' "c" w Hk Hw Hf' Hf).
Defined.

End WindowOperations.

(** ** Application registry and lifecycle *)

Section ApplicationExtras.
Import App App.Lifecycle.

(** X11.  Registering an application whose id is already registered
    throws.  Otherwise the registration is stored under the manifest's
    id with the time of the call, the other registrations are untouched
    and one [register] event is emitted; unregistering it again answers
    [true], emits one [unregister] event and leaves every lookup as it
    was before, and unregistering once more answers [false] and emits
    nothing. *)
Theorem X11_register_and_unregister (m : ApplicationManifest)
    (c : ApplicationComponent) (now : Z) (apps : Registry.t) :
  let appId := id (metadata m) in
  if Registry.hasApplication appId apps
  then exists e, Registry.register m c now apps = Thrown e
  else
    exists apps',
      Registry.register m c now apps = Returned (apps', [Emit (ev_register appId m)])
      /\ Registry.getApplication appId apps'
         = Some {| Registry.manifest := m; Registry.component := c;
                   Registry.registeredAt := now |}
      /\ (forall k, k <> appId ->
            Registry.getApplication k apps' = Registry.getApplication k apps)
      /\ exists apps'',
           Registry.unregister appId apps' = (apps'', [Emit (ev_unregister appId)], true)
           /\ (forall k, Registry.getApplication k apps''
                         = Registry.getApplication k apps)
           /\ Registry.unregister appId apps'' = (apps'', [], false).
Proof.
  intros appId. unfold Registry.hasApplication, Registry.register, JSMap.has.
  fold appId. destruct (JSMap.get appId apps) eqn:Hg; [by eexists|].
  eexists. split; [reflexivity|].
  unfold Registry.getApplication, Registry.unregister.
  split; [apply get_set_eq|]. split; [intros k Hk; by apply get_set_ne|].
  rewrite get_set_eq. eexists. split; [reflexivity|].
  assert (forall k, JSMap.get k (JSMap.delete appId (JSMap.set appId
            {| Registry.manifest := m; Registry.component := c;
               Registry.registeredAt := now |} apps)) = JSMap.get k apps) as Hk.
  { intros k. destruct (decide (k = appId)) as [->|Hne].
    - by rewrite get_delete_eq.
    - by rewrite get_delete_ne, get_set_ne. }
  split; [exact Hk|]. by rewrite Hk, Hg.
Qed.

(** X12.  Launching a registered application (that is not a singleton
    already running) stores a new instance under the identity
    [appId-suffix], without windows, and returns it.  When the
    application has no [onMount] hook or the hook returns, the instance
    is running; when the hook throws, [launch] does not throw: the
    error is logged, the instance is kept and returned in state
    [crashed], and an [error] event follows the state changes.  An
    application that is not registered makes [launch] throw. *)
Theorem X12_launch_starts_an_instance registry appId ctx now suffix L :
  match Registry.getApplication appId registry with
  | None => exists e, launch registry appId ctx now suffix L = Thrown e
  | Some app =>
  (declares_singleton registry appId = true -> findInstanceByAppId appId L = None) ->
  exists L' fx inst,
    launch registry appId ctx now suffix L = Returned (L', fx, inst)
    /\ i_id inst = (appId ++ "-" ++ suffix)%string
    /\ i_appId inst = appId /\ windowIds inst = []
    /\ getInstance (i_id inst) L' = Some inst
    /\ match onMount (Registry.component app) ≫= (fun hook => Some (hook ctx)) with
       | Some (throws error) =>
           i_state inst = crashed
           /\ fx = [Emit (ev_launch appId (i_id inst) ctx);
                    Emit (ev_stateChange (i_id inst) loading running);
                    ConsoleError ("Error mounting application " ++ appId ++ ":")%string;
                    Emit (ev_stateChange (i_id inst) running crashed);
                    Emit (ev_error (i_id inst) error)]
       | _ =>
           i_state inst = running
           /\ fx = [Emit (ev_launch appId (i_id inst) ctx);
                    Emit (ev_stateChange (i_id inst) loading running)]
       end
  end.
Proof.
  destruct (Registry.getApplication appId registry) as [app|] eqn:Happ;
    [|unfold launch; rewrite Happ; by eexists].
  intros Hsingle. unfold launch. rewrite Happ.
  unfold declares_singleton in Hsingle. rewrite Happ in Hsingle. simpl in Hsingle.
  assert ((if JS.truthyB (launchOptions (Registry.manifest app) ≫= singleton)
           then findInstanceByAppId appId L else None) = None) as ->.
  { destruct (JS.truthyB _); [by apply Hsingle|done]. }
  set (iid := (appId ++ "-" ++ suffix)%string).
  set (inst := {| i_id := iid; i_appId := appId; i_state := loading; windowIds := [];
                  startTime := now; lastActiveTime := now; context := ctx |}).
  set (L1 := with_instances (JSMap.set iid inst) L).
  assert (JSMap.get iid (instances L1) = Some inst) as H1
    by (unfold L1; simpl; apply get_set_eq).
  clearbody L1.
  rewrite (transitionState_hit iid loading running L1 inst H1 eq_refl).
  set (L2 := with_instances (JSMap.update iid (set_state running)) L1).
  assert (JSMap.get iid (instances L2) = Some (set_state running inst)) as H2
    by (unfold L2; simpl; by rewrite get_update_eq, H1).
  clearbody L2.
  assert (deref inst L2 = set_state running inst) as D2
    by (unfold deref; change (i_id inst) with iid; by rewrite H2).
  destruct (onMount (Registry.component app)) as [hook|]; cbn [mbind option_bind].
  - destruct (hook ctx) as [|error].
    + eexists _, _, _. split; [by rewrite D2|]. by repeat split.
    + rewrite (transitionState_hit iid running crashed L2 _ H2 eq_refl).
      set (L3 := with_instances (JSMap.update iid (set_state crashed)) L2).
      assert (JSMap.get iid (instances L3)
              = Some (set_state crashed (set_state running inst))) as H3
        by (unfold L3; simpl; by rewrite get_update_eq, H2).
      assert (deref inst L3 = set_state crashed (set_state running inst)) as D3
        by (unfold deref; change (i_id inst) with iid; by rewrite H3).
      eexists _, _, _. split; [by rewrite D3|]. by repeat split.
  - eexists _, _, _. split; [by rewrite D2|]. by repeat split.
Qed.

(** An application whose [onMount] hook throws, and one without hooks. *)
Definition plain_component : ApplicationComponent :=
  {| onMount := None; onUnmount := None; onSuspend := None; onResume := None |}.

Definition failing_component : ApplicationComponent :=
  {| onMount := Some (fun _ => throws "no display"); onUnmount := None;
     onSuspend := None; onResume := None |}.

Definition manifest_of (appId : string) : ApplicationManifest :=
  {| metadata := {| id := appId; name := appId; version := "1.0.0";
                    description := None; keywords := None |};
     capabilities := {| supportsMultipleInstances := None; supportsSuspend := Some false;
                        supportsBackgroundMode := Some true |};
     launchOptions := None |}.

Definition two_apps : Registry.t :=
  [("editor", {| Registry.manifest := manifest_of "editor";
                 Registry.component := plain_component; Registry.registeredAt := 0 |});
   ("broken", {| Registry.manifest := manifest_of "broken";
                 Registry.component := failing_component;
                 Registry.registeredAt := 1 |})].

Definition no_context : ApplicationContext :=
  {| args := None; workingDirectory := None |}.

Lemma X12_launch_witness :
  exists L' fx inst,
    launch two_apps "broken" no_context 7 "7-x" createApplicationLifecycleManager
    = Returned (L', fx, inst)
    /\ getInstance "broken-7-x" L' = Some inst /\ i_state inst = crashed.
Proof.
  pose proof (X12_launch_starts_an_instance two_apps "broken" no_context 7 "7-x"
                createApplicationLifecycleManager) as H.
  simpl in H. destruct H as (L' & fx & inst & Hl & Hid & _ & _ & Hget & Hstate & _);
    [done|].
  exists L', fx, inst. split; [exact Hl|]. rewrite Hid in Hget. by split.
Defined.

Lemma filter_ne_absent (w : string) (l : list string) :
  w ∉ l -> filter (fun k => k ≠ w) l = l.
Proof.
  induction l as [|k l IH]; [done|]. intros H.
  apply not_elem_of_cons in H as [Hne H].
  rewrite filter_cons_True by done. by rewrite IH.
Qed.

Lemma filter_ne_snoc (w : string) (l : list string) :
  filter (fun k => k ≠ w) (l ++ [w]) = filter (fun k => k ≠ w) l.
Proof.
  rewrite list.filter_app, filter_cons_False by (intros H; by apply H).
  by rewrite filter_nil, app_nil_r.
Qed.

Lemma getInstance_update_ne k id f L :
  k <> id ->
  getInstance k (with_instances (JSMap.update id f) L) = getInstance k L.
Proof. intros Hne. unfold getInstance. simpl. by apply get_update_ne. Qed.

(** X13.  [suspend] acts on a running instance only and [resume] on a
    suspended one only; otherwise they change nothing and emit nothing.
    Suspending a running instance and resuming it leaves it running with
    its last-active time set to the time of the resume, every other
    instance untouched.  Neither looks at the capabilities the manifest
    declares: the state after [suspend] is the same whatever the registry
    holds, [supportsSuspend] included. *)
Theorem X13_suspend_then_resume registry registry' id now L i :
  JSMap.get id (instances L) = Some i ->
  let s := suspend registry id L in
  let r := resume registry id now s.1 in
  (i_state i = running ->
     getInstance id s.1 = Some (set_state suspended i)
     /\ getInstance id r.1 = Some (set_lastActiveTime now i)
     /\ (forall k, k <> id -> getInstance k r.1 = getInstance k L)
     /\ head s.2 = Some (Emit (ev_stateChange id running suspended))
     /\ list.last s.2 = Some (Emit (ev_suspend id))
     /\ head r.2 = Some (Emit (ev_stateChange id suspended running))
     /\ list.last r.2 = Some (Emit (ev_resume id)))
  /\ (i_state i <> running -> s = (L, []))
  /\ (i_state i <> suspended -> resume registry id now L = (L, []))
  /\ (suspend registry' id L).1 = s.1.
Proof.
  intros Hg s r. split; [|split; [|split]].
  - intros Hrun. unfold r, s, suspend. rewrite Hg.
    rewrite bool_decide_eq_true_2 by done.
    rewrite (transitionState_hit id running suspended L i Hg Hrun).
    set (L1 := with_instances (JSMap.update id (set_state suspended)) L).
    assert (JSMap.get id (instances L1) = Some (set_state suspended i)) as H1
      by (unfold L1; simpl; by rewrite get_update_eq, Hg).
    cbn [fst snd]. unfold resume. rewrite H1.
    rewrite bool_decide_eq_true_2 by done.
    rewrite (transitionState_hit id suspended running L1 _ H1 eq_refl).
    cbn [fst snd]. split; [exact H1|]. split.
    { unfold getInstance. simpl. rewrite !get_update_eq, Hg. simpl. f_equal.
      destruct i; simpl in *. by subst. }
    split.
    { intros k Hk. unfold L1. by rewrite !getInstance_update_ne. }
    split; [done|]. split.
    { rewrite app_assoc. apply last_snoc. }
    split; [done|]. rewrite app_assoc. apply last_snoc.
  - intros Hrun. unfold s, suspend. rewrite Hg. by rewrite bool_decide_eq_false_2.
  - intros Hsus. unfold resume. rewrite Hg. by rewrite bool_decide_eq_false_2.
  - unfold s, suspend. rewrite Hg. destruct (bool_decide _); [|done].
    by destruct (transitionState id running suspended L).
Qed.

Definition editing : t :=
  {| instances := [("editor-1", {| i_id := "editor-1"; i_appId := "editor";
                                    i_state := running; windowIds := ["w1"];
                                    startTime := 3; lastActiveTime := 3;
                                    context := no_context |});
                   ("broken-2", {| i_id := "broken-2"; i_appId := "broken";
                                    i_state := crashed; windowIds := [];
                                    startTime := 4; lastActiveTime := 4;
                                    context := no_context |})];
     messageHandlers := ["editor-1"; "broken-2"] |}.

Lemma X13_suspend_then_resume_witness :
  (i_state <$> getInstance "editor-1" (suspend two_apps "editor-1" editing).1
   = Some suspended)
  /\ (lastActiveTime
        <$> getInstance "editor-1"
              (resume two_apps "editor-1" 9 (suspend two_apps "editor-1" editing).1).1
      = Some 9)
  /\ suspend two_apps "broken-2" editing = (editing, []).
Proof.
  destruct (X13_suspend_then_resume two_apps [] "editor-1" 9 editing _ eq_refl)
    as ((H1 & H2 & _) & _); [reflexivity|].
  destruct (X13_suspend_then_resume two_apps [] "broken-2" 9 editing _ eq_refl)
    as (_ & H3 & _).
  split; [by rewrite H1|]. split; [by rewrite H2|]. by apply H3.
Defined.

(** X14.  Terminating a live instance removes it and its message
    handler and leaves the other instances as they are; the effects
    start with the state change from the instance's state to [stopping]
    and end with the [terminate] event carrying the reason.  A second
    [terminate] of the same identity does nothing and emits nothing. *)
Theorem X14_terminate_removes_the_instance registry id reason L i :
  JSMap.get id (instances L) = Some i ->
  let t := terminate registry id reason L in
  getInstance id t.1 = None
  /\ (id ∉ messageHandlers (fst t))
  /\ (forall k, k <> id -> getInstance k t.1 = getInstance k L)
  /\ head t.2 = Some (Emit (ev_stateChange id (i_state i) stopping))
  /\ list.last t.2 = Some (Emit (ev_terminate id reason))
  /\ forall reason', terminate registry id reason' t.1 = (t.1, []).
Proof.
  intros Hg t. unfold t, terminate. rewrite Hg.
  rewrite (transitionState_hit id (i_state i) stopping L i Hg eq_refl).
  cbn [fst snd]. unfold getInstance. cbn [instances messageHandlers with_instances].
  split; [apply get_delete_eq|]. split.
  { intros Hin. apply list_elem_of_filter in Hin as [Hne _]. done. }
  split.
  { intros k Hk. by rewrite get_delete_ne, get_update_ne. }
  split; [done|]. split.
  { rewrite app_assoc. apply last_snoc. }
  intros reason'. by rewrite get_delete_eq.
Qed.

Lemma X14_terminate_witness :
  getInstance "editor-1" (terminate two_apps "editor-1" (Some "quit") editing).1 = None
  /\ messageHandlers (terminate two_apps "editor-1" (Some "quit") editing).1
     = ["broken-2"].
Proof.
  destruct (X14_terminate_removes_the_instance two_apps "editor-1" (Some "quit")
              editing _ eq_refl) as (H1 & _).
  split; [exact H1|reflexivity].
Defined.

(** X15.  [addWindowToInstance] records a window at most once: after the
    call the window is among the instance's windows, a list without
    repetition stays without repetition, and a second call with the same
    window changes nothing, not even the last-active time. *)
Theorem X15_a_window_is_recorded_once id w now later L i :
  JSMap.get id (instances L) = Some i ->
  let L1 := addWindowToInstance id w now L in
  (exists i1, getInstance id L1 = Some i1
              /\ w ∈ windowIds i1
              /\ (NoDup (windowIds i) -> NoDup (windowIds i1))
              /\ filter (fun k => k ≠ w) (windowIds i1)
                 = filter (fun k => k ≠ w) (windowIds i))
  /\ addWindowToInstance id w later L1 = L1
  /\ (w ∈ windowIds i -> L1 = L).
Proof.
  intros Hg L1. unfold L1, addWindowToInstance. rewrite Hg.
  destruct (bool_decide (w ∈ windowIds i)) eqn:Hin.
  - apply bool_decide_eq_true in Hin. split; [by exists i|].
    rewrite Hg. by rewrite bool_decide_eq_true_2.
  - apply bool_decide_eq_false in Hin.
    set (i1 := set_lastActiveTime now (set_windowIds (windowIds i ++ [w]) i)).
    assert (JSMap.get id
              (instances (with_instances
                 (JSMap.update id
                    (fun i0 => set_lastActiveTime now
                                 (set_windowIds (windowIds i0 ++ [w]) i0))) L))
            = Some i1) as H1 by (simpl; by rewrite get_update_eq, Hg).
    split; [|split; [|done]].
    + exists i1. split; [exact H1|]. simpl.
      split; [apply elem_of_app; right; left|]. split.
      * intros Hnd. apply list.NoDup_app. split; [done|].
        split; [|apply list.NoDup_singleton].
        intros k Hk Hk'. apply list_elem_of_singleton in Hk'. by subst.
      * apply filter_ne_snoc.
    + rewrite H1. rewrite bool_decide_eq_true_2; [done|].
      simpl. apply elem_of_app. right. left.
Qed.

Lemma X15_recorded_once_witness :
  (windowIds <$> getInstance "editor-1" (addWindowToInstance "editor-1" "w2" 5 editing)
   = Some ["w1"; "w2"])
  /\ addWindowToInstance "editor-1" "w2" 6 (addWindowToInstance "editor-1" "w2" 5 editing)
     = addWindowToInstance "editor-1" "w2" 5 editing.
Proof.
  destruct (X15_a_window_is_recorded_once "editor-1" "w2" 5 6 editing _ eq_refl)
    as (_ & H & _).
  split; [reflexivity|exact H].
Defined.

(** X16.  The bridge's two listeners undo each other: after the [create]
    event of a window that names a live instance, the window is mapped to
    the instance and appended to its windows; after the [destroy] event
    the mapping is gone and, the instance having other windows, its
    window list is the one from before and nothing is emitted. *)
Theorem X16_bridge_tracks_a_window registry w inst now t L i :
  JSMap.get inst (instances L) = Some i -> inst <> "" ->
  w ∉ windowIds i -> windowIds i <> [] ->
  let c := Bridge.handleWindowCreate w (Some inst) now t L in
  let d := Bridge.handleWindowDestroy registry w c.1 c.2 in
  AppQueries.getInstanceForWindow w c.1 = Some inst
  /\ (windowIds <$> getInstance inst c.2 = Some (windowIds i ++ [w]))
  /\ AppQueries.getInstanceForWindow w d.1.1 = None
  /\ getInstance inst d.1.2 = Some (set_lastActiveTime now i)
  /\ d.2 = [].
Proof.
  intros Hg Hne Hw Hws c d.
  assert (JS.truthy (Some inst) = true) as Ht.
  { unfold JS.truthy. by destruct (String.eqb_spec inst ""). }
  unfold d, c, Bridge.handleWindowCreate, AppQueries.getInstanceForWindow.
  rewrite Ht. cbn [fst snd]. unfold Bridge.t in *. rewrite lookup_insert_eq.
  unfold Bridge.handleWindowDestroy, Bridge.t. rewrite lookup_insert_eq, Ht.
  unfold addWindowToInstance. rewrite Hg.
  rewrite bool_decide_eq_false_2 by done.
  set (i1 := set_lastActiveTime now (set_windowIds (windowIds i ++ [w]) i)).
  set (L1 := with_instances _ L).
  assert (JSMap.get inst (instances L1) = Some i1) as H1
    by (unfold L1; simpl; by rewrite get_update_eq, Hg).
  clearbody L1.
  split; [done|]. split; [unfold getInstance; by rewrite H1|].
  unfold removeWindowFromInstance. rewrite H1.
  assert (filter (fun k => k ≠ w) (windowIds i1) = windowIds i) as ->.
  { simpl. rewrite filter_ne_snoc. by apply filter_ne_absent. }
  destruct (windowIds i) as [|k ks] eqn:E; [done|]. cbn [length Nat.eqb fst snd].
  split; [apply lookup_delete_eq|]. split; [|done].
  unfold getInstance. simpl. rewrite get_update_eq, H1. simpl. f_equal.
  unfold i1. destruct i; simpl in *. by subst.
Qed.

Lemma X16_bridge_witness :
  let c := Bridge.handleWindowCreate "w9" (Some "editor-1") 8 ∅ editing in
  AppQueries.getInstanceForWindow "w9" c.1 = Some "editor-1"
  /\ (Bridge.handleWindowDestroy two_apps "w9" c.1 c.2).2 = [].
Proof.
  intros c.
  edestruct (X16_bridge_tracks_a_window two_apps "w9" "editor-1" 8 ∅ editing _ eq_refl)
    as (H1 & _ & _ & _ & H2); [done| |done|].
  - simpl. intros H. apply list_elem_of_singleton in H. discriminate H.
  - split; [exact H1|exact H2].
Defined.

Lemma terminate_handlers registry id reason L i :
  JSMap.get id (instances L) = Some i ->
  messageHandlers (terminate registry id reason L).1
  = filter (fun h => h ≠ id) (messageHandlers L).
Proof.
  intros Hg. unfold terminate. rewrite Hg.
  by rewrite (transitionState_hit id (i_state i) stopping L i Hg eq_refl).
Qed.

(** X17.  A message reaches only instances that have a handler.  A
    broadcast (to ["*"]) is never delivered to its sender; a message to a
    named instance is delivered to that instance alone, and to nobody
    when it has no handler.  After [terminate] of a live instance no
    message is delivered to it.  After [registerMessageHandler] a
    message addressed to the instance is delivered to it. *)
Theorem X17_who_receives_a_message (message : AppQueries.InterAppMessage) L :
  (forall k, k ∈ AppQueries.sendMessage message L -> k ∈ messageHandlers L)
  /\ (AppQueries.msg_to message = "*" ->
        AppQueries.msg_from message ∉ AppQueries.sendMessage message L)
  /\ (AppQueries.msg_to message <> "*" ->
        AppQueries.sendMessage message L
        = if bool_decide (AppQueries.msg_to message ∈ messageHandlers L)
          then [AppQueries.msg_to message] else [])
  /\ (forall registry id reason i,
        JSMap.get id (instances L) = Some i ->
        id ∉ AppQueries.sendMessage message (terminate registry id reason L).1)
  /\ (AppQueries.msg_to message <> "*" ->
        AppQueries.sendMessage message
          (registerMessageHandler (AppQueries.msg_to message) L)
        = [AppQueries.msg_to message]).
Proof.
  assert (forall L0 k, k ∈ AppQueries.sendMessage message L0 -> k ∈ messageHandlers L0)
    as Hsub.
  { intros L0 k. unfold AppQueries.sendMessage.
    destruct (String.eqb _ "*").
    - intros H. by apply list_elem_of_filter in H as [_ H].
    - destruct (bool_decide _) eqn:E; [|by intros H; apply elem_of_nil in H].
      apply bool_decide_eq_true in E. intros H. apply list_elem_of_singleton in H.
      by subst. }
  split; [apply Hsub|]. split; [|split; [|split]].
  - intros Hto. unfold AppQueries.sendMessage. rewrite Hto. simpl.
    intros H. apply list_elem_of_filter in H as [Hne _]. done.
  - intros Hto. unfold AppQueries.sendMessage.
    by destruct (String.eqb_spec (AppQueries.msg_to message) "*").
  - intros registry id reason i Hg Hin. apply Hsub in Hin.
    rewrite (terminate_handlers registry id reason L i Hg) in Hin.
    apply list_elem_of_filter in Hin as [Hne _]. done.
  - intros Hto. unfold AppQueries.sendMessage.
    destruct (String.eqb_spec (AppQueries.msg_to message) "*"); [done|].
    rewrite bool_decide_eq_true_2; [done|]. unfold registerMessageHandler. simpl.
    destruct (bool_decide _) eqn:E; [by apply bool_decide_eq_true in E|].
    apply elem_of_app. right. left.
Qed.

Definition broadcast_from (sender : string) : AppQueries.InterAppMessage :=
  {| AppQueries.msg_from := sender; AppQueries.msg_to := "*";
     AppQueries.msg_type := "ping"; AppQueries.msg_payload := None;
     AppQueries.msg_timestamp := 0 |}.

Lemma X17_message_witness :
  AppQueries.sendMessage (broadcast_from "editor-1") editing = ["broken-2"]
  /\ ("editor-1" ∉ AppQueries.sendMessage (broadcast_from "editor-1") editing)
  /\ ("broken-2"
        ∉ AppQueries.sendMessage (broadcast_from "editor-1")
            (terminate two_apps "broken-2" None editing).1).
Proof.
  destruct (X17_who_receives_a_message (broadcast_from "editor-1") editing)
    as (_ & Hself & _ & Hterm & _).
  split; [reflexivity|]. split; [by apply Hself|].
  by eapply Hterm.
Defined.

(** X18.  [validateManifest] answers no error exactly when the id, the
    name and the version are all non-empty, and lists the errors in that
    order otherwise.  [register] does not validate: a manifest with
    errors is registered like any other when its id is free. *)
Theorem X18_validation_is_separate_from_registration
    (m : ApplicationManifest) (c : ApplicationComponent) (now : Z)
    (apps : Registry.t) :
  (AppQueries.validateManifest m = []
   <-> id (metadata m) <> "" /\ name (metadata m) <> "" /\ version (metadata m) <> "")
  /\ (id (metadata m) = "" ->
        head (AppQueries.validateManifest m) = Some "Application ID is required")
  /\ (Registry.hasApplication (id (metadata m)) apps = false ->
        exists apps', Registry.register m c now apps
                      = Returned (apps', [Emit (ev_register (id (metadata m)) m)])).
Proof.
  unfold AppQueries.validateManifest, JS.truthy.
  split; [|split].
  - destruct (String.eqb_spec (id (metadata m)) ""),
             (String.eqb_spec (name (metadata m)) ""),
             (String.eqb_spec (version (metadata m)) ""); simpl;
      split; try done; intros (? & ? & ?); done.
  - intros ->. done.
  - unfold Registry.hasApplication, Registry.register. intros ->. by eexists.
Qed.

Definition nameless : ApplicationManifest :=
  {| metadata := {| id := ""; name := ""; version := "1"; description := None;
                    keywords := None |};
     capabilities := {| supportsMultipleInstances := None; supportsSuspend := None;
                        supportsBackgroundMode := None |};
     launchOptions := None |}.

Lemma X18_validation_witness :
  AppQueries.validateManifest nameless
  = ["Application ID is required"; "Application name is required"]
  /\ exists apps', Registry.register nameless plain_component 0 two_apps
                   = Returned (apps', [Emit (ev_register "" nameless)]).
Proof.
  destruct (X18_validation_is_separate_from_registration nameless plain_component 0
              two_apps) as (_ & _ & H).
  split; [reflexivity|]. by apply H.
Defined.

End ApplicationExtras.

(** ** The windows of an application instance *)

Section WindowsOfAnInstance.
Import WM.

Lemma find_by_id (ws : JSMap.t WindowState) k :
  (forall k' w, (k', w) ∈ ws -> id w = k') ->
  find (fun w => String.eqb (id w) k) (JSMap.values ws) = JSMap.get k ws.
Proof.
  induction ws as [|[k' w] ws IH]; intros Hid; [done|]. simpl.
  rewrite (Hid k' w) by left. rewrite String.eqb_sym.
  destruct (String.eqb k k'); [done|].
  apply IH. intros k0 w0 Hin. apply Hid. by right.
Qed.

Lemma omap_pointwise {A B} (f g : A -> option B) (l : list A) :
  (forall x, f x = g x) -> omap f l = omap g l.
Proof.
  intros H. induction l as [|x l IH]; [done|]. simpl. rewrite H.
  destruct (g x); [f_equal|]; exact IH.
Qed.

(** X19.  In a reachable state of the window manager,
    [getAllWindowsForInstance] answers the live windows among the
    instance's window identities, in the order of that list: an identity
    whose window is gone is skipped, and an unknown instance has no
    windows. *)
Theorem X19_windows_of_an_instance instanceId (L : App.Lifecycle.t) (m : Manager) :
  reachable m ->
  AppQueries.getAllWindowsForInstance instanceId L m
  = match App.Lifecycle.getInstance instanceId L with
    | None => []
    | Some instance =>
        omap (fun k => JSMap.get k (windows (state m))) (App.windowIds instance)
    end.
Proof.
  intros Hm. unfold AppQueries.getAllWindowsForInstance.
  destruct (App.Lifecycle.getInstance instanceId L) as [instance|]; [|done].
  destruct (reachable_order_matches m Hm) as (Hk & _).
  destruct (reachable_well_kept m Hm) as [_ Hw].
  assert (forall k, find (fun w => String.eqb (id w) k) (getAllWindows m)
                    = JSMap.get k (windows (state m))) as E.
  { intros k. apply find_by_id. intros k' w Hin. by apply (Hw k' w), elem_of_get. }
  by apply omap_pointwise.
Qed.

Lemma X19_windows_of_an_instance_witness :
  id <$> AppQueries.getAllWindowsForInstance "editor-1"
           {| App.Lifecycle.instances :=
                [("editor-1", {| App.i_id := "editor-1"; App.i_appId := "editor";
                                 App.i_state := App.running;
                                 App.windowIds := ["c"; "gone"; "a"];
                                 App.startTime := 0; App.lastActiveTime := 0;
                                 App.context := no_context |})];
              App.Lifecycle.messageHandlers := [] |}
           sample_desk
  = ["c"; "a"].
Proof.
  rewrite X19_windows_of_an_instance by apply reachable_run.
  vm_compute. reflexivity.
Defined.

End WindowsOfAnInstance.

(** ** Input system: history and the default recognizers *)

Section InputExtras.
Import Input Input.InputSystem.

(** The last [n] elements of a list. *)
Definition lastn {A} (n : nat) (l : list A) : list A := drop (length l - n) l.

Lemma push_capped_lastn {A} (cap : nat) (l : list A) (x : A) :
  (0 < cap)%nat -> push_capped cap (lastn cap l) x = lastn cap (l ++ [x]).
Proof.
  intros Hcap. unfold push_capped, lastn.
  rewrite !length_app, length_drop. cbn [length].
  set (k := (length l - cap)%nat).
  destruct (Nat.ltb_spec cap (length l - k + 1)) as [Hlt|Hle].
  - assert (cap <= length l)%nat as Hl by lia.
    replace (length l + 1 - cap)%nat with (k + 1)%nat by lia.
    rewrite (drop_app_le l [x] (k + 1)) by lia.
    rewrite <- (drop_drop l 1 k).
    destruct (drop k l) as [|y r] eqn:E; [|done].
    apply (f_equal length) in E. rewrite length_drop in E. simpl in E. lia.
  - assert (k = 0)%nat as -> by lia.
    replace (length l + 1 - cap)%nat with 0%nat by lia. reflexivity.
Qed.

Lemma recognizeGestures_history events st :
  let st' := (recognizeGestures events st).1.1 in
  enabled st' = enabled st /\ recentEvents st' = recentEvents st
  /\ eventHistory st' = eventHistory st.
Proof.
  unfold recognizeGestures.
  destruct (Tap.recognize _ _ _ _), (Drag.recognize _ _ _), (Swipe.recognize _ _ _ _ _),
           (LongPress.recognize _ _ _), (run_custom _ _) as [[? ?] ?].
  done.
Qed.

Lemma processEvent_history hk he e st :
  enabled st = true ->
  let st' := (processEvent hk he e st).1.1 in
  enabled st' = true
  /\ recentEvents st' = push_capped 10 (recentEvents st) e
  /\ eventHistory st' = push_capped 100 (eventHistory st) e.
Proof.
  intros Hen. unfold processEvent. rewrite Hen. cbn [negb].
  pose proof (recognizeGestures_history (recentEvents (addToHistory e st))
                (addToHistory e st)) as H.
  destruct (recognizeGestures _ _) as [[st2 gs] fx]. simpl in *.
  destruct H as (-> & -> & ->). done.
Qed.

(** X20.  The input system keeps the last 10 events it processed in
    [recentEvents] and the last 100 in [eventHistory], whatever the
    events are, whatever the handlers answer and whether or not the
    long-press deadline passes in between; it stays enabled.  While
    disabled, [processEvent] records nothing, emits nothing and answers
    [false]. *)
Theorem X20_event_history_is_capped hk he (events : list (bool * InputEvent)) :
  let st := (feed hk he events createInputSystem).1 in
  enabled st = true
  /\ recentEvents st = lastn 10 (map snd events)
  /\ eventHistory st = lastn 100 (map snd events)
  /\ (length (recentEvents st) <= 10)%nat
  /\ (length (eventHistory st) <= 100)%nat
  /\ forall e st0, enabled st0 = false -> processEvent hk he e st0 = (st0, [], false).
Proof.
  assert (forall evs pre st0,
            enabled st0 = true -> recentEvents st0 = lastn 10 pre ->
            eventHistory st0 = lastn 100 pre ->
            let st := (feed hk he evs st0).1 in
            enabled st = true
            /\ recentEvents st = lastn 10 (pre ++ map snd evs)
            /\ eventHistory st = lastn 100 (pre ++ map snd evs)) as Hgen.
  { induction evs as [|[deadline e] evs IH]; intros pre st0 Hen Hr Hh.
    - simpl. by rewrite app_nil_r.
    - cbn [feed].
      set (st1 := if deadline then longPressTimeout st0 else st0).
      assert (enabled st1 = true /\ recentEvents st1 = lastn 10 pre
              /\ eventHistory st1 = lastn 100 pre) as (Hen1 & Hr1 & Hh1)
        by (unfold st1; by destruct deadline).
      clearbody st1.
      pose proof (processEvent_history hk he e st1 Hen1) as H.
      destruct (processEvent hk he e st1) as [[st2 fx] handled]. simpl in H.
      destruct H as (Hen2 & Hr2 & Hh2).
      rewrite Hr1, push_capped_lastn in Hr2 by lia.
      rewrite Hh1, push_capped_lastn in Hh2 by lia.
      specialize (IH (pre ++ [e]) st2 Hen2 Hr2 Hh2).
      destruct (feed hk he evs st2) as [st3 fx3]. simpl in *.
      by rewrite <- !app_assoc in IH. }
  intros st. destruct (Hgen events [] createInputSystem) as (H1 & H2 & H3); [done..|].
  fold st in H1, H2, H3. simpl in H2, H3.
  split; [done|]. split; [done|]. split; [done|].
  split; [rewrite H2; unfold lastn; rewrite length_drop; lia|].
  split; [rewrite H3; unfold lastn; rewrite length_drop; lia|].
  intros e st0 Hen. unfold processEvent. by rewrite Hen.
Qed.

(** [data.name] of a gesture. *)
Definition datum (name : string) (g : GestureEvent) : option DataValue :=
  snd <$> find (fun kv => String.eqb (fst kv) name) (g_data g).

(** A pointer event at a time and a place. *)
Definition pointer_event (type : InputEventType) (time x y : Z) : InputEvent :=
  {| ev_id := ""; ev_type := type; ev_timestamp := time;
     ev_position := Some {| px := x; py := y |}; ev_target := None;
     ev_context := None; ev_modifiers := None; ev_key := None |}.


(** X22.  The drag recognizer reports its gestures in brackets: a drag
    in state [start] only while it is not dragging (and it then is),
    [update] and [end] only while it is dragging, [end] leaving it idle;
    it never reports [cancel].  It passes from not dragging to dragging,
    or back, only when it reports [start] or [end], but for a release
    before the threshold, which it does not forget: the press stays
    tracked. *)
Theorem X22_drag_gestures_are_bracketed minDistance (st : Drag.state) events :
  match Drag.recognize minDistance st events with
  | (st', Some g) =>
      g_type g = g_drag
      /\ ((g_state g = gs_start /\ Drag.isDragging st = false
           /\ Drag.isDragging st' = true /\ Drag.startEvent st' = Drag.startEvent st)
          \/ (g_state g = gs_update /\ Drag.isDragging st = true /\ st' = st)
          \/ (g_state g = gs_end /\ Drag.isDragging st = true /\ st' = Drag.init))
  | (st', None) =>
      st' = st
      \/ (Drag.startEvent st = None /\ Drag.isDragging st' = false
          /\ exists lastEvent, JS.last_of events = Some lastEvent
                               /\ Drag.startEvent st' = Some lastEvent)
  end.
Proof.
  unfold Drag.recognize.
  destruct (JS.last_of events) as [lastEvent|]; [|by left].
  destruct st as [[start|] dragging]; simpl.
  - rewrite andb_false_r.
    destruct (is_move (ev_type lastEvent)), (is_up (ev_type lastEvent)), dragging,
             (Double.ge _ _); simpl;
      first [ by left
            | split; [done|]; first [ by left | right; by left | right; by right ] ].
  - destruct (is_down (ev_type lastEvent)); simpl; [|by left].
    right. split; [done|]. split; [done|]. by exists lastEvent.
Qed.

Lemma last_of_snoc {A} (l : list A) (x : A) : JS.last_of (l ++ [x]) = Some x.
Proof.
  induction l as [|y l IH]; [done|]. simpl.
  destruct (l ++ [x]) eqn:E; [by destruct l|]. exact IH.
Qed.

(** X23.  The drag recognizer does not forget a press that never became
    a drag: the release changes nothing, so a later move whose distance
    from that press, as the code computes it in double arithmetic, is at
    least [minDistance] starts a drag from that press, whatever happened
    in between. *)
Theorem X23_an_undragged_press_stays_tracked minDistance press release move earlier :
  is_down (ev_type press) = true -> is_up (ev_type release) = true ->
  is_move (ev_type move) = true ->
  Double.ge (dist_between press move) (Double.of_Z minDistance) = true ->
  let s1 := (Drag.recognize minDistance Drag.init (earlier ++ [press])).1 in
  let s2 := (Drag.recognize minDistance s1 (earlier ++ [press; release])).1 in
  s1 = {| Drag.startEvent := Some press; Drag.isDragging := false |}
  /\ s2 = s1
  /\ exists g,
       Drag.recognize minDistance s2 (earlier ++ [press; release; move])
       = ({| Drag.startEvent := Some press; Drag.isDragging := true |}, Some g)
       /\ g_type g = g_drag /\ g_state g = gs_start
       /\ datum "startPosition" g = Some (DPos (ev_position press)).
Proof.
  intros Hdown Hup Hmove Hfar s1 s2.
  assert (s1 = {| Drag.startEvent := Some press; Drag.isDragging := false |}) as E1.
  { unfold s1, Drag.recognize. rewrite last_of_snoc. simpl. by rewrite Hdown. }
  assert (s2 = s1) as E2.
  { unfold s2. rewrite E1. unfold Drag.recognize.
    change (earlier ++ [press; release]) with (earlier ++ [press] ++ [release]).
    rewrite app_assoc, last_of_snoc. simpl. rewrite andb_false_r.
    destruct (ev_type release); try discriminate Hup; done. }
  split; [done|]. split; [done|]. rewrite E2, E1.
  unfold Drag.recognize.
  change (earlier ++ [press; release; move])
    with (earlier ++ [press; release] ++ [move]).
  rewrite app_assoc, last_of_snoc. simpl. rewrite andb_false_r, Hmove, Hfar. simpl.
  eexists. split; [reflexivity|]. done.
Qed.

Lemma X23_undragged_press_witness :
  exists g,
    Drag.recognize 10
      (Drag.recognize 10 (Drag.recognize 10 Drag.init [pointer_event mouse_down 0 0 0]).1
         [pointer_event mouse_down 0 0 0; pointer_event mouse_up 50 1 1]).1
      [pointer_event mouse_down 0 0 0; pointer_event mouse_up 50 1 1;
       pointer_event mouse_move 9000 30 0]
    = ({| Drag.startEvent := Some (pointer_event mouse_down 0 0 0);
          Drag.isDragging := true |}, Some g)
    /\ g_state g = gs_start.
Proof.
  destruct (X23_an_undragged_press_stays_tracked 10 (pointer_event mouse_down 0 0 0)
              (pointer_event mouse_up 50 1 1) (pointer_event mouse_move 9000 30 0) [])
    as (_ & _ & g & Hg & _ & Hs & _);
    [reflexivity|reflexivity|reflexivity|vm_compute; reflexivity|].
  exists g. split; [exact Hg|exact Hs].
Defined.






(** X25.  A long press is reported at the release only, never when the
    deadline passes, and only if the deadline passed while the press was
    tracked: a release before the deadline answers nothing, a release
    after it answers a long press in state [end] with the time between
    press and release as its duration.  A move whose distance from the
    press, as the code computes it in double arithmetic, is above
    [maxDistance] cancels the tracking, deadline included.  The distance
    compared is the rounded one: with [maxDistance] 94906265 a move to
    (94906265, 1) after a press at the origin cancels nothing, the square
    root being rounded down to 94906265. *)
Theorem X25_long_press_needs_the_deadline maxDistance press release move earlier :
  is_down (ev_type press) = true -> is_up (ev_type release) = true ->
  is_move (ev_type move) = true ->
  Double.gt (dist_between press move) (Double.of_Z maxDistance) = true ->
  let s1 := (LongPress.recognize maxDistance LongPress.init (earlier ++ [press])).1 in
  LongPress.recognize maxDistance LongPress.init (earlier ++ [press])
  = ({| LongPress.startEvent := Some press; LongPress.timerPending := true;
        LongPress.triggered := false |}, None)
  /\ LongPress.recognize maxDistance s1 (earlier ++ [press; release])
     = (LongPress.init, None)
  /\ (exists g,
        LongPress.recognize maxDistance (LongPress.timeout s1)
          (earlier ++ [press; release])
        = (LongPress.init, Some g)
        /\ g_type g = g_long_press /\ g_state g = gs_end
        /\ datum "duration" g
           = Some (DNum (ev_timestamp release - ev_timestamp press)))
  /\ LongPress.recognize maxDistance (LongPress.timeout s1) (earlier ++ [press; move])
     = (LongPress.init, None)
  /\ LongPress.timeout
       (LongPress.recognize maxDistance s1 (earlier ++ [press; move])).1
     = LongPress.init
  /\ (forall st evs st' g,
        LongPress.recognize maxDistance st evs = (st', Some g) ->
        LongPress.triggered st = true /\ st' = LongPress.init /\ g_state g = gs_end
        /\ exists lastEvent, JS.last_of evs = Some lastEvent
                             /\ is_up (ev_type lastEvent) = true)
  /\ (let tracking :=
        {| LongPress.startEvent := Some (pointer_event mouse_down 0 0 0);
           LongPress.timerPending := true; LongPress.triggered := false |} in
      LongPress.recognize 94906265 tracking
        [pointer_event mouse_down 0 0 0; pointer_event mouse_move 100 94906265 1]
      = (tracking, None)).
Proof.
  intros Hdown Hup Hmove Hfar s1.
  assert (LongPress.recognize maxDistance LongPress.init (earlier ++ [press])
          = ({| LongPress.startEvent := Some press; LongPress.timerPending := true;
                LongPress.triggered := false |}, None)) as E1.
  { unfold LongPress.recognize. rewrite last_of_snoc. simpl. by rewrite Hdown. }
  unfold s1. rewrite E1. cbn [fst].
  assert (is_move (ev_type release) = false) as Hrm
    by (destruct (ev_type release); try discriminate Hup; done).
  assert (is_up (ev_type move) = false) as Hmu
    by (destruct (ev_type move); try discriminate Hmove; done).
  change (earlier ++ [press; release]) with (earlier ++ [press] ++ [release]).
  change (earlier ++ [press; move]) with (earlier ++ [press] ++ [move]).
  rewrite !app_assoc.
  split; [done|]. split; [|split; [|split; [|split; [|split]]]].
  - unfold LongPress.recognize. rewrite last_of_snoc. simpl.
    by rewrite andb_false_r, Hrm, Hup.
  - unfold LongPress.recognize. rewrite last_of_snoc. simpl.
    rewrite andb_false_r, Hrm, Hup. simpl. eexists. split; [reflexivity|]. done.
  - unfold LongPress.recognize. rewrite last_of_snoc. simpl.
    by rewrite andb_false_r, Hmove, Hfar.
  - unfold LongPress.recognize. rewrite last_of_snoc. simpl.
    by rewrite andb_false_r, Hmove, Hfar.
  - intros st evs st' g. unfold LongPress.recognize.
    destruct (JS.last_of evs) as [lastEvent|]; [|done].
    destruct (is_down (ev_type lastEvent) && _); [done|].
    destruct (LongPress.startEvent st) as [start|]; [|done].
    destruct (is_move (ev_type lastEvent) && _); [done|].
    destruct (is_up (ev_type lastEvent)) eqn:Hu; [|done].
    destruct (LongPress.triggered st); [|done].
    intros [= <- <-]. repeat split; try done. by exists lastEvent.
  - by vm_compute.
Qed.

Lemma X25_long_press_witness :
  LongPress.recognize 10
    (LongPress.recognize 10 LongPress.init [pointer_event mouse_down 0 5 5]).1
    [pointer_event mouse_down 0 5 5; pointer_event mouse_up 900 5 5]
  = (LongPress.init, None)
  /\ exists g,
       LongPress.recognize 10
         (LongPress.timeout
            (LongPress.recognize 10 LongPress.init [pointer_event mouse_down 0 5 5]).1)
         [pointer_event mouse_down 0 5 5; pointer_event mouse_up 900 5 5]
       = (LongPress.init, Some g)
       /\ g_state g = gs_end.
Proof.
  destruct (X25_long_press_needs_the_deadline 10 (pointer_event mouse_down 0 5 5)
              (pointer_event mouse_up 900 5 5) (pointer_event mouse_move 10 50 5) [])
    as (_ & H1 & (g & Hg & _ & Hs & _) & _);
    [reflexivity|reflexivity|reflexivity|vm_compute; reflexivity|].
  split; [exact H1|]. exists g. split; [exact Hg|exact Hs].
Defined.

End InputExtras.

(** ** Dispatch: priorities *)

Section SortFacts.
Context {A : Type} (key : A -> Z).

Lemma insert_desc_perm x (l : list A) : JSArray.insert_desc key x l ≡ₚ x :: l.
Proof.
  induction l as [|y l IH]; simpl; [done|].
  destruct (key x <? key y); [|done].
  rewrite IH. apply Permutation_swap.
Qed.

Lemma sort_desc_perm (l : list A) : JSArray.sort_desc key l ≡ₚ l.
Proof.
  induction l as [|x l IH]; simpl; [done|].
  by rewrite insert_desc_perm, IH.
Qed.

(** The sorted list starts with the first of the elements of greatest
    key. *)
Lemma sort_desc_head (l : list A) m rest :
  JSArray.sort_desc key l = m :: rest ->
  exists pre post, l = pre ++ m :: post
                   /\ Forall (fun x => key x < key m) pre
                   /\ Forall (fun x => key x <= key m) post.
Proof.
  revert m rest. induction l as [|x l IH]; intros m rest; simpl; [done|].
  destruct (JSArray.sort_desc key l) as [|y sorted] eqn:E; simpl.
  - intros [= <- <-]. exists [], l. split; [done|]. split; [done|].
    pose proof (sort_desc_perm l) as Hp. rewrite E in Hp.
    apply Permutation_nil_l in Hp. by subst.
  - destruct (IH y sorted eq_refl) as (pre & post & -> & Hpre & Hpost).
    destruct (Z.ltb_spec (key x) (key y)) as [Hlt|Hge].
    + intros [= <- <-]. exists (x :: pre), post. split; [done|].
      split; [by constructor|done].
    + intros [= <- <-]. exists [], (pre ++ y :: post). split; [done|].
      split; [done|]. apply Forall_app. split.
      * eapply List.Forall_impl; [|exact Hpre]. simpl. intros; lia.
      * constructor; [lia|]. eapply List.Forall_impl; [|exact Hpost]. simpl. intros; lia.
Qed.

(** Keys never increase along the sorted list. *)
Definition descending (l : list A) : Prop :=
  forall i j a b, (i < j)%nat -> l !! i = Some a -> l !! j = Some b -> key b <= key a.

Lemma descending_cons x (l : list A) :
  Forall (fun y => key y <= key x) l -> descending l -> descending (x :: l).
Proof.
  intros Hx Hl i j a b Hij Ha Hb. destruct i as [|i], j as [|j]; try lia; simpl in *.
  - injection Ha as <-. rewrite list.Forall_forall in Hx. apply Hx.
    by eapply list_elem_of_lookup_2.
  - apply (Hl i j a b); [lia|done..].
Qed.

Lemma descending_tail x (l : list A) :
  descending (x :: l) -> Forall (fun y => key y <= key x) l /\ descending l.
Proof.
  intros H. split.
  - apply list.Forall_forall. intros y Hy. apply list_elem_of_lookup in Hy as [j Hj].
    apply (H 0%nat (S j) x y); [lia|done..].
  - intros i j a b Hij Ha Hb. apply (H (S i) (S j) a b); [lia|done..].
Qed.

Lemma insert_desc_descending x (l : list A) :
  descending l -> descending (JSArray.insert_desc key x l).
Proof.
  induction l as [|y l IH]; intros Hl; simpl.
  - intros i j a b Hij Ha Hb. destruct i, j; simpl in *; try lia; done.
  - destruct (descending_tail y l Hl) as [Hy Hl'].
    destruct (Z.ltb_spec (key x) (key y)) as [Hlt|Hge].
    + apply descending_cons; [|by apply IH].
      rewrite insert_desc_perm. constructor; [lia|done].
    + apply descending_cons; [|done].
      constructor; [lia|]. eapply List.Forall_impl; [|exact Hy]. simpl. intros; lia.
Qed.

Lemma sort_desc_descending (l : list A) : descending (JSArray.sort_desc key l).
Proof.
  induction l as [|x l IH]; simpl.
  - intros i j a b _ Ha. done.
  - by apply insert_desc_descending.
Qed.

(** The sort is stable: the elements of one key keep their order. *)
Lemma insert_desc_stable p x (l : list A) :
  descending l ->
  List.filter (fun y => key y =? p) (JSArray.insert_desc key x l)
  = List.filter (fun y => key y =? p) (x :: l).
Proof.
  induction l as [|y l IH]; intros Hl; [done|].
  destruct (descending_tail y l Hl) as [Hy Hl']. cbn [JSArray.insert_desc].
  destruct (Z.ltb_spec (key x) (key y)) as [Hlt|Hge]; [|done].
  cbn [List.filter]. rewrite (IH Hl'). cbn [List.filter].
  destruct (Z.eqb_spec (key y) p) as [Ey|Ey], (Z.eqb_spec (key x) p) as [Ex|Ex];
    try done.
  lia.
Qed.

Lemma sort_desc_stable p (l : list A) :
  List.filter (fun y => key y =? p) (JSArray.sort_desc key l)
  = List.filter (fun y => key y =? p) l.
Proof.
  induction l as [|x l IH]; [done|]. simpl.
  rewrite insert_desc_stable by apply sort_desc_descending.
  simpl. by rewrite IH.
Qed.

End SortFacts.

Section InteractionDispatchFacts.
Import Input InteractionDispatch.

(** The handlers a call invoked, in order. *)
Definition invoked (fx : list Effect) : list InteractionHandler :=
  omap (fun e => match e with Handle h _ => Some h | _ => None end) fx.

Definition consumes (event : InputEvent) (h : InteractionHandler) : Prop :=
  handle h event = resolves true.

Lemma try_handlers_spec event (sorted : list InteractionHandler) :
  let r := try_handlers event sorted in
  if r.1
  then exists before c after,
         sorted = before ++ c :: after /\ invoked r.2 = before ++ [c]
         /\ consumes event c /\ Forall (fun h => ~ consumes event h) before
  else invoked r.2 = sorted /\ Forall (fun h => ~ consumes event h) sorted.
Proof.
  induction sorted as [|h sorted IH]; simpl; [done|]. unfold consumes in *.
  destruct (handle h event) as [[|]|error] eqn:Hh; simpl.
  - exists [], h, sorted. done.
  - destruct (try_handlers event sorted) as [[|] fx]; simpl in *.
    + destruct IH as (before & c & after & -> & Hi & Hc & Hb).
      exists (h :: before), c, after. rewrite Hi. repeat split; try done.
      constructor; [by rewrite Hh|done].
    + destruct IH as [-> Hall]. split; [done|]. constructor; [by rewrite Hh|done].
  - destruct (try_handlers event sorted) as [[|] fx]; simpl in *.
    + destruct IH as (before & c & after & -> & Hi & Hc & Hb).
      exists (h :: before), c, after. rewrite Hi. repeat split; try done.
      constructor; [by rewrite Hh|done].
    + destruct IH as [-> Hall]. split; [done|]. constructor; [by rewrite Hh|done].
Qed.

(** X26.  [handleEvent] offers the event to the handlers that can handle
    it and whose context filter matches, by decreasing priority and, among
    handlers of one priority, in the order of their registration.  It
    stops at the first handler that consumes the event and answers
    [true]; the handlers after it are not invoked.  A handler that
    answers [false] or fails is passed over (the failure is logged), and
    when no handler consumes the event the answer is [false], every
    matching handler having been invoked. *)
Theorem X26_handlers_run_by_priority (event : InputEvent) (handlers : t) :
  let matching := getMatchingHandlers event handlers in
  let sorted := JSArray.sort_desc h_priority matching in
  let r := handleEvent event handlers in
  (forall h, In h matching
             <-> In h (JSMap.values handlers) /\ canHandle h event = true
                 /\ InteractionRegistry.contextMatches (h_context h) (ev_context event)
                    = true)
  /\ sorted ≡ₚ matching
  /\ descending h_priority sorted
  /\ (forall p, List.filter (fun h => h_priority h =? p) sorted
                = List.filter (fun h => h_priority h =? p) matching)
  /\ if r.1
     then exists before c after,
            sorted = before ++ c :: after /\ invoked r.2 = before ++ [c]
            /\ consumes event c /\ Forall (fun h => ~ consumes event h) before
     else invoked r.2 = sorted /\ Forall (fun h => ~ consumes event h) sorted.
Proof.
  intros matching sorted r.
  split; [|split; [|split; [|split]]].
  - intros h. unfold matching, getMatchingHandlers. rewrite filter_In.
    destruct (canHandle h event); simpl; [|intuition discriminate].
    intuition.
  - apply sort_desc_perm.
  - apply sort_desc_descending.
  - intros p. apply sort_desc_stable.
  - assert (r = try_handlers event sorted) as ->.
    { unfold r, handleEvent. fold matching. fold sorted.
      destruct matching as [|h l] eqn:E; [done|]. done. }
    apply try_handlers_spec.
Qed.

End InteractionDispatchFacts.

Section ShortcutDispatchFacts.
Import Input ShortcutDispatch.

Variable toLowerCase : string -> string.
Variable sort : list string -> list string.

(** The shortcuts whose handler a call ran. *)
Definition ran (fx : list Effect) : list KeyboardShortcut :=
  omap (fun e => match e with Run s _ => Some s | _ => None end) fx.

(** The test of [handleKeyEvent] on one shortcut. *)
Definition shortcut_matches (event : InputEvent) (s : KeyboardShortcut) : bool :=
  JS.truthyB (s_enabled s)
  && KeyboardShortcutRegistry.contextMatches (s_context s) (ev_context event)
  && keysMatch toLowerCase sort (s_keys s) (buildEventKeys toLowerCase event).

(** X27.  [handleKeyEvent] runs at most one handler: on a [key.down]
    event that names a key or a modifier, the handler of the enabled
    shortcut of greatest context priority (0 when it has none) among
    those whose context and keys match, the first registered among
    equals; lower ones are not tried, even when that handler throws.
    The answer is [true] unless the handler throws (a rejected promise is
    only logged); on any other event, or when no shortcut matches,
    nothing runs and the answer is [false]. *)
Theorem X27_one_shortcut_runs (event : InputEvent) (shortcuts : t) :
  let matching := List.filter (shortcut_matches event) (JSMap.values shortcuts) in
  let r := handleKeyEvent toLowerCase sort event shortcuts in
  match ran r.2 with
  | [] =>
      r = (false, [])
      /\ (ev_type event <> key_down \/ buildEventKeys toLowerCase event = []
          \/ matching = [])
  | [s] =>
      ev_type event = key_down
      /\ (exists before after,
            matching = before ++ s :: after
            /\ Forall (fun s' => priority_of s' < priority_of s) before
            /\ Forall (fun s' => priority_of s' <= priority_of s) after)
      /\ r.1 = match s_handler s event with throws _ => false | _ => true end
  | _ => False
  end.
Proof.
  intros matching r. unfold r, handleKeyEvent.
  destruct (decide (ev_type event = key_down)) as [Hk|Hk]; cycle 1.
  { rewrite bool_decide_eq_false_2 by done. simpl. split; [done|]. by left. }
  rewrite bool_decide_eq_true_2 by done. cbn [negb].
  destruct (buildEventKeys toLowerCase event) as [|k ks] eqn:Hkeys.
  { simpl. split; [done|]. right. by left. }
  cbn [length Nat.eqb].
  assert (List.filter
            (fun shortcut =>
               if negb (JS.truthyB (s_enabled shortcut)) then false
               else if negb (KeyboardShortcutRegistry.contextMatches
                               (s_context shortcut) (ev_context event)) then false
               else keysMatch toLowerCase sort (s_keys shortcut) (k :: ks))
            (JSMap.values shortcuts) = matching) as ->.
  { unfold matching. apply filter_ext. intros s. unfold shortcut_matches.
    rewrite Hkeys. destruct (JS.truthyB _); [|done].
    by destruct (KeyboardShortcutRegistry.contextMatches _ _). }
  destruct (JSArray.sort_desc priority_of matching) as [|s rest] eqn:Hs.
  { simpl. split; [done|]. right. right.
    pose proof (sort_desc_perm priority_of matching) as Hp. rewrite Hs in Hp.
    by apply Permutation_nil_l in Hp. }
  destruct (sort_desc_head priority_of matching s rest Hs) as (before & after & H).
  destruct (s_handler s event) eqn:Hh; simpl; rewrite Hh;
    (split; [done|]); (split; [|done]); by exists before, after.
Qed.

End ShortcutDispatchFacts.

